(** * Smart date planner: preference vectors, scoring helpers and the course builder

    A shallow embedding of [src/utils/UserPreferenceModel.ts] and
    [src/utils/courseGenerator.ts].

    Number model.  The code computes with IEEE 754 doubles and with [Date]
    objects.  The embedding has three levels, and a statement is made at
    the level at which it holds of the code.

    - Exact arithmetic.  A finite number is a rational ([Q]), a [Date] is
      its millisecond time value ([Z]), [new Date(x)] truncates [x] towards
      zero, and local time is at one constant offset from UTC.  This is the
      level of the update of the user vector, whose results are rounded to
      three decimals and clamped, and of what the builder does whatever
      the numbers are: which places it takes, that no id occurs twice, that
      its loops end.  [cosineSimilarity] and [calculatePlaceScore] are also
      given at this level, over [R]; only what the rounding keeps is stated
      of them there: the score falls with the distance and with the number
      of selected places of the same type.
    - [Module Binary64], the similarity and the diversity multiplier in
      doubles: the quotient of [cosineSimilarity] and the power of
      [calculateDiversityPenalty] are rounded.
    - [Module Js], the builder over numbers that can be NaN and dates that
      can be the Invalid Date, with the local time of the host.  This is
      the level of the statements on the end times, the hops, the order of
      the steps and the meals. *)

From Stdlib Require Import Floats.
From Stdlib Require Import ZArith QArith Qround Qminmax Qabs Reals Qreals Lra Lia Lqa.
From Stdlib Require Import String Ascii List Bool.
From stdpp Require Import gmap strings.
Import ListNotations.

Local Open Scope Q_scope.

(** ** Numbers *)

Definition Qltb (a b : Q) : bool := negb (Qle_bool b a).

(** [ToIntegerOrInfinity]: truncation towards zero, as [TimeClip] applies it
    to the argument of [new Date(...)]. *)
Definition truncQ (q : Q) : Z :=
  if Qle_bool 0 q then Qfloor q else Qceiling q.

(** [parseFloat(x.toFixed(3))]: the multiple of 1/1000 nearest to [x], the
    larger one on a tie; [toFixed] rounds the magnitude and puts the sign
    back. *)
Definition roundHalfUp3 (x : Q) : Q := Qfloor (x * 1000 + (1#2)) # 1000.

Definition toFixed3 (x : Q) : Q :=
  if Qltb x 0 then - roundHalfUp3 (- x) else roundHalfUp3 x.

(** ** Strings *)

(** Strings are byte strings; [toLowerCase] maps the letters A to Z and
    leaves every other byte as it is. *)
Definition lowerAscii (c : ascii) : ascii :=
  let n := nat_of_ascii c in
  if (65 <=? n)%nat && (n <=? 90)%nat then ascii_of_nat (n + 32) else c.

Fixpoint toLowerCase (s : string) : string :=
  match s with
  | EmptyString => EmptyString
  | String c s' => String (lowerAscii c) (toLowerCase s')
  end.

(** [s.includes(sub)] *)
Fixpoint includes (s sub : string) : bool :=
  String.prefix sub s ||
  match s with
  | EmptyString => false
  | String _ s' => includes s' sub
  end.

(** ** types.ts *)

Inductive PlaceType :=
  | landmark | cafe | restaurant | shopping | activity | bakery | bar | culture.

Inductive MealType := mealLunch | mealDinner | mealCafe.

Inductive Companion := partner | friend | family | solo.
Inductive Transport := car | foot.
Inductive Intensity := relaxed | packed.

Definition PlaceType_eqb (a b : PlaceType) : bool :=
  match a, b with
  | landmark, landmark | cafe, cafe | restaurant, restaurant
  | shopping, shopping | activity, activity | bakery, bakery
  | bar, bar | culture, culture => true
  | _, _ => false
  end.

Definition MealType_eqb (a b : MealType) : bool :=
  match a, b with
  | mealLunch, mealLunch | mealDinner, mealDinner | mealCafe, mealCafe => true
  | _, _ => false
  end.

(** [Place]; [nameKo] is read by no function modelled here, and [themes]
    only by [extractTagsFromPlace], which takes them as an argument.
    A [mealType] of [null] or [undefined] is [None], and so is an absent
    [estimatedDuration]. *)
Module Place.
Record t := mk {
  id : string;
  name : string;
  type : PlaceType;
  lat : Q;
  lng : Q;
  isIndoor : bool;
  description : string;
  mealType : option MealType;
  estimatedDuration : option Q
}.
End Place.

(** ** UserPreferenceModel.ts *)

Inductive VectorDimension :=
  | Meat | Seafood | Noodle | Rice | Bread | Quiet | Active | Indoor | Nature | Luxury.

Definition VECTOR_DIMENSIONS : list VectorDimension :=
  [Meat; Seafood; Noodle; Rice; Bread; Quiet; Active; Indoor; Nature; Luxury].

Definition VectorDimension_eqb (a b : VectorDimension) : bool :=
  match a, b with
  | Meat, Meat | Seafood, Seafood | Noodle, Noodle | Rice, Rice | Bread, Bread
  | Quiet, Quiet | Active, Active | Indoor, Indoor | Nature, Nature
  | Luxury, Luxury => true
  | _, _ => false
  end.

(** [Record<VectorDimension, number>]: one number for each dimension. *)
Definition UserVector := VectorDimension -> Q.

(** [vector[dim] = x] *)
Definition vset (vector : UserVector) (dim : VectorDimension) (x : Q) : UserVector :=
  fun d => if VectorDimension_eqb d dim then x else vector d.

Definition INITIAL_USER_VECTOR : UserVector := fun _ => 1#2.

Definition placeToFeatureVector (place : Place.t) : UserVector :=
  let vector := INITIAL_USER_VECTOR in
  let nameLower := toLowerCase (Place.name place) in
  let descriptionLower := toLowerCase (Place.description place) in
  let combinedText := (nameLower +:+ " " +:+ descriptionLower)%string in
  let has := includes combinedText in
  let isType := PlaceType_eqb (Place.type place) in
  (* Food type detection *)
  let vector :=
    if has "steak" || has "meat" || has "bbq" || has "grill"
    then vset vector Meat 1 else vector in
  let vector :=
    if has "seafood" || has "fish" || has "sushi" || has "sashimi"
    then vset vector Seafood 1 else vector in
  let vector :=
    if has "noodle" || has "ramen" || has "udon" || has "soba"
    then vset vector Noodle 1 else vector in
  let vector :=
    if has "rice" || has "bibimbap" || has "gukbap"
    then vset vector Rice 1 else vector in
  let vector :=
    if isType bakery || has "bread" || has "bakery" || has "pastry"
    then vset vector Bread 1 else vector in
  (* Ambiance detection *)
  let vector :=
    if has "quiet" || has "peaceful" || has "serene" || isType culture
    then vset vector Quiet 1 else vector in
  let vector :=
    if has "active" || has "sport" || has "adventure" || isType activity
    then vset vector Active 1 else vector in
  (* Environment detection *)
  let vector :=
    if Place.isIndoor place then vset vector Indoor 1 else vset vector Nature 1 in
  let vector :=
    if has "park" || has "garden" || has "nature" || isType landmark
    then vset vector Nature (4#5) else vector in
  (* Luxury detection *)
  let vector :=
    if has "luxury" || has "premium" || has "fine dining" || has "gourmet"
    then vset vector Luxury 1
    else if has "steak" || has "lounge" || has "dining"
    then vset vector Luxury (4#5) else vector in
  vector.

Inductive Action := LIKE | DISLIKE.

Definition actionDelta (action : Action) : Q :=
  match action with LIKE => 1#10 | DISLIKE => - (2#10) end.

(** [Math.max(0.0, Math.min(1.0, parseFloat(updated.toFixed(3))))] *)
Definition clampRounded (updated : Q) : Q := Qmax 0 (Qmin 1 (toFixed3 updated)).

Definition updateUserVector (place : Place.t) (action : Action) (current : UserVector)
  : UserVector :=
  let placeVector := placeToFeatureVector place in
  let delta := actionDelta action in
  fold_left
    (fun next dim =>
       if Qltb 0 (placeVector dim)
       then let prev := next dim in
            let updated := prev + delta in
            vset next dim (clampRounded updated)
       else next)
    VECTOR_DIMENSIONS current.

(** ** courseGenerator.ts: scoring helpers *)

(** [x || 0] on a number *)
Definition orZero (x : Q) : Q := if Qeq_bool x 0 then 0 else x.

(** The three sums of the loop of [cosineSimilarity]:
    [(dotProduct, normA, normB)]. *)
Definition cosineSums (vecA vecB : UserVector) : R * R * R :=
  fold_left
    (fun '(dotProduct, normA, normB) dim =>
       let a := Q2R (orZero (vecA dim)) in
       let b := Q2R (orZero (vecB dim)) in
       (dotProduct + a * b, normA + a * a, normB + b * b)%R)
    VECTOR_DIMENSIONS (0, 0, 0)%R.

Definition cosineSimilarity (vecA vecB : UserVector) : R :=
  let '(dotProduct, normA, normB) := cosineSums vecA vecB in
  let denominator := (sqrt normA * sqrt normB)%R in
  if Req_dec_T denominator 0 then 0%R else (dotProduct / denominator)%R.

(** The sum of the squares of a vector over the ten dimensions. *)
Definition sumOfSquares (vec : UserVector) : R :=
  fold_right (fun dim acc => (Q2R (vec dim) * Q2R (vec dim) + acc)%R) 0%R
             VECTOR_DIMENSIONS.

(** [selectedPlaces.filter((p) => p.type === place.type).length] *)
Definition typeCount (place : Place.t) (selectedPlaces : list Place.t) : nat :=
  length (List.filter (fun p => PlaceType_eqb (Place.type p) (Place.type place))
                      selectedPlaces).

Definition calculateDiversityPenalty (place : Place.t) (selectedPlaces : list Place.t) : Q :=
  if (length selectedPlaces =? 0)%nat then 1
  else Qpower (6#10) (Z.of_nat (typeCount place selectedPlaces)).

(** [transport] is an optional parameter that defaults to ['foot']. *)
Definition travelMinutes (distanceKm : Q) (transport : option Transport) : Q :=
  match transport with
  | Some car =>
      let drivingTime := distanceKm * 3 in
      let parkingTime := 10 in
      Qmin 60 drivingTime + parkingTime
  | _ => Qmin 90 (distanceKm * 12)
  end.

(** ** courseGenerator.ts: data *)

Record Window := { startMinutes : Z; endMinutes : Z }.

Record MealWindows := { lunch : option Window; dinner : option Window }.

Definition DEFAULT_LUNCH_WINDOW : Window :=
  {| startMinutes := (11 * 60 + 30)%Z; endMinutes := (13 * 60 + 30)%Z |}.
Definition DEFAULT_DINNER_WINDOW : Window :=
  {| startMinutes := (17 * 60)%Z; endMinutes := (19 * 60 + 30)%Z |}.

Record Weather := { temp : Q; isRainy : bool }.

(** [PreferenceWeights | UserVector]: an object with string keys. *)
Abbreviation Preferences := (gmap string Q).

Module Options.
Record t := mk {
  startLocation : option Place.t;
  userPreferences : Preferences;
  weather : Weather;
  startTime : Z;
  endLocation : option Place.t;
  endTime : option Z;
  mustVisitPlaces : option (list Place.t);
  lockedSteps : option (gmap nat Place.t);
  mealWindows : option MealWindows;
  companion : option Companion;
  transport : option Transport;
  intensity : option Intensity;
  duration : option Q
}.
End Options.

Module CourseStep.
Record t := mk {
  place : Place.t;
  startTime : Z;
  endTime : Z;
  travelTime : Q
}.
End CourseStep.

Module GeneratedCourse.
Record t := mk {
  sequence : list Place.t;
  steps : list CourseStep.t;
  totalDistance : Q;
  estimatedDuration : Z
}.
End GeneratedCourse.

Record StepDefinition := {
  label : string;
  preferredTypes : list PlaceType;
  fallbackTypes : option (list PlaceType);
  stepMealType : option MealType;
  window : option Window
}.

Module ScoreContext.
Record t := mk {
  userVector : UserVector;
  isRainy : bool;
  temperature : Q;
  distanceKm : Q;
  selectedPlaces : list Place.t;
  companion : option Companion;
  transport : option Transport
}.
End ScoreContext.

(** What a call does: it returns a value or throws. *)
Inductive JsError := ReferenceError (identifier : string).

Inductive Completion (A : Type) :=
  | Normal (value : A)
  | Throw (error : JsError).
Arguments Normal {A} value.
Arguments Throw {A} error.

Definition dimensionKey (dim : VectorDimension) : string :=
  match dim with
  | Meat => "Meat" | Seafood => "Seafood" | Noodle => "Noodle" | Rice => "Rice"
  | Bread => "Bread" | Quiet => "Quiet" | Active => "Active" | Indoor => "Indoor"
  | Nature => "Nature" | Luxury => "Luxury"
  end.

(** [VECTOR_DIMENSIONS.every((dim) => dim in prefs)] *)
Definition isUserVector (prefs : Preferences) : bool :=
  forallb (fun dim => bool_decide (is_Some (prefs !! dimensionKey dim))) VECTOR_DIMENSIONS.

(** A preference object that passes [isUserVector], read as a [UserVector]. *)
Definition asUserVector (prefs : Preferences) : UserVector :=
  fun dim => default 0 (prefs !! dimensionKey dim).

(** [convertToUserVector].  The branch for legacy weights starts with
    [{ ...INITIAL_USER_VECTOR }], and courseGenerator.ts neither imports nor
    declares [INITIAL_USER_VECTOR] (its import from ./UserPreferenceModel
    lists PreferenceWeights, UserVector, VECTOR_DIMENSIONS and
    placeToFeatureVector): evaluating the identifier throws a
    ReferenceError, and the assignments after it are never reached. *)
Definition convertToUserVector (prefs : Preferences) : Completion UserVector :=
  if isUserVector prefs then Normal (asUserVector prefs)
  else Throw (ReferenceError "INITIAL_USER_VECTOR").

(** ** Dates

    [localOffsetMs] is the offset of local time from UTC in milliseconds,
    taken as constant over the days of a course; [Module Js] below has the
    local time of the host and the range of [Date]. *)

Definition msPerMinute : Z := 60000.
Definition msPerHour : Z := 3600000.
Definition msPerDay : Z := 86400000.

Definition getHours (localOffsetMs date : Z) : Z :=
  (((date + localOffsetMs) / msPerHour) mod 24)%Z.
Definition getMinutes (localOffsetMs date : Z) : Z :=
  (((date + localOffsetMs) / msPerMinute) mod 60)%Z.

Definition minutesSinceMidnight (localOffsetMs date : Z) : Z :=
  (getHours localOffsetMs date * 60 + getMinutes localOffsetMs date)%Z.

(** [new Date(date.getTime() + minutes * 60000)] *)
Definition addMinutes (date : Z) (minutes : Q) : Z :=
  truncQ (inject_Z date + minutes * 60000).

(** [d.setHours(hours, minutes, 0, 0)] on a copy of [date]: the same local
    day, at the given hour and minute. *)
Definition setHours (localOffsetMs date hours minutes : Z) : Z :=
  let localDay := ((date + localOffsetMs) / msPerDay)%Z in
  (localDay * msPerDay + hours * msPerHour + minutes * msPerMinute - localOffsetMs)%Z.

(** [Math.floor(startMinutes / 60)] and [startMinutes % 60] of the source;
    [%] is the remainder that takes the sign of the dividend. *)
Definition startOfWindow (localOffsetMs arriveAt : Z) (w : Window) : option Z :=
  let arriveMinutes := minutesSinceMidnight localOffsetMs arriveAt in
  if (arriveMinutes >? endMinutes w)%Z then None
  else
    let startMinutes' := Z.max arriveMinutes (startMinutes w) in
    Some (setHours localOffsetMs arriveAt (startMinutes' / 60)%Z (Z.rem startMinutes' 60)).

(** [x || fallback] on an optional number: [undefined] and [0] are falsy. *)
Definition orElse (x : option Q) (fallback : Q) : Q :=
  match x with
  | Some d => if Qeq_bool d 0 then fallback else d
  | None => fallback
  end.

(** ** courseGenerator.ts: candidate search

    The great-circle distance is a floating-point function of four
    coordinates ([haversineDistance], through sin, cos and atan2) and the
    score is a floating-point function of a place and its context
    ([calculatePlaceScore], through sqrt, exp and pow).  Their values are
    finite doubles, hence rationals, at this level, and the builder only
    compares them: it is parametrised by both functions, and what is proved
    of it holds for every such pair.  [Module Js] below is the builder for
    a distance and a score that can be NaN. *)

(** What [pickCandidate] returns (the [score] that its best candidate also
    carries is read by no caller). *)
Module Pick.
Record t := mk {
  place : Place.t;
  distanceKm : Q;
  startAt : Z;
  endAt : Z
}.
End Pick.

(** The [best] of the search loops. *)
Module Candidate.
Record t := mk {
  place : Place.t;
  distanceKm : Q;
  startAt : Z;
  endAt : Z;
  score : Q
}.
End Candidate.

(** What [findPlaceForTime] returns. *)
Module Found.
Record t := mk {
  place : Place.t;
  distanceKm : Q;
  startAt : Z;
  endAt : Z;
  isMeal : bool
}.
End Found.

Module PickContext.
Record t := mk {
  visited : gset string;
  userVector : UserVector;
  isRainy : bool;
  temperature : Q;
  currentTime : Z;
  currentPlace : Place.t;
  lockedSteps : option (gmap nat Place.t);
  transport : option Transport;
  companion : option Companion;
  selectedPlaces : option (list Place.t)
}.
End PickContext.

Definition isFoot (transport : option Transport) : bool :=
  match transport with Some foot => true | _ => false end.

Definition includesType (types : list PlaceType) (t : PlaceType) : bool :=
  existsb (PlaceType_eqb t) types.

Definition isValidForStep (place : Place.t) (step : StepDefinition) : bool :=
  if match stepMealType step with
     | Some mealLunch | Some mealDinner =>
         negb (PlaceType_eqb (Place.type place) restaurant)
     | _ => false
     end
  then false
  else if match stepMealType step with
          | Some mealCafe =>
              negb (PlaceType_eqb (Place.type place) cafe) &&
              negb (PlaceType_eqb (Place.type place) bakery)
          | _ => false
          end
  then false
  else true.

(** [!stepMealType || !p.mealType || p.mealType === stepMealType] *)
Definition mealTypeAgrees (stepMeal placeMeal : option MealType) : bool :=
  match stepMeal, placeMeal with
  | Some m, Some pm => MealType_eqb pm m
  | _, _ => true
  end.

(** [if (!best || score > best.score) best = candidate] *)
Definition keepBest (best : option Candidate.t) (c : Candidate.t) : option Candidate.t :=
  match best with
  | None => Some c
  | Some b => if Qltb (Candidate.score b) (Candidate.score c) then Some c else best
  end.

Section Builder.

Variable localOffsetMs : Z.
Variable haversineDistance : Q -> Q -> Q -> Q -> Q.
Variable calculatePlaceScore : Place.t -> ScoreContext.t -> Q.

Definition distanceBetween (a b : Place.t) : Q :=
  haversineDistance (Place.lat a) (Place.lng a) (Place.lat b) (Place.lng b).

(** [{ ok: true, startAt }] is [Some startAt], [{ ok: false }] is [None]. *)
Definition validateWindow (step : StepDefinition) (arriveAt : Z) : option Z :=
  match window step with
  | None => Some arriveAt
  | Some w => startOfWindow localOffsetMs arriveAt w
  end.

Definition lockedAt (lockedSteps : option (gmap nat Place.t)) (index : nat)
  : option Place.t :=
  match lockedSteps with
  | Some m => m !! index
  | None => None
  end.

(** The second half of [pickCandidate]: filter the pool for the step, score
    every candidate that passes the distance and window checks, keep the
    best. *)
Definition scoredSearch (allPlaces : list Place.t) (step : StepDefinition)
    (context : PickContext.t) : option Pick.t :=
  let candidates :=
    List.filter
      (fun p =>
         negb (bool_decide (Place.id p ∈ PickContext.visited context)) &&
         (includesType (preferredTypes step) (Place.type p) ||
          includesType (default [] (fallbackTypes step)) (Place.type p)) &&
         isValidForStep p step &&
         mealTypeAgrees (stepMealType step) (Place.mealType p))
      allPlaces in
  if (length candidates =? 0)%nat then None
  else
    let best :=
      fold_left
        (fun best place =>
           let distanceKm := distanceBetween (PickContext.currentPlace context) place in
           if isFoot (PickContext.transport context) && Qltb (3#2) distanceKm then best
           else
             let arriveAt :=
               addMinutes (PickContext.currentTime context)
                          (travelMinutes distanceKm (PickContext.transport context)) in
             match validateWindow step arriveAt with
             | None => best
             | Some startAt =>
                 let endAt := addMinutes startAt (orElse (Place.estimatedDuration place) 60) in
                 let score :=
                   calculatePlaceScore place
                     (ScoreContext.mk (PickContext.userVector context)
                        (PickContext.isRainy context) (PickContext.temperature context)
                        distanceKm (default [] (PickContext.selectedPlaces context))
                        (PickContext.companion context) (PickContext.transport context)) in
                 keepBest best (Candidate.mk place distanceKm startAt endAt score)
             end)
        candidates None in
    option_map
      (fun b => Pick.mk (Candidate.place b) (Candidate.distanceKm b)
                        (Candidate.startAt b) (Candidate.endAt b))
      best.

(** [pickCandidate]: the locked step first, the scored search when there is
    no usable lock. *)
Definition pickCandidate (allPlaces : list Place.t) (stepIndex : nat)
    (step : StepDefinition) (context : PickContext.t) : option Pick.t :=
  match lockedAt (PickContext.lockedSteps context) (stepIndex + 1) with
  | Some locked =>
      if negb (bool_decide (Place.id locked ∈ PickContext.visited context)) &&
         isValidForStep locked step
      then
        let distanceKm := distanceBetween (PickContext.currentPlace context) locked in
        let arriveAt :=
          addMinutes (PickContext.currentTime context)
                     (travelMinutes distanceKm (PickContext.transport context)) in
        match validateWindow step arriveAt with
        | Some startAt =>
            let endAt := addMinutes startAt (orElse (Place.estimatedDuration locked) 60) in
            Some (Pick.mk locked distanceKm startAt endAt)
        | None => scoredSearch allPlaces step context
        end
      else scoredSearch allPlaces step context
  | None => scoredSearch allPlaces step context
  end.

Definition inWindow (minutes : Z) (w : Window) : bool :=
  (minutes >=? startMinutes w)%Z && (minutes <=? endMinutes w)%Z.

(** The step that [findPlaceForTime] derives from the time of day:
    [(preferredTypes, mealType, window, isMeal)]. *)
Definition stepForTime (currentMinutes : Z) (lunchWindow dinnerWindow : Window)
    (hasHadLunch hasHadDinner : bool)
  : list PlaceType * option MealType * option Window * bool :=
  if negb hasHadLunch && inWindow currentMinutes lunchWindow
  then ([restaurant], Some mealLunch, Some lunchWindow, true)
  else if negb hasHadDinner && inWindow currentMinutes dinnerWindow
  then ([restaurant], Some mealDinner, Some dinnerWindow, true)
  else if (currentMinutes >? endMinutes lunchWindow)%Z &&
          (currentMinutes <? startMinutes dinnerWindow)%Z
  then ([cafe; bakery], Some mealCafe, None, false)
  else ([activity; cafe; culture; shopping], None, None, false).

Definition lunchOf (mealWindows : option MealWindows) : Window :=
  default DEFAULT_LUNCH_WINDOW (mealWindows ≫= lunch).
Definition dinnerOf (mealWindows : option MealWindows) : Window :=
  default DEFAULT_DINNER_WINDOW (mealWindows ≫= dinner).

(** [maxEndTime && endAt > maxEndTime] *)
Definition exceeds (maxEndTime : option Z) (endAt : Z) : bool :=
  match maxEndTime with
  | Some m => (endAt >? m)%Z
  | None => false
  end.

Definition findPlaceForTime (currentTime : Z) (from : Place.t)
    (allPlaces : list Place.t) (visited : gset string)
    (mealWindows : option MealWindows) (transport : Transport) (baseDuration : Q)
    (maxEndTime : option Z) (hasHadLunch hasHadDinner : bool)
    (userVector : UserVector) (selectedPlaces : list Place.t)
    (companion : option Companion) (isRainy : option bool) (temperature : option Q)
  : option Found.t :=
  let currentMinutes := minutesSinceMidnight localOffsetMs currentTime in
  let lunchWindow := lunchOf mealWindows in
  let dinnerWindow := dinnerOf mealWindows in
  let '(preferredTypes, mealType, window, isMeal) :=
    stepForTime currentMinutes lunchWindow dinnerWindow hasHadLunch hasHadDinner in
  let candidates :=
    List.filter
      (fun p =>
         negb (bool_decide (Place.id p ∈ visited)) &&
         (if isMeal
          then includesType preferredTypes (Place.type p) &&
               mealTypeAgrees mealType (Place.mealType p)
          else includesType preferredTypes (Place.type p) &&
               negb (PlaceType_eqb (Place.type p) restaurant)))
      allPlaces in
  if (length candidates =? 0)%nat then None
  else
    let best :=
      fold_left
        (fun best place =>
           let distanceKm := distanceBetween from place in
           if isFoot (Some transport) && Qltb (3#2) distanceKm then best
           else
             let travelTime := travelMinutes distanceKm (Some transport) in
             let arriveAt := addMinutes currentTime travelTime in
             match match window with
                   | Some w => startOfWindow localOffsetMs arriveAt w
                   | None => Some arriveAt
                   end
             with
             | None => best
             | Some startAt =>
                 let endAt :=
                   addMinutes startAt (orElse (Place.estimatedDuration place) baseDuration) in
                 if exceeds maxEndTime endAt then best
                 else
                   let score :=
                     calculatePlaceScore place
                       (ScoreContext.mk userVector (default false isRainy)
                          (default 20 temperature) distanceKm selectedPlaces
                          companion (Some transport)) in
                   keepBest best (Candidate.mk place distanceKm startAt endAt score)
             end)
        candidates None in
    match best with
    | None => None
    | Some b =>
        Some (Found.mk (Candidate.place b) (Candidate.distanceKm b)
                       (Candidate.startAt b) (Candidate.endAt b) isMeal)
    end.

(** ** courseGenerator.ts: the builder

    The local variables of [generateCourse] that its loops assign. *)
Record BuilderState := {
  sequence : list Place.t;
  courseSteps : list CourseStep.t;
  visited : gset string;
  selectedPlaces : list Place.t;
  totalDistance : Q;
  currentPlace : Place.t;
  currentTime : Z;
  hasHadLunch : bool;
  hasHadDinner : bool
}.

Section Run.

Variable allPlaces : list Place.t.
Variable options : Options.t.
(** the start venue, once [generateCourse] has found it present, and the
    converted preferences *)
Variable startLocation : Place.t.
Variable userVector : UserVector.

Definition startTime : Z := Options.startTime options.
Definition mustVisitPlaces : list Place.t := default [] (Options.mustVisitPlaces options).
Definition mealWindows : option MealWindows := Options.mealWindows options.
Definition companion : Companion := default solo (Options.companion options).
Definition transport : Transport := default foot (Options.transport options).
Definition intensity : Intensity := default relaxed (Options.intensity options).
Definition duration : Q := default 6 (Options.duration options).
Definition weather : Weather := Options.weather options.

Definition initialState : BuilderState :=
  {| sequence := [startLocation];
     courseSteps := [CourseStep.mk startLocation startTime startTime 0];
     visited := {[ Place.id startLocation ]};
     selectedPlaces := [startLocation];
     totalDistance := 0;
     currentPlace := startLocation;
     currentTime := startTime;
     hasHadLunch := false;
     hasHadDinner := false |}.

Definition baseDuration : Q :=
  match intensity with relaxed => 90 | packed => 60 end.

Definition durationEndTime : Z := addMinutes startTime (duration * 60).

Definition maxEndTime : Z :=
  match Options.endTime options with
  | Some endTime => Z.min endTime durationEndTime
  | None => durationEndTime
  end.

Definition targetEndLocation : option Place.t := Options.endLocation options.

Definition anchorsToVisit : list Place.t :=
  mustVisitPlaces ++
  match targetEndLocation with
  | Some e =>
      if existsb (fun p => String.eqb (Place.id p) (Place.id e)) mustVisitPlaces
      then [] else [e]
  | None => []
  end.

(** The three places where the end venue is appended with a zero-length
    stay.  The first two also add its id to [visited]; the last one, after
    both loops, does not. *)
Definition appendEndLocation (markVisited : bool) (st : BuilderState) : BuilderState :=
  match targetEndLocation with
  | Some e =>
      if bool_decide (Place.id e ∈ visited st) then st
      else
        let distanceToEnd := distanceBetween (currentPlace st) e in
        let travelTime := travelMinutes distanceToEnd (Some transport) in
        let arriveAt := addMinutes (currentTime st) travelTime in
        if (arriveAt <=? maxEndTime)%Z
        then {| sequence := sequence st ++ [e];
                courseSteps := courseSteps st ++ [CourseStep.mk e arriveAt arriveAt travelTime];
                visited := if markVisited then visited st ∪ {[ Place.id e ]} else visited st;
                selectedPlaces := selectedPlaces st;
                totalDistance := totalDistance st + distanceToEnd;
                currentPlace := currentPlace st;
                currentTime := currentTime st;
                hasHadLunch := hasHadLunch st;
                hasHadDinner := hasHadDinner st |}
        else st
  | None => st
  end.

(** The meal flags after an anchor that is a restaurant:
    [(hasHadLunch, hasHadDinner)]. *)
Definition anchorMealFlags (anchor : Place.t) (arriveAt : Z) (st : BuilderState)
  : bool * bool :=
  let currentMinutes := minutesSinceMidnight localOffsetMs arriveAt in
  let lunchWindow := lunchOf mealWindows in
  let dinnerWindow := dinnerOf mealWindows in
  if PlaceType_eqb (Place.type anchor) restaurant
  then
    if negb (hasHadLunch st) && inWindow currentMinutes lunchWindow
    then (true, hasHadDinner st)
    else if negb (hasHadDinner st) && inWindow currentMinutes dinnerWindow
    then (hasHadLunch st, true)
    else (hasHadLunch st, hasHadDinner st)
  else (hasHadLunch st, hasHadDinner st).

(** The hop straight to the anchor, written twice in the source: as the
    last resort when no intermediate stop is found ([track = false]: the
    anchor is not pushed on [selectedPlaces]) and when the anchor is in
    reach ([track = true]).  Both leave the state as it is when the stay
    would end after [maxEndTime], and both are followed by [break]. *)
Definition connectAnchor (track : bool) (anchor : Place.t) (distanceToAnchor : Q)
    (st : BuilderState) : BuilderState :=
  let travelTime := travelMinutes distanceToAnchor (Some transport) in
  let arriveAt := addMinutes (currentTime st) travelTime in
  let endAt := addMinutes arriveAt (orElse (Place.estimatedDuration anchor) baseDuration) in
  if (endAt >? maxEndTime)%Z then st
  else
    let flags := anchorMealFlags anchor arriveAt st in
    {| sequence := sequence st ++ [anchor];
       courseSteps := courseSteps st ++ [CourseStep.mk anchor arriveAt endAt travelTime];
       visited := visited st ∪ {[ Place.id anchor ]};
       selectedPlaces := if track then selectedPlaces st ++ [anchor] else selectedPlaces st;
       totalDistance := totalDistance st + distanceToAnchor;
       currentPlace := anchor;
       currentTime := endAt;
       hasHadLunch := fst flags;
       hasHadDinner := snd flags |}.

(** Appending what [findPlaceForTime] found, an intermediate stop or the
    next stop of the time fill. *)
Definition pushFound (found : Found.t) (st : BuilderState) : BuilderState :=
  let p := Found.place found in
  {| sequence := sequence st ++ [p];
     courseSteps :=
       courseSteps st ++
       [CourseStep.mk p (Found.startAt found) (Found.endAt found)
                      (travelMinutes (Found.distanceKm found) (Some transport))];
     visited := visited st ∪ {[ Place.id p ]};
     selectedPlaces := selectedPlaces st ++ [p];
     totalDistance := totalDistance st + Found.distanceKm found;
     currentPlace := p;
     currentTime := Found.endAt found;
     hasHadLunch :=
       if Found.isMeal found
       then match Place.mealType p with Some mealLunch => true | _ => hasHadLunch st end
       else hasHadLunch st;
     hasHadDinner :=
       if Found.isMeal found
       then match Place.mealType p with
            | Some mealLunch => hasHadDinner st
            | Some mealDinner => true
            | _ => hasHadDinner st
            end
       else hasHadDinner st |}.

Definition searchFrom (st : BuilderState) : option Found.t :=
  findPlaceForTime (currentTime st) (currentPlace st) allPlaces (visited st)
    mealWindows transport baseDuration (Some maxEndTime)
    (hasHadLunch st) (hasHadDinner st) userVector (selectedPlaces st)
    (Some companion) (Some (isRainy weather)) (Some (temp weather)).

(** [while (currentPlace.id !== anchor.id) { ... }]; [None] when the fuel
    runs out before the loop ends. *)
Fixpoint routeToAnchor (fuel : nat) (anchor : Place.t) (st : BuilderState)
  : option BuilderState :=
  match fuel with
  | O => None
  | S fuel' =>
      if String.eqb (Place.id (currentPlace st)) (Place.id anchor) then Some st
      else
        let distanceToAnchor := distanceBetween (currentPlace st) anchor in
        if isFoot (Some transport) && Qltb (3#2) distanceToAnchor
        then
          match searchFrom st with
          | None => Some (connectAnchor false anchor distanceToAnchor st)
          | Some intermediate =>
              let st' := pushFound intermediate st in
              if (currentTime st' >=? maxEndTime)%Z then Some st'
              else routeToAnchor fuel' anchor st'
          end
        else Some (connectAnchor true anchor distanceToAnchor st)
  end.

(** [for (const anchor of anchorsToVisit) { ... }] *)
Fixpoint routeAnchors (fuel : nat) (anchors : list Place.t) (st : BuilderState)
  : option BuilderState :=
  match anchors with
  | [] => Some st
  | anchor :: rest =>
      if bool_decide (Place.id anchor ∈ visited st) then routeAnchors fuel rest st
      else if (currentTime st >=? maxEndTime)%Z then Some (appendEndLocation true st)
      else
        match routeToAnchor fuel anchor st with
        | None => None
        | Some st' => routeAnchors fuel rest st'
        end
  end.

(** [while (currentTime < targetEndTime) { ... }] with
    [targetEndTime = maxEndTime] *)
Fixpoint fillTime (fuel : nat) (st : BuilderState) : option BuilderState :=
  match fuel with
  | O => None
  | S fuel' =>
      if (currentTime st <? maxEndTime)%Z
      then
        let remainingMinutes := inject_Z (maxEndTime - currentTime st) / 60000 in
        if Qltb remainingMinutes 30 then Some st
        else
          match searchFrom st with
          | None => Some st
          | Some nextPlace =>
              if (Found.endAt nextPlace >? maxEndTime)%Z
              then Some (appendEndLocation true st)
              else fillTime fuel' (pushFound nextPlace st)
          end
      else Some st
  end.

(** [Math.round(x)] *)
Definition mathRound (x : Q) : Z := Qfloor (x + (1#2)).

Definition finish (st : BuilderState) : GeneratedCourse.t :=
  let st := appendEndLocation false st in
  let finalTime :=
    match last (courseSteps st) with
    | Some step => CourseStep.endTime step
    | None => currentTime st
    end in
  let estimatedDuration := mathRound (inject_Z (finalTime - startTime) / 60000) in
  GeneratedCourse.mk (sequence st) (courseSteps st)
    (inject_Z (mathRound (totalDistance st * 10)) / 10) estimatedDuration.

(** Every turn of either [while] loop that does not leave it visits a place
    of the pool that was not visited before, so one more turn than the pool
    has places is enough. *)
Definition loopFuel : nat := S (length allPlaces).

Definition buildCourse : option GeneratedCourse.t :=
  match routeAnchors loopFuel anchorsToVisit initialState with
  | None => None
  | Some st =>
      match fillTime loopFuel st with
      | None => None
      | Some st' => Some (finish st')
      end
  end.

End Run.

(** What a call of [generateCourse] does.  [OutOfFuel] stands for a loop
    that needs more turns than [loopFuel]; no call ends that way
    ([generateCourse_outcome]). *)
Inductive Outcome :=
  | ReturnsNull
  | ReturnsCourse (course : GeneratedCourse.t)
  | Throws (error : JsError)
  | OutOfFuel.

Definition generateCourse (allPlaces : list Place.t) (options : Options.t) : Outcome :=
  match Options.startLocation options with
  | None => ReturnsNull
  | Some startLocation =>
      match convertToUserVector (Options.userPreferences options) with
      | Throw e => Throws e
      | Normal userVector =>
          match buildCourse allPlaces options startLocation userVector with
          | Some course => ReturnsCourse course
          | None => OutOfFuel
          end
      end
  end.

End Builder.

(** * courseGenerator.ts: the score

    [calculatePlaceScore] and its terms, in real arithmetic: the builder
    above takes the score as a parameter, and this is the function the
    source passes for it. *)

Module Scoring.

Definition KEYWORD_BONUS : list string :=
  ["steak"; "pasta"; "sushi"; "dining"; "lounge"; "bakery"]%string.
Definition CHAIN_PENALTY : list string :=
  ["bhc"; "bbq"; "lotteria"; "mcdonald"; "burger king"; "gukbap"]%string.

(** [isIndoor(place)]: [Place] declares [isIndoor] as a boolean that is
    always there, so the flag is returned and the guess from the type, for
    an undefined flag, is not reached. *)
Definition isIndoor (place : Place.t) : bool := Place.isIndoor place.

Definition calculateWeatherPenalty (isRainy : bool) (temperature : Q) (isOutdoor : bool)
  : Q :=
  let penalty := 0 in
  let penalty :=
    if isRainy then penalty + (if isOutdoor then -200 else 30) else penalty in
  let penalty :=
    if Qltb 30 temperature || Qltb temperature 0
    then penalty + (if isOutdoor then -50 else 0) else penalty in
  penalty.

Definition calculateDistancePenalty (distanceKm : Q) (transport : Transport) : R :=
  match transport with
  | foot =>
      if Qltb (3#2) distanceKm then (-200)%R
      else (- Rmax 0 ((exp (Q2R distanceKm / 5) - 1) * 30))%R
  | car => (- Rmax 0 ((exp (Q2R distanceKm / 10) - 1) * 20))%R
  end.

Definition calculateCompanionBonus (place : Place.t) (companion : Companion) : Q :=
  let nameLower := toLowerCase (Place.name place) in
  let placeType := Place.type place in
  let isType := PlaceType_eqb placeType in
  let has := includes nameLower in
  let bonus := 0 in
  match companion with
  | partner =>
      let bonus :=
        if isType restaurant || isType cafe || isType bar then bonus + 30 else bonus in
      let bonus :=
        if has "romantic" || has "date" || has "couple" then bonus + 40 else bonus in
      let bonus :=
        if has "family" || has "kids" || has "playground" then bonus - 50 else bonus in
      bonus
  | family =>
      let bonus := if Place.isIndoor place then bonus + 20 else bonus in
      let bonus :=
        if isType activity || isType landmark || isType shopping
        then bonus + 25 else bonus in
      let bonus := if isType bar then bonus - 100 else bonus in
      let bonus :=
        if has "bar" || has "pub" || has "club" then bonus - 80 else bonus in
      bonus
  | friend =>
      if isType cafe || isType activity || isType shopping then bonus + 20 else bonus
  | solo =>
      if isType cafe || isType culture || isType landmark then bonus + 15 else bonus
  end.

Definition calculateKeywordScore (place : Place.t) : Q :=
  let nameLower := toLowerCase (Place.name place) in
  let score := 0 in
  let score :=
    if existsb (fun kw => includes nameLower kw) KEYWORD_BONUS
    then score + 20 else score in
  let score :=
    if existsb (fun kw => includes nameLower kw) CHAIN_PENALTY
    then score - 100 else score in
  score.

Definition calculatePlaceScore (place : Place.t) (context : ScoreContext.t) : R :=
  (* Step A: feature vectorization *)
  let placeVector := placeToFeatureVector place in
  (* Step B: cosine similarity, scaled to 0-100 *)
  let similarityScore := cosineSimilarity (ScoreContext.userVector context) placeVector in
  let baseScore := (similarityScore * 100)%R in
  (* Step C: diversity penalty *)
  let diversityMultiplier :=
    calculateDiversityPenalty place (ScoreContext.selectedPlaces context) in
  let baseScore := (baseScore * Q2R diversityMultiplier)%R in
  (* Step D: weather *)
  let outdoor := negb (isIndoor place) in
  let weatherPenalty :=
    calculateWeatherPenalty (ScoreContext.isRainy context)
                            (ScoreContext.temperature context) outdoor in
  let baseScore := (baseScore + Q2R weatherPenalty)%R in
  (* Additional factors *)
  let baseScore := (baseScore + Q2R (calculateKeywordScore place))%R in
  let baseScore :=
    (baseScore +
     calculateDistancePenalty (orZero (ScoreContext.distanceKm context))
                              (default foot (ScoreContext.transport context)))%R in
  match ScoreContext.companion context with
  | Some companion => (baseScore + Q2R (calculateCompanionBonus place companion))%R
  | None => baseScore
  end.

End Scoring.

(** ** courseGenerator.ts: the step plan *)

(** [buildSteps].  [intensity === 'relaxed'] is false for an absent
    intensity; every [steps.push] is an append. *)
Definition buildSteps (mealWindows : option MealWindows) (duration : option Q)
    (intensity : option Intensity) : list StepDefinition :=
  let lunchWindow := lunchOf mealWindows in
  let dinnerWindow := dinnerOf mealWindows in
  let totalHours := default 6 duration in
  let isRelaxed := match intensity with Some relaxed => true | _ => false end in
  let steps :=
    [{| label := "Warm-up";
        preferredTypes := [activity; cafe; culture; shopping];
        fallbackTypes := None; stepMealType := None; window := None |}] in
  let steps :=
    if Qle_bool 4 totalHours
    then steps ++ [{| label := "Lunch"; preferredTypes := [restaurant];
                      fallbackTypes := None; stepMealType := Some mealLunch;
                      window := Some lunchWindow |}]
    else steps in
  let steps :=
    if isRelaxed
    then steps ++ [{| label := "Afternoon";
                      preferredTypes := [activity; culture; landmark; shopping];
                      fallbackTypes := Some [cafe]; stepMealType := None;
                      window := None |}]
    else
      let steps :=
        steps ++ [{| label := "Afternoon Activity";
                     preferredTypes := [activity; culture; landmark];
                     fallbackTypes := Some [shopping; cafe]; stepMealType := None;
                     window := None |}] in
      if Qle_bool 6 totalHours
      then steps ++ [{| label := "Afternoon Shopping";
                        preferredTypes := [shopping; culture];
                        fallbackTypes := Some [cafe]; stepMealType := None;
                        window := None |}]
      else steps in
  let steps :=
    if Qle_bool 5 totalHours
    then steps ++ [{| label := "Cafe Break"; preferredTypes := [cafe; bakery];
                      fallbackTypes := None; stepMealType := Some mealCafe;
                      window := None |}]
    else steps in
  let steps :=
    if Qle_bool 6 totalHours
    then steps ++ [{| label := "Dinner"; preferredTypes := [restaurant];
                      fallbackTypes := None; stepMealType := Some mealDinner;
                      window := Some dinnerWindow |}]
    else steps in
  let steps :=
    if Qle_bool 7 totalHours
    then steps ++ [{| label := "Evening";
                      preferredTypes := [activity; culture; landmark];
                      fallbackTypes := Some [cafe]; stepMealType := None;
                      window := None |}]
    else steps in
  steps.

(** ** UserPreferenceModel.ts: the legacy weights *)

(** The strings of the union types [PlaceType] and [mealType]. *)
Definition typeName (t : PlaceType) : string :=
  match t with
  | landmark => "landmark" | cafe => "cafe" | restaurant => "restaurant"
  | shopping => "shopping" | activity => "activity" | bakery => "bakery"
  | bar => "bar" | culture => "culture"
  end.

Definition mealTypeName (m : MealType) : string :=
  match m with mealLunch => "lunch" | mealDinner => "dinner" | mealCafe => "cafe" end.

Definition upperAscii (c : ascii) : ascii :=
  let n := nat_of_ascii c in
  if (97 <=? n)%nat && (n <=? 122)%nat then ascii_of_nat (n - 32) else c.

(** [s.charAt(0).toUpperCase() + s.slice(1)] *)
Definition capitalize (s : string) : string :=
  match s with
  | EmptyString => EmptyString
  | String c rest => String (upperAscii c) rest
  end.

(** [tags.add(t)] on a [Set], which keeps the order of first insertion. *)
Definition addTag (tags : list string) (t : string) : list string :=
  if bool_decide (t ∈ tags) then tags else tags ++ [t].

(** [extractTagsFromPlace(place)].  [themes] is [place.themes || []]: the
    record [Place.t] above leaves the themes out, so they are passed next
    to the place. *)
Definition extractTagsFromPlace (themes : list string) (place : Place.t) : list string :=
  let tags := fold_left addTag themes [] in
  let tags := addTag tags (capitalize (typeName (Place.type place))) in
  let tags :=
    match Place.mealType place with
    | Some m => addTag tags (capitalize (mealTypeName m))
    | None => tags
    end in
  addTag tags (if Place.isIndoor place then "Indoor" else "Outdoor").

(** [updatePreference(place, action, current)], the legacy update that
    App.tsx calls on a like and on a dislike. *)
Definition updatePreference (themes : list string) (place : Place.t) (action : Action)
    (current : Preferences) : Preferences :=
  let delta := actionDelta action in
  let tags := extractTagsFromPlace themes place in
  fold_left
    (fun next tag =>
       let prev := default 1 (next !! tag) in
       <[tag := Qmax (1#10) (toFixed3 (prev + delta))]> next)
    tags current.

(** * Vocabulary of the statements *)

(** The three values a dimension of a feature vector can take. *)
Definition featureValue (x : Q) : Prop := x = (1#2) \/ x = (4#5) \/ x = 1.

Definition unitInterval (x : Q) : Prop := 0 <= x /\ x <= 1.

(** A user-specified anchor: a must-visit place or the end venue. *)
Definition isAnchor (options : Options.t) (p : Place.t) : Prop :=
  In p (mustVisitPlaces options) \/ Options.endLocation options = Some p.

(** One hop of a course on foot: at most 1.5 km, unless it leads to an
    anchor. *)
Definition hopOk (haversineDistance : Q -> Q -> Q -> Q -> Q) (options : Options.t)
    (a b : CourseStep.t) : Prop :=
  transport options = foot ->
  distanceBetween haversineDistance (CourseStep.place a) (CourseStep.place b) <= (3#2) \/
  isAnchor options (CourseStep.place b).

Fixpoint hopsOk (haversineDistance : Q -> Q -> Q -> Q -> Q) (options : Options.t)
    (steps : list CourseStep.t) : Prop :=
  match steps with
  | a :: rest =>
      match rest with
      | b :: _ => hopOk haversineDistance options a b
      | [] => True
      end /\ hopsOk haversineDistance options rest
  | [] => True
  end.

(** The places of the pool that a search can still return. *)
Definition unvisitedCount (allPlaces : list Place.t) (visited : gset string) : nat :=
  length (List.filter (fun p => negb (bool_decide (Place.id p ∈ visited))) allPlaces).

(** [{ ...options, lockedSteps }] *)
Definition withLockedSteps (options : Options.t) (locked : option (gmap nat Place.t))
  : Options.t :=
  Options.mk (Options.startLocation options) (Options.userPreferences options)
    (Options.weather options) (Options.startTime options)
    (Options.endLocation options) (Options.endTime options)
    (Options.mustVisitPlaces options) locked (Options.mealWindows options)
    (Options.companion options) (Options.transport options)
    (Options.intensity options) (Options.duration options).

(** The user vector after a history of feedback, oldest first, starting
    from [INITIAL_USER_VECTOR]: [updateUserVector] is the only function that
    produces a new user vector. *)
Definition applyFeedback (history : list (Place.t * Action)) : UserVector :=
  fold_left (fun vector '(place, action) => updateUserVector place action vector)
            history INITIAL_USER_VECTOR.

(** A number with at most three decimals. *)
Definition threeDecimals (x : Q) : Prop := exists k : Z, x == (k # 1000).

(** The text that [placeToFeatureVector] searches, and whether it contains
    a keyword. *)
Definition combinedText (place : Place.t) : string :=
  (toLowerCase (Place.name place) +:+ " " +:+ toLowerCase (Place.description place))%string.

Definition mentions (place : Place.t) (keyword : string) : bool :=
  includes (combinedText place) keyword.

(** [{ ...context, selectedPlaces }] *)
Definition withSelectedPlaces (context : ScoreContext.t) (selectedPlaces : list Place.t)
  : ScoreContext.t :=
  ScoreContext.mk (ScoreContext.userVector context) (ScoreContext.isRainy context)
    (ScoreContext.temperature context) (ScoreContext.distanceKm context)
    selectedPlaces (ScoreContext.companion context) (ScoreContext.transport context).

(** The filter of [findPlaceForTime] on one place of the pool. *)
Definition eligibleForTime (visited : gset string) (preferredTypes : list PlaceType)
    (mealType : option MealType) (isMeal : bool) (p : Place.t) : bool :=
  negb (bool_decide (Place.id p ∈ visited)) &&
  (if isMeal
   then includesType preferredTypes (Place.type p) &&
        mealTypeAgrees mealType (Place.mealType p)
   else includesType preferredTypes (Place.type p) &&
        negb (PlaceType_eqb (Place.type p) restaurant)).

(** The checks of the loop of [findPlaceForTime] on one candidate: the
    distance, the start and the end of the stay of a candidate that passes
    them. *)
Definition stayAt (localOffsetMs : Z) (haversineDistance : Q -> Q -> Q -> Q -> Q)
    (currentTime : Z) (from : Place.t) (transport : Transport) (baseDuration : Q)
    (maxEndTime : option Z) (window : option Window) (place : Place.t)
  : option (Q * Z * Z) :=
  let distanceKm := distanceBetween haversineDistance from place in
  if isFoot (Some transport) && Qltb (3#2) distanceKm then None
  else
    let arriveAt := addMinutes currentTime (travelMinutes distanceKm (Some transport)) in
    match match window with
          | Some w => startOfWindow localOffsetMs arriveAt w
          | None => Some arriveAt
          end
    with
    | None => None
    | Some startAt =>
        let endAt :=
          addMinutes startAt (orElse (Place.estimatedDuration place) baseDuration) in
        if exceeds maxEndTime endAt then None else Some (distanceKm, startAt, endAt)
    end.

(** The length of a path through a list of places. *)
Fixpoint pathLength (haversineDistance : Q -> Q -> Q -> Q -> Q) (places : list Place.t)
  : Q :=
  match places with
  | a :: rest =>
      match rest with
      | b :: _ => distanceBetween haversineDistance a b
      | [] => 0
      end + pathLength haversineDistance rest
  | [] => 0
  end.

(** [{ ...options, userPreferences }] *)
Definition withUserPreferences (options : Options.t) (userPreferences : Preferences)
  : Options.t :=
  Options.mk (Options.startLocation options) userPreferences
    (Options.weather options) (Options.startTime options)
    (Options.endLocation options) (Options.endTime options)
    (Options.mustVisitPlaces options) (Options.lockedSteps options)
    (Options.mealWindows options) (Options.companion options)
    (Options.transport options) (Options.intensity options)
    (Options.duration options).

(** ** The similarity and the diversity multiplier in binary64 *)

(** The numbers of the scoring functions are IEEE 754 doubles.  The sums,
    the square roots and the quotient of [cosineSimilarity] and the power
    of [calculateDiversityPenalty] are rounded, and the definitions of this
    module compute them as the program does, on the binary64 numbers of
    Rocq: [+], [*], [/] and [Math.sqrt] round to the nearest double, ties
    to even. *)
Module Binary64.

Definition ofZ (z : Z) : float :=
  match z with
  | Z0 => 0%float
  | Zpos _ => PrimFloat.of_uint63 (Uint63.of_Z z)
  | Zneg p => PrimFloat.opp (PrimFloat.of_uint63 (Uint63.of_Z (Zpos p)))
  end.

(** The double that a decimal literal or [parseFloat] gives for a rational
    with a small numerator and denominator: the nearest one. *)
Definition ofQ (q : Q) : float := PrimFloat.div (ofZ (Qnum q)) (ofZ (Zpos (Qden q))).

Definition Vector := VectorDimension -> float.

Definition ofVector (vector : UserVector) : Vector := fun dim => ofQ (vector dim).

(** [x || 0] on a number: 0 and NaN are falsy. *)
Definition orZero (x : float) : float :=
  if PrimFloat.eqb x 0 then 0%float
  else if PrimFloat.is_nan x then 0%float
  else x.

Definition cosineSums (vecA vecB : Vector) : float * float * float :=
  fold_left
    (fun '(dotProduct, normA, normB) dim =>
       let a := orZero (vecA dim) in
       let b := orZero (vecB dim) in
       (dotProduct + a * b, normA + a * a, normB + b * b)%float)
    VECTOR_DIMENSIONS (0, 0, 0)%float.

Definition cosineSimilarity (vecA vecB : Vector) : float :=
  let '(dotProduct, normA, normB) := cosineSums vecA vecB in
  let denominator := (PrimFloat.sqrt normA * PrimFloat.sqrt normB)%float in
  if PrimFloat.eqb denominator 0 then 0%float else (dotProduct / denominator)%float.


(** 0.6 *)
Definition sixTenths : float := ofQ (6 # 10).

Section Scoring.

(** [Math.pow] at a whole exponent. *)
Variable Math_pow : float -> nat -> float.

Definition calculateDiversityPenalty (place : Place.t) (selectedPlaces : list Place.t)
  : float :=
  if (length selectedPlaces =? 0)%nat then 1%float
  else
    let typeCount :=
      length (List.filter (fun p => PlaceType_eqb (Place.type p) (Place.type place))
                          selectedPlaces) in
    Math_pow sixTenths typeCount.


End Scoring.

End Binary64.

(** ** Vocabulary of the statements on the similarity *)


(** The vector of a place, by the keywords and the type that set it. *)
Definition featureOfFlags (meat seafood noodle rice bread quiet active indoor park
    luxury dining : bool) : UserVector :=
  fun dim =>
    match dim with
    | Meat => if meat then 1 else 1#2
    | Seafood => if seafood then 1 else 1#2
    | Noodle => if noodle then 1 else 1#2
    | Rice => if rice then 1 else 1#2
    | Bread => if bread then 1 else 1#2
    | Quiet => if quiet then 1 else 1#2
    | Active => if active then 1 else 1#2
    | Indoor => if indoor then 1 else 1#2
    | Nature => if park then 4#5 else if indoor then 1#2 else 1
    | Luxury => if luxury then 1 else if dining then 4#5 else 1#2
    end.

(** The numbers that a dimension of the user vector holds after feedback. *)
Definition feedbackValues : list Q :=
  [1#2; 0; 1; 100#1000; 200#1000; 300#1000; 400#1000; 500#1000; 600#1000; 700#1000;
   800#1000; 900#1000].

Definition forBoth (check : bool -> bool) : bool := check true && check false.

Definition forAllFlags (check : UserVector -> bool) : bool :=
  forBoth (fun meat => forBoth (fun seafood => forBoth (fun noodle =>
  forBoth (fun rice => forBoth (fun bread => forBoth (fun quiet =>
  forBoth (fun active => forBoth (fun indoor => forBoth (fun park =>
  forBoth (fun luxury => forBoth (fun dining =>
    check (featureOfFlags meat seafood noodle rice bread quiet active indoor park
                          luxury dining)))))))))))).

(** A check of the similarity of every user vector that feedback gives with
    the vector of every place, next to the similarity of the initial user
    vector with that place. *)
Definition forAllSimilarities (check : Q -> float -> float -> bool) : bool :=
  forallb
    (fun x =>
       forAllFlags
         (fun placeVector =>
            check x
              (Binary64.cosineSimilarity (Binary64.ofVector INITIAL_USER_VECTOR)
                                         (Binary64.ofVector placeVector))
              (Binary64.cosineSimilarity (Binary64.ofVector (fun _ => x))
                                         (Binary64.ofVector placeVector))))
    feedbackValues.

Definition inUnitInterval (x : float) : bool := PrimFloat.leb 0 x && PrimFloat.leb x 1.

(** 2^-51, two units in the last place of the numbers just below 1 *)
Definition roundingError : float := 0x1p-51%float.

(** * The builder over JavaScript's numbers and dates

    The builder above computes with exact rationals and with dates that
    are plain integers at one constant offset from UTC.  Three things that
    the code can meet are outside of that: [haversineDistance] returns NaN
    for two points that are nearly antipodal (the rounding takes the [a] of
    the haversine formula above 1, and [Math.sqrt(1 - a)] is NaN), a [Date]
    is an Invalid Date when its time value is NaN or outside of +-8.64e15
    ms, and local time is the time of the host's time zone, whose offset
    can change.  [Module Js] is the same code with all three: a [number] is
    a rational or NaN, a [Date] is a time value in range or the Invalid
    Date, and local time goes through [LocalTZA], as in the language
    specification.  NaN makes every comparison false, so a NaN distance
    passes [distanceKm > 1.5] and an Invalid Date passes
    [endAt > maxEndTime].

    The arithmetic on the rationals is exact: the rounding of the doubles
    is not part of this module.  What is stated of the builder below rests
    on the comparisons that the code makes, on whole numbers of
    milliseconds and of minutes, and on the order of the sums, which the
    rounding keeps. *)

Module Js.

(** A number that is not an infinity: a rational or NaN.  No operation of
    the builder divides by zero, and the coordinates, durations and times
    that it is given are finite. *)
Inductive number :=
  | Num (q : Q)
  | NaN.

Definition lift2 (f : Q -> Q -> Q) (a b : number) : number :=
  match a, b with
  | Num x, Num y => Num (f x y)
  | _, _ => NaN
  end.

Definition add : number -> number -> number := lift2 Qplus.
Definition sub : number -> number -> number := lift2 Qminus.
Definition mul : number -> number -> number := lift2 Qmult.
(** [Math.min(a, b)] *)
Definition min : number -> number -> number := lift2 Qmin.

(** [a > b], [a < b], [a >= b], [a <= b]: false when an operand is NaN. *)
Definition gtb (a b : number) : bool :=
  match a, b with
  | Num x, Num y => Qltb y x
  | _, _ => false
  end.
Definition ltb (a b : number) : bool := gtb b a.
Definition geb (a b : number) : bool :=
  match a, b with
  | Num x, Num y => Qle_bool y x
  | _, _ => false
  end.
Definition leb (a b : number) : bool := geb b a.

(** [Math.round(x)] *)
Definition round (x : number) : number :=
  match x with
  | Num q => Num (inject_Z (mathRound q))
  | NaN => NaN
  end.

Definition travelMinutes (distanceKm : number) (transport : option Transport) : number :=
  match transport with
  | Some car =>
      let drivingTime := mul distanceKm (Num 3) in
      let parkingTime := Num 10 in
      add (min (Num 60) drivingTime) parkingTime
  | _ => min (Num 90) (mul distanceKm (Num 12))
  end.

(** ** Dates *)

(** A [Date]: its time value, a whole number of milliseconds within
    +-8.64e15, or the Invalid Date, whose time value is NaN. *)
Inductive Date :=
  | Time (t : Z)
  | InvalidDate.

Definition maxTimeValue : Z := 8640000000000000.

(** [TimeClip(time)], which [new Date(value)] applies to a number. *)
Definition TimeClip (time : number) : Date :=
  match time with
  | Num q =>
      if Qltb (inject_Z maxTimeValue) (Qabs q) then InvalidDate else Time (truncQ q)
  | NaN => InvalidDate
  end.

(** [date.getTime()], also what a comparison of two dates compares. *)
Definition getTime (date : Date) : number :=
  match date with
  | Time t => Num (inject_Z t)
  | InvalidDate => NaN
  end.

(** The [startTime] and [endTime] of the options are time values; one
    outside of the range of [Date] stands for an Invalid Date. *)
Definition dateOf (timeValue : Z) : Date := TimeClip (Num (inject_Z timeValue)).

(** [new Date(date.getTime() + minutes * 60000)] *)
Definition addMinutes (date : Date) (minutes : number) : Date :=
  TimeClip (add (getTime date) (mul minutes (Num 60000))).

(** [a > b] and the like on two dates. *)
Definition after (a b : Date) : bool := gtb (getTime a) (getTime b).
Definition notBefore (a b : Date) : bool := geb (getTime a) (getTime b).
Definition notAfter (a b : Date) : bool := leb (getTime a) (getTime b).
Definition before (a b : Date) : bool := ltb (getTime a) (getTime b).

Module CourseStep.
Record t := mk {
  place : Place.t;
  startTime : Date;
  endTime : Date;
  travelTime : number
}.
End CourseStep.

Module GeneratedCourse.
Record t := mk {
  sequence : list Place.t;
  steps : list CourseStep.t;
  totalDistance : number;
  estimatedDuration : number
}.
End GeneratedCourse.

Module ScoreContext.
Record t := mk {
  userVector : UserVector;
  isRainy : bool;
  temperature : Q;
  distanceKm : number;
  selectedPlaces : list Place.t;
  companion : option Companion;
  transport : option Transport
}.
End ScoreContext.

Module Candidate.
Record t := mk {
  place : Place.t;
  distanceKm : number;
  startAt : Date;
  endAt : Date;
  score : number
}.
End Candidate.

Module Found.
Record t := mk {
  place : Place.t;
  distanceKm : number;
  startAt : Date;
  endAt : Date;
  isMeal : bool
}.
End Found.

Module Nearest.
Record t := mk {
  place : Place.t;
  distanceKm : number
}.
End Nearest.

(** [if (!best || score > best.score) best = candidate] *)
Definition keepBest (best : option Candidate.t) (c : Candidate.t) : option Candidate.t :=
  match best with
  | None => Some c
  | Some b => if gtb (Candidate.score c) (Candidate.score b) then Some c else best
  end.

Section Builder.

(** [LocalTZA(t, isUTC)] of the language specification: the offset of local
    time from UTC in milliseconds, at the UTC time [t] when [isUTC] is true
    and at the local time [t] otherwise. *)
Variable LocalTZA : Z -> bool -> Z.
(** [haversineDistance]: a number of kilometres or NaN. *)
Variable haversineDistance : Q -> Q -> Q -> Q -> number.
Variable calculatePlaceScore : Place.t -> ScoreContext.t -> number.

Definition LocalTime (t : Z) : Z := (t + LocalTZA t true)%Z.
Definition UTC (t : Z) : Z := (t - LocalTZA t false)%Z.

(** [date.getHours() * 60 + date.getMinutes()]; [None] is NaN, the minutes
    of an Invalid Date. *)
Definition minutesSinceMidnight (date : Date) : option Z :=
  match date with
  | Time t =>
      let local := LocalTime t in
      Some (((local / msPerHour) mod 24) * 60 + (local / msPerMinute) mod 60)%Z
  | InvalidDate => None
  end.

(** [date.setHours(hours, minutes, 0, 0)]:
    [TimeClip(UTC(MakeDate(Day(LocalTime(t)), MakeTime(hours, minutes, 0, 0))))];
    an Invalid Date stays one. *)
Definition setHours (date : Date) (hours minutes : Z) : Date :=
  match date with
  | Time t =>
      let day := (LocalTime t / msPerDay)%Z in
      let local := (day * msPerDay + (hours * msPerHour + minutes * msPerMinute))%Z in
      TimeClip (Num (inject_Z (UTC local)))
  | InvalidDate => InvalidDate
  end.

(** The window check of [findPlaceForTime]: [None] for [continue].  With
    an Invalid Date for the arrival, [arriveMinutes] is NaN, the test
    [arriveMinutes > window.endMinutes] is false, and [setHours] is called
    with NaN on an Invalid Date. *)
Definition startOfWindow (arriveAt : Date) (w : Window) : option Date :=
  match minutesSinceMidnight arriveAt with
  | Some arriveMinutes =>
      if (arriveMinutes >? endMinutes w)%Z then None
      else
        let startMinutes' := Z.max arriveMinutes (startMinutes w) in
        Some (setHours arriveAt (startMinutes' / 60)%Z (Z.rem startMinutes' 60))
  | None => Some InvalidDate
  end.

Definition distanceBetween (a b : Place.t) : number :=
  haversineDistance (Place.lat a) (Place.lng a) (Place.lat b) (Place.lng b).

(** The step that the time of day asks for; with NaN for the minutes every
    comparison is false. *)
Definition stepForTime (currentMinutes : option Z) (lunchWindow dinnerWindow : Window)
    (hasHadLunch hasHadDinner : bool)
  : list PlaceType * option MealType * option Window * bool :=
  match currentMinutes with
  | Some minutes =>
      stepForTime minutes lunchWindow dinnerWindow hasHadLunch hasHadDinner
  | None => ([activity; cafe; culture; shopping], None, None, false)
  end.

(** [maxEndTime && endAt > maxEndTime] *)
Definition exceeds (maxEndTime : option Date) (endAt : Date) : bool :=
  match maxEndTime with
  | Some m => after endAt m
  | None => false
  end.

Definition findPlaceForTime (currentTime : Date) (from : Place.t)
    (allPlaces : list Place.t) (visited : gset string)
    (mealWindows : option MealWindows) (transport : Transport) (baseDuration : Q)
    (maxEndTime : option Date) (hasHadLunch hasHadDinner : bool)
    (userVector : UserVector) (selectedPlaces : list Place.t)
    (companion : option Companion) (isRainy : option bool) (temperature : option Q)
  : option Found.t :=
  let currentMinutes := minutesSinceMidnight currentTime in
  let lunchWindow := lunchOf mealWindows in
  let dinnerWindow := dinnerOf mealWindows in
  let '(preferredTypes, mealType, window, isMeal) :=
    stepForTime currentMinutes lunchWindow dinnerWindow hasHadLunch hasHadDinner in
  let candidates :=
    List.filter (eligibleForTime visited preferredTypes mealType isMeal) allPlaces in
  if (length candidates =? 0)%nat then None
  else
    let best :=
      fold_left
        (fun best place =>
           let distanceKm := distanceBetween from place in
           if isFoot (Some transport) && gtb distanceKm (Num (3#2)) then best
           else
             let travelTime := travelMinutes distanceKm (Some transport) in
             let arriveAt := addMinutes currentTime travelTime in
             match match window with
                   | Some w => startOfWindow arriveAt w
                   | None => Some arriveAt
                   end
             with
             | None => best
             | Some startAt =>
                 let endAt :=
                   addMinutes startAt
                     (Num (orElse (Place.estimatedDuration place) baseDuration)) in
                 if exceeds maxEndTime endAt then best
                 else
                   let score :=
                     calculatePlaceScore place
                       (ScoreContext.mk userVector (default false isRainy)
                          (default 20 temperature) distanceKm selectedPlaces
                          companion (Some transport)) in
                   keepBest best (Candidate.mk place distanceKm startAt endAt score)
             end)
        candidates None in
    match best with
    | None => None
    | Some b =>
        Some (Found.mk (Candidate.place b) (Candidate.distanceKm b)
                       (Candidate.startAt b) (Candidate.endAt b) isMeal)
    end.

(** [findNearestPlace(from, candidates, visited, transport)] of
    courseGenerator.ts. *)
Definition findNearestPlace (from : Place.t) (candidates : list Place.t)
    (visited : gset string) (transport : Transport) : option Nearest.t :=
  fold_left
    (fun nearest place =>
       if bool_decide (Place.id place ∈ visited) then nearest
       else
         let distanceKm := distanceBetween from place in
         if isFoot (Some transport) && gtb distanceKm (Num (3#2)) then nearest
         else
           match nearest with
           | None => Some (Nearest.mk place distanceKm)
           | Some n =>
               if ltb distanceKm (Nearest.distanceKm n)
               then Some (Nearest.mk place distanceKm)
               else nearest
           end)
    candidates None.

(** What [findNearestPlace] keeps of a candidate: its distance, when it is
    unvisited and passes the test of the transport. *)
Definition reachable (from : Place.t) (visited : gset string) (transport : Transport)
    (place : Place.t) : option number :=
  if bool_decide (Place.id place ∈ visited) then None
  else
    let distanceKm := distanceBetween from place in
    if isFoot (Some transport) && gtb distanceKm (Num (3#2)) then None
    else Some distanceKm.

(** The local variables of [generateCourse] that its loops assign. *)
Record BuilderState := {
  sequence : list Place.t;
  courseSteps : list CourseStep.t;
  visited : gset string;
  selectedPlaces : list Place.t;
  totalDistance : number;
  currentPlace : Place.t;
  currentTime : Date;
  hasHadLunch : bool;
  hasHadDinner : bool
}.

Section Run.

Variable allPlaces : list Place.t.
Variable options : Options.t.
Variable startLocation : Place.t.
Variable userVector : UserVector.

(** [new Date(startTime)] *)
Definition startTime : Date := dateOf (Options.startTime options).

Definition initialState : BuilderState :=
  {| sequence := [startLocation];
     courseSteps := [CourseStep.mk startLocation startTime startTime (Num 0)];
     visited := {[ Place.id startLocation ]};
     selectedPlaces := [startLocation];
     totalDistance := Num 0;
     currentPlace := startLocation;
     currentTime := startTime;
     hasHadLunch := false;
     hasHadDinner := false |}.

Definition durationEndTime : Date := addMinutes startTime (Num (duration options * 60)).

(** [endTime ? new Date(Math.min(endTime.getTime(), durationEndTime.getTime()))
            : durationEndTime] *)
Definition maxEndTime : Date :=
  match Options.endTime options with
  | Some endTime => TimeClip (min (getTime (dateOf endTime)) (getTime durationEndTime))
  | None => durationEndTime
  end.

(** The three places where the end venue is appended with a stay of length
    zero; the first two also add its id to [visited]. *)
Definition appendEndLocation (markVisited : bool) (st : BuilderState) : BuilderState :=
  match targetEndLocation options with
  | Some e =>
      if bool_decide (Place.id e ∈ visited st) then st
      else
        let distanceToEnd := distanceBetween (currentPlace st) e in
        let travelTime := travelMinutes distanceToEnd (Some (transport options)) in
        let arriveAt := addMinutes (currentTime st) travelTime in
        if notAfter arriveAt maxEndTime
        then {| sequence := sequence st ++ [e];
                courseSteps := courseSteps st ++ [CourseStep.mk e arriveAt arriveAt travelTime];
                visited := if markVisited then visited st ∪ {[ Place.id e ]} else visited st;
                selectedPlaces := selectedPlaces st;
                totalDistance := add (totalDistance st) distanceToEnd;
                currentPlace := currentPlace st;
                currentTime := currentTime st;
                hasHadLunch := hasHadLunch st;
                hasHadDinner := hasHadDinner st |}
        else st
  | None => st
  end.

Definition inWindowAt (minutes : option Z) (w : Window) : bool :=
  match minutes with
  | Some m => inWindow m w
  | None => false
  end.

Definition anchorMealFlags (anchor : Place.t) (arriveAt : Date) (st : BuilderState)
  : bool * bool :=
  let currentMinutes := minutesSinceMidnight arriveAt in
  let lunchWindow := lunchOf (mealWindows options) in
  let dinnerWindow := dinnerOf (mealWindows options) in
  if PlaceType_eqb (Place.type anchor) restaurant
  then
    if negb (hasHadLunch st) && inWindowAt currentMinutes lunchWindow
    then (true, hasHadDinner st)
    else if negb (hasHadDinner st) && inWindowAt currentMinutes dinnerWindow
    then (hasHadLunch st, true)
    else (hasHadLunch st, hasHadDinner st)
  else (hasHadLunch st, hasHadDinner st).

(** The hop straight to the anchor: as the last resort when no
    intermediate stop is found ([track = false]) and when the anchor is in
    reach ([track = true]).  Both leave the state as it is when the stay
    would end after [maxEndTime], and both are followed by [break]. *)
Definition connectAnchor (track : bool) (anchor : Place.t) (distanceToAnchor : number)
    (st : BuilderState) : BuilderState :=
  let travelTime := travelMinutes distanceToAnchor (Some (transport options)) in
  let arriveAt := addMinutes (currentTime st) travelTime in
  let endAt :=
    addMinutes arriveAt
      (Num (orElse (Place.estimatedDuration anchor) (baseDuration options))) in
  if after endAt maxEndTime then st
  else
    let flags := anchorMealFlags anchor arriveAt st in
    {| sequence := sequence st ++ [anchor];
       courseSteps := courseSteps st ++ [CourseStep.mk anchor arriveAt endAt travelTime];
       visited := visited st ∪ {[ Place.id anchor ]};
       selectedPlaces := if track then selectedPlaces st ++ [anchor] else selectedPlaces st;
       totalDistance := add (totalDistance st) distanceToAnchor;
       currentPlace := anchor;
       currentTime := endAt;
       hasHadLunch := fst flags;
       hasHadDinner := snd flags |}.

Definition pushFound (found : Found.t) (st : BuilderState) : BuilderState :=
  let p := Found.place found in
  {| sequence := sequence st ++ [p];
     courseSteps :=
       courseSteps st ++
       [CourseStep.mk p (Found.startAt found) (Found.endAt found)
                      (travelMinutes (Found.distanceKm found) (Some (transport options)))];
     visited := visited st ∪ {[ Place.id p ]};
     selectedPlaces := selectedPlaces st ++ [p];
     totalDistance := add (totalDistance st) (Found.distanceKm found);
     currentPlace := p;
     currentTime := Found.endAt found;
     hasHadLunch :=
       if Found.isMeal found
       then match Place.mealType p with Some mealLunch => true | _ => hasHadLunch st end
       else hasHadLunch st;
     hasHadDinner :=
       if Found.isMeal found
       then match Place.mealType p with
            | Some mealLunch => hasHadDinner st
            | Some mealDinner => true
            | _ => hasHadDinner st
            end
       else hasHadDinner st |}.

Definition searchFrom (st : BuilderState) : option Found.t :=
  findPlaceForTime (currentTime st) (currentPlace st) allPlaces (visited st)
    (mealWindows options) (transport options) (baseDuration options) (Some maxEndTime)
    (hasHadLunch st) (hasHadDinner st) userVector (selectedPlaces st)
    (Some (companion options)) (Some (isRainy (weather options)))
    (Some (temp (weather options))).

(** [while (currentPlace.id !== anchor.id) { ... }] *)
Fixpoint routeToAnchor (fuel : nat) (anchor : Place.t) (st : BuilderState)
  : option BuilderState :=
  match fuel with
  | O => None
  | S fuel' =>
      if String.eqb (Place.id (currentPlace st)) (Place.id anchor) then Some st
      else
        let distanceToAnchor := distanceBetween (currentPlace st) anchor in
        if isFoot (Some (transport options)) && gtb distanceToAnchor (Num (3#2))
        then
          match searchFrom st with
          | None => Some (connectAnchor false anchor distanceToAnchor st)
          | Some intermediate =>
              let st' := pushFound intermediate st in
              if notBefore (currentTime st') maxEndTime then Some st'
              else routeToAnchor fuel' anchor st'
          end
        else Some (connectAnchor true anchor distanceToAnchor st)
  end.

(** [for (const anchor of anchorsToVisit) { ... }] *)
Fixpoint routeAnchors (fuel : nat) (anchors : list Place.t) (st : BuilderState)
  : option BuilderState :=
  match anchors with
  | [] => Some st
  | anchor :: rest =>
      if bool_decide (Place.id anchor ∈ visited st) then routeAnchors fuel rest st
      else if notBefore (currentTime st) maxEndTime then Some (appendEndLocation true st)
      else
        match routeToAnchor fuel anchor st with
        | None => None
        | Some st' => routeAnchors fuel rest st'
        end
  end.

(** [while (currentTime < targetEndTime) { ... }] *)
Fixpoint fillTime (fuel : nat) (st : BuilderState) : option BuilderState :=
  match fuel with
  | O => None
  | S fuel' =>
      if before (currentTime st) maxEndTime
      then
        let remainingMinutes :=
          mul (sub (getTime maxEndTime) (getTime (currentTime st))) (Num (1 # 60000)) in
        if ltb remainingMinutes (Num 30) then Some st
        else
          match searchFrom st with
          | None => Some st
          | Some nextPlace =>
              if after (Found.endAt nextPlace) maxEndTime
              then Some (appendEndLocation true st)
              else fillTime fuel' (pushFound nextPlace st)
          end
      else Some st
  end.

Definition finish (st : BuilderState) : GeneratedCourse.t :=
  let st := appendEndLocation false st in
  let finalTime :=
    match last (courseSteps st) with
    | Some step => CourseStep.endTime step
    | None => currentTime st
    end in
  let estimatedDuration :=
    round (mul (sub (getTime finalTime) (getTime startTime)) (Num (1 # 60000))) in
  GeneratedCourse.mk (sequence st) (courseSteps st)
    (mul (round (mul (totalDistance st) (Num 10))) (Num (1 # 10))) estimatedDuration.

Definition buildCourse : option GeneratedCourse.t :=
  match routeAnchors (loopFuel allPlaces) (anchorsToVisit options) initialState with
  | None => None
  | Some st =>
      match fillTime (loopFuel allPlaces) st with
      | None => None
      | Some st' => Some (finish st')
      end
  end.

(** The states that the two loops go through: the initial state, and from
    such a state a stop found by the search, the hop to an anchor as the
    last resort, when the anchor is too far on foot and the search found no
    intermediate stop, and the hop to an anchor that is not too far. *)
Inductive Reach : BuilderState -> Prop :=
  | Reach_initial : Reach initialState
  | Reach_found st found :
      Reach st -> searchFrom st = Some found -> Reach (pushFound found st)
  | Reach_lastResort st anchor :
      Reach st -> In anchor (anchorsToVisit options) ->
      isFoot (Some (transport options)) &&
        gtb (distanceBetween (currentPlace st) anchor) (Num (3#2)) = true ->
      searchFrom st = None ->
      Reach (connectAnchor false anchor (distanceBetween (currentPlace st) anchor) st)
  | Reach_direct st anchor :
      Reach st -> In anchor (anchorsToVisit options) ->
      isFoot (Some (transport options)) &&
        gtb (distanceBetween (currentPlace st) anchor) (Num (3#2)) = false ->
      Reach (connectAnchor true anchor (distanceBetween (currentPlace st) anchor) st).

(** A step that is an anchor taken as the last resort: the search for an
    intermediate stop, from the state that holds the steps before it, found
    nothing. *)
Definition lastResort (stepsBefore : list CourseStep.t) (step : CourseStep.t) : Prop :=
  In (CourseStep.place step) (anchorsToVisit options) /\
  exists st, Reach st /\ courseSteps st = stepsBefore /\ searchFrom st = None.

(** A step that is the end venue appended when the course is closed: the
    last step, with a stay of length zero. *)
Definition closingStep (steps : list CourseStep.t) (index : nat) (step : CourseStep.t)
  : Prop :=
  targetEndLocation options = Some (CourseStep.place step) /\
  length steps = S index /\
  CourseStep.startTime step = CourseStep.endTime step.

End Run.

End Builder.

(** What a call of [generateCourse] does. *)
Inductive Outcome :=
  | ReturnsNull
  | ReturnsCourse (course : GeneratedCourse.t)
  | Throws (error : JsError)
  | OutOfFuel.

Definition generateCourse (LocalTZA : Z -> bool -> Z)
    (haversineDistance : Q -> Q -> Q -> Q -> number)
    (calculatePlaceScore : Place.t -> ScoreContext.t -> number)
    (allPlaces : list Place.t) (options : Options.t) : Outcome :=
  match Options.startLocation options with
  | None => ReturnsNull
  | Some startLocation =>
      match convertToUserVector (Options.userPreferences options) with
      | Throw e => Throws e
      | Normal userVector =>
          match buildCourse LocalTZA haversineDistance calculatePlaceScore allPlaces
                            options startLocation userVector with
          | Some course => ReturnsCourse course
          | None => OutOfFuel
          end
      end
  end.

End Js.

(** * Example data

    Places around Daejeon City Hall, a stand-in for the great-circle
    distance (111 km for a degree, along the axes) and a stand-in for the
    score (the nearer place scores higher), for the concrete runs below. *)

Definition flatDistance (lat1 lng1 lat2 lng2 : Q) : Q :=
  111 * (Qabs (lat2 - lat1) + Qabs (lng2 - lng1)).

Definition nearestFirst (place : Place.t) (context : ScoreContext.t) : Q :=
  - ScoreContext.distanceKm context.

(** Korea Standard Time, UTC+9 *)
Definition kst : Z := 9 * 3600000.

(** 2024-01-01 10:00 in Korea *)
Definition tenOClock : Z := 1704070800000.

Definition cityHall : Place.t :=
  Place.mk "city-hall" "Daejeon City Hall" landmark (363504#10000) (1273845#10000)
           false "" None None.

Definition artCafe : Place.t :=
  Place.mk "cafe-art" "Art Cafe" cafe (363514#10000) (1273845#10000)
           true "quiet gallery cafe" None (Some 45).

Definition riverWalk : Place.t :=
  Place.mk "walk-river" "River Walk" activity (363524#10000) (1273855#10000)
           false "riverside park" None None.

Definition noodleHouse : Place.t :=
  Place.mk "rest-noodle" "Noodle House" restaurant (363534#10000) (1273845#10000)
           true "ramen and udon" (Some mealLunch) (Some 60).

Definition farMuseum : Place.t :=
  Place.mk "museum-far" "Far Museum" culture (364004#10000) (1273845#10000)
           true "" None None.

Definition bookCafe : Place.t :=
  Place.mk "cafe-book" "Book Cafe" cafe (363544#10000) (1273845#10000)
           true "" None (Some 45).

Definition examplePool : list Place.t :=
  [cityHall; artCafe; riverWalk; noodleHouse; farMuseum].

(** A preference object with the ten dimensions, all neutral. *)
Definition neutralPreferences : Preferences :=
  list_to_map
    [("Meat", 1#2); ("Seafood", 1#2); ("Noodle", 1#2); ("Rice", 1#2); ("Bread", 1#2);
     ("Quiet", 1#2); ("Active", 1#2); ("Indoor", 1#2); ("Nature", 1#2);
     ("Luxury", 1#2)]%string.

(** [INITIAL_PREFERENCES], the legacy weights that App.tsx keeps in its
    state and passes as [userPreferences]. *)
Definition INITIAL_PREFERENCES : Preferences :=
  list_to_map
    [("Meat", 1); ("Seafood", 1); ("Quiet", 1); ("Active", 1); ("Indoor", 1);
     ("Outdoor", 1); ("Gourmet", 1); ("Nightlife", 1); ("Shopping", 1);
     ("Culture", 1); ("Cafe", 1)]%string.

(** Start at the city hall at 10:00, everything else left to its default. *)
Definition exampleOptions : Options.t :=
  Options.mk (Some cityHall) neutralPreferences {| temp := 20; isRainy := false |}
             tenOClock None None None None None None None None None.


(** The same call with the legacy weights. *)
Definition legacyOptions : Options.t :=
  Options.mk (Some cityHall) INITIAL_PREFERENCES {| temp := 20; isRainy := false |}
             tenOClock None None None None None None None None None.

(** The same call with the book cafe locked at index 1 of the sequence. *)
Definition lockedOptions : Options.t :=
  withLockedSteps exampleOptions (Some {[ 1%nat := bookCafe ]}).

Definition lockedPool : list Place.t := [cityHall; artCafe; bookCafe].

(** The first step of the time fill at 10:00, as a [StepDefinition], and
    the context of [pickCandidate] at the start of [lockedOptions]. *)
Definition warmUp : StepDefinition :=
  {| label := "Warm-up";
     preferredTypes := [activity; cafe; culture; shopping];
     fallbackTypes := None;
     stepMealType := None;
     window := None |}.

Definition lockedContext : PickContext.t :=
  PickContext.mk {[ "city-hall"%string ]} INITIAL_USER_VECTOR false 20 tenOClock
                 cityHall (Some {[ 1%nat := bookCafe ]}) (Some foot) (Some solo)
                 (Some [cityHall]).

(** The weights that App.tsx holds after a history of likes and dislikes,
    oldest first: each entry is a place with its themes and the action. *)
Definition applyLegacyFeedback (history : list (list string * Place.t * Action))
  : Preferences :=
  fold_left
    (fun prefs '(themes, place, action) => updatePreference themes place action prefs)
    history INITIAL_PREFERENCES.

(** The context of a score: the neutral vector, rain at 20 degrees, half a
    kilometre on foot, alone, with the city hall selected so far. *)
Definition rainyContext : ScoreContext.t :=
  ScoreContext.mk INITIAL_USER_VECTOR true 20 (1#2) [cityHall] (Some solo) (Some foot).

(** Stand-ins over JavaScript's numbers, for the concrete runs: the time
    zone of Korea, whose offset never changes, the flat distance, the flat
    distance that is NaN for two antipodal points, as [haversineDistance]
    is, and the score that prefers the nearer place. *)

Definition koreaTime : Z -> bool -> Z := fun _ _ => kst.

Definition flatDistanceNumber (lat1 lng1 lat2 lng2 : Q) : Js.number :=
  Js.Num (flatDistance lat1 lng1 lat2 lng2).

Definition flatDistanceOrNaN (lat1 lng1 lat2 lng2 : Q) : Js.number :=
  if Qeq_bool (lat1 + lat2) 0 && Qeq_bool (Qabs (lng1 - lng2)) 180 then Js.NaN
  else Js.Num (flatDistance lat1 lng1 lat2 lng2).

Definition nearestFirstNumber (place : Place.t) (context : Js.ScoreContext.t)
  : Js.number :=
  Js.sub (Js.Num 0) (Js.ScoreContext.distanceKm context).

(** A cafe at the antipode of the city hall. *)
Definition antipodeCafe : Place.t :=
  Place.mk "cafe-antipode" "Antipode Cafe" cafe (-(363504#10000)) (-(526155#10000))
           true "" None (Some 45).

(** An end venue 0.9 km north of the city hall, a cafe 0.9 km south of it,
    and a kiosk next to that cafe. *)
Definition stationExit : Place.t :=
  Place.mk "station-exit" "Station Exit" landmark (363585#10000) (1273845#10000)
           false "" None (Some 120).

Definition southCafe : Place.t :=
  Place.mk "cafe-south" "South Cafe" cafe (363423#10000) (1273845#10000)
           true "" None (Some 50).

Definition kiosk : Place.t :=
  Place.mk "cafe-kiosk" "Kiosk" cafe (363423#10000) (1273846#10000)
           true "" None (Some 10).

(** A walk of an hour and a half from the city hall that ends at the
    station exit. *)
Definition exitOptions : Options.t :=
  Options.mk (Some cityHall) neutralPreferences {| temp := 20; isRainy := false |}
             tenOClock (Some stationExit) None None None None None None None
             (Some (3#2)).



(** * Properties *)

(** ** Numbers *)

Lemma Qltb_lt a b : Qltb a b = true <-> a < b.
Proof.
  unfold Qltb. rewrite negb_true_iff. split.
  - intros H. apply Qnot_le_lt. intros Hle. apply Qle_bool_iff in Hle. congruence.
  - intros H. destruct (Qle_bool b a) eqn:E; [|reflexivity].
    apply Qle_bool_iff in E. exfalso. apply (Qlt_not_le _ _ H E).
Qed.

Lemma Qltb_ge a b : Qltb a b = false <-> b <= a.
Proof.
  unfold Qltb. rewrite negb_false_iff. apply Qle_bool_iff.
Qed.

(** Rounding to three decimals moves a number by at most 1/2000. *)
Lemma roundHalfUp3_bounds x :
  x - (1#2000) < roundHalfUp3 x /\ roundHalfUp3 x <= x + (1#2000).
Proof.
  unfold roundHalfUp3.
  pose proof (Qfloor_le (x * 1000 + (1#2))) as Hlo.
  pose proof (Qlt_floor (x * 1000 + (1#2))) as Hhi.
  rewrite inject_Z_plus in Hhi.
  pose proof (Qmake_Qdiv (Qfloor (x * 1000 + (1#2))) 1000) as E.
  set (f := inject_Z (Qfloor (x * 1000 + (1#2)))) in *.
  set (r := Qfloor (x * 1000 + (1#2)) # 1000) in *.
  change (inject_Z 1) with 1 in Hhi.
  change (inject_Z (Z.pos 1000)) with 1000 in E.
  assert (Er : r * 1000 == f) by (rewrite E; field).
  split; lra.
Qed.

Lemma toFixed3_bounds x :
  x - (1#2000) <= toFixed3 x /\ toFixed3 x <= x + (1#2000).
Proof.
  unfold toFixed3. destruct (Qltb x 0).
  - destruct (roundHalfUp3_bounds (- x)). split; lra.
  - destruct (roundHalfUp3_bounds x). split; lra.
Qed.

Lemma clampRounded_range x : 0 <= clampRounded x /\ clampRounded x <= 1.
Proof.
  unfold clampRounded. split.
  - apply Q.le_max_l.
  - apply Q.max_lub; [lra | apply Q.le_min_l].
Qed.

Lemma clampRounded_up prev :
  prev <= 1 -> prev <= clampRounded (prev + (1#10)).
Proof.
  intros H. unfold clampRounded.
  destruct (toFixed3_bounds (prev + (1#10))) as [Hlo _].
  apply Q.max_le_iff. right. apply Q.min_glb; lra.
Qed.

Lemma clampRounded_down prev :
  0 <= prev -> clampRounded (prev + - (2#10)) <= prev.
Proof.
  intros H. unfold clampRounded.
  destruct (toFixed3_bounds (prev + - (2#10))) as [_ Hhi].
  apply Q.max_lub; [exact H|].
  apply Q.min_le_iff. right. lra.
Qed.

(** ** The preference vector model *)

Lemma VectorDimension_eqb_eq a b : VectorDimension_eqb a b = true <-> a = b.
Proof. destruct a, b; simpl; split; (reflexivity || discriminate). Qed.

Lemma VectorDimension_eqb_refl a : VectorDimension_eqb a a = true.
Proof. destruct a; reflexivity. Qed.

Lemma VECTOR_DIMENSIONS_all dim : In dim VECTOR_DIMENSIONS.
Proof. destruct dim; simpl; tauto. Qed.

Lemma VECTOR_DIMENSIONS_NoDup : List.NoDup VECTOR_DIMENSIONS.
Proof.
  unfold VECTOR_DIMENSIONS.
  repeat (constructor; [simpl; intuition discriminate|]).
  constructor.
Qed.

Section FeatureValues.

Let allFeature (v : UserVector) : Prop := forall dim, featureValue (v dim).

Lemma allFeature_vset v dim x :
  allFeature v -> featureValue x -> allFeature (vset v dim x).
Proof.
  intros Hv Hx d. unfold vset. destruct (VectorDimension_eqb d dim); auto.
Qed.

Lemma allFeature_setIf (c : bool) v dim x :
  allFeature v -> featureValue x -> allFeature (if c then vset v dim x else v).
Proof. destruct c; auto using allFeature_vset. Qed.

Lemma allFeature_setEither (c : bool) v dim x dim' x' :
  allFeature v -> featureValue x -> featureValue x' ->
  allFeature (if c then vset v dim x else vset v dim' x').
Proof. destruct c; auto using allFeature_vset. Qed.

Lemma allFeature_setCascade (c c' : bool) v dim x x' :
  allFeature v -> featureValue x -> featureValue x' ->
  allFeature (if c then vset v dim x else if c' then vset v dim x' else v).
Proof. destruct c, c'; auto using allFeature_vset. Qed.

Lemma placeToFeatureVector_values place dim :
  featureValue (placeToFeatureVector place dim).
Proof.
  revert dim. change (allFeature (placeToFeatureVector place)).
  unfold placeToFeatureVector. cbv zeta.
  repeat first
    [ apply allFeature_setCascade
    | apply allFeature_setEither
    | apply allFeature_setIf ];
    try (unfold featureValue; tauto).
  intros d. unfold INITIAL_USER_VECTOR, featureValue. tauto.
Qed.

End FeatureValues.

Lemma placeToFeatureVector_positive place dim :
  Qltb 0 (placeToFeatureVector place dim) = true.
Proof.
  destruct (placeToFeatureVector_values place dim) as [E|[E|E]];
    rewrite E; reflexivity.
Qed.

Section UpdateLoop.

Variables (positive : VectorDimension -> bool) (delta : Q).

Let step (next : UserVector) (dim : VectorDimension) : UserVector :=
  if positive dim
  then vset next dim (clampRounded (next dim + delta))
  else next.

Lemma update_loop_other dims current d :
  ~ In d dims -> fold_left step dims current d = current d.
Proof.
  revert current. induction dims as [|dim dims IH]; intros current Hd; [reflexivity|].
  simpl. rewrite IH by (intros H; apply Hd; right; exact H).
  unfold step, vset. destruct (positive dim); [|reflexivity].
  destruct (VectorDimension_eqb d dim) eqn:E; [|reflexivity].
  apply VectorDimension_eqb_eq in E. subst. exfalso. apply Hd. left. reflexivity.
Qed.

Lemma update_loop_at dims current d :
  List.NoDup dims -> In d dims ->
  fold_left step dims current d =
  if positive d then clampRounded (current d + delta) else current d.
Proof.
  revert current. induction dims as [|dim dims IH]; intros current Hnd Hd; [destruct Hd|].
  inversion Hnd as [|? ? Hnotin Hnd']; subst. simpl.
  destruct Hd as [->|Hd].
  - rewrite update_loop_other by exact Hnotin.
    unfold step, vset. destruct (positive d); [|reflexivity].
    rewrite VectorDimension_eqb_refl. reflexivity.
  - rewrite IH by assumption.
    assert (Hne : VectorDimension_eqb d dim = false).
    { destruct (VectorDimension_eqb d dim) eqn:E; [|reflexivity].
      apply VectorDimension_eqb_eq in E. subst. contradiction. }
    unfold step, vset. destruct (positive dim); rewrite ?Hne; reflexivity.
Qed.

End UpdateLoop.

Lemma updateUserVector_at place action current dim :
  updateUserVector place action current dim =
  if Qltb 0 (placeToFeatureVector place dim)
  then clampRounded (current dim + actionDelta action)
  else current dim.
Proof.
  unfold updateUserVector.
  apply (update_loop_at (fun d => Qltb 0 (placeToFeatureVector place d))
                        (actionDelta action));
    [apply VECTOR_DIMENSIONS_NoDup | apply VECTOR_DIMENSIONS_all].
Qed.

(** C6: on a vector with every dimension in [0,1], LIKE lowers no
    dimension, DISLIKE raises none, and both leave every dimension in
    [0,1]. *)
Theorem updateUserVector_monotone_bounded place current :
  (forall dim, unitInterval (current dim)) ->
  forall dim,
    current dim <= updateUserVector place LIKE current dim /\
    updateUserVector place DISLIKE current dim <= current dim /\
    unitInterval (updateUserVector place LIKE current dim) /\
    unitInterval (updateUserVector place DISLIKE current dim).
Proof.
  intros Hcur dim. destruct (Hcur dim) as [H0 H1].
  rewrite !updateUserVector_at.
  destruct (Qltb 0 (placeToFeatureVector place dim)); simpl actionDelta.
  - repeat split; try apply clampRounded_range.
    + apply clampRounded_up; exact H1.
    + apply clampRounded_down; exact H0.
  - repeat split; (apply Qle_refl || assumption).
Qed.

(** C10: every dimension of a feature vector is 0.5, 0.8 or 1.0, hence at
    least 0.5 and positive, and so [updateUserVector] rewrites all ten
    dimensions of the user vector, whatever the place. *)
Theorem featureVector_positive_update_all place :
  (forall dim, featureValue (placeToFeatureVector place dim)) /\
  (forall dim, (1#2) <= placeToFeatureVector place dim) /\
  (forall dim, 0 < placeToFeatureVector place dim) /\
  (forall action current dim,
      updateUserVector place action current dim =
      clampRounded (current dim + actionDelta action)).
Proof.
  split; [apply placeToFeatureVector_values|].
  split; [|split].
  - intros dim. destruct (placeToFeatureVector_values place dim) as [E|[E|E]];
      rewrite E; discriminate.
  - intros dim. destruct (placeToFeatureVector_values place dim) as [E|[E|E]];
      rewrite E; reflexivity.
  - intros action current dim. rewrite updateUserVector_at.
    rewrite placeToFeatureVector_positive. reflexivity.
Qed.

(** ** Cosine similarity *)

Section Cosine.

Local Open Scope R_scope.

Lemma orZero_Q2R x : Q2R (orZero x) = Q2R x.
Proof.
  unfold orZero. destruct (Qeq_bool x 0) eqn:E; [|reflexivity].
  apply Qeq_bool_eq in E. apply Qeq_eqR. symmetry. exact E.
Qed.

Variables vecA vecB : UserVector.

Let dotOver (dims : list VectorDimension) : R :=
  fold_right (fun dim acc => Q2R (vecA dim) * Q2R (vecB dim) + acc) 0 dims.

Let squaresOver (vec : UserVector) (dims : list VectorDimension) : R :=
  fold_right (fun dim acc => Q2R (vec dim) * Q2R (vec dim) + acc) 0 dims.

Lemma cosine_loop dims dotProduct normA normB :
  fold_left
    (fun '(dotProduct, normA, normB) dim =>
       let a := Q2R (orZero (vecA dim)) in
       let b := Q2R (orZero (vecB dim)) in
       (dotProduct + a * b, normA + a * a, normB + b * b))
    dims (dotProduct, normA, normB)
  = (dotProduct + dotOver dims,
     normA + squaresOver vecA dims,
     normB + squaresOver vecB dims).
Proof.
  revert dotProduct normA normB.
  induction dims as [|dim dims IH]; intros dotProduct normA normB; simpl.
  - f_equal; [f_equal|]; ring.
  - rewrite IH, !orZero_Q2R. f_equal; [f_equal|]; ring.
Qed.

Lemma cosineSums_eq :
  cosineSums vecA vecB =
  (dotOver VECTOR_DIMENSIONS, sumOfSquares vecA, sumOfSquares vecB).
Proof.
  unfold cosineSums. rewrite cosine_loop. unfold sumOfSquares, squaresOver.
  f_equal; [f_equal|]; ring.
Qed.

Lemma squaresOver_nonneg vec dims : 0 <= squaresOver vec dims.
Proof.
  unfold squaresOver. induction dims as [|dim dims IH]; simpl; [Lra.lra|].
  pose proof (Rle_0_sqr (Q2R (vec dim))) as H. unfold Rsqr in H. Lra.lra.
Qed.

(** Cauchy-Schwarz over the listed dimensions. *)
Lemma dot_square_le dims :
  dotOver dims * dotOver dims <= squaresOver vecA dims * squaresOver vecB dims.
Proof.
  induction dims as [|dim dims IH]; [simpl; Lra.lra|].
  pose proof (squaresOver_nonneg vecA dims) as HA.
  pose proof (squaresOver_nonneg vecB dims) as HB.
  change (dotOver (dim :: dims))
    with (Q2R (vecA dim) * Q2R (vecB dim) + dotOver dims).
  change (squaresOver vecA (dim :: dims))
    with (Q2R (vecA dim) * Q2R (vecA dim) + squaresOver vecA dims).
  change (squaresOver vecB (dim :: dims))
    with (Q2R (vecB dim) * Q2R (vecB dim) + squaresOver vecB dims).
  set (x := Q2R (vecA dim)). set (y := Q2R (vecB dim)).
  set (D := dotOver dims) in *. set (A := squaresOver vecA dims) in *.
  set (B := squaresOver vecB dims) in *.
  assert (Hcross : 2 * (x * y * D) <= A * (y * y) + B * (x * x)).
  { set (u := A * (y * y) + B * (x * x)).
    set (w := 2 * (x * y * D)).
    assert (Hu : 0 <= u) by (unfold u; Lra.nra).
    assert (Hsq : w * w <= u * u).
    { unfold w, u.
      assert (H1 : 0 <= (A * (y * y) - B * (x * x)) * (A * (y * y) - B * (x * x)))
        by apply Rle_0_sqr.
      assert (H2 : 0 <= (x * y) * (x * y)) by apply Rle_0_sqr.
      assert (H3 : (x * y) * (x * y) * (D * D) <= (x * y) * (x * y) * (A * B))
        by (apply Rmult_le_compat_l; assumption).
      Lra.nra. }
    destruct (Rle_dec w u) as [Hle|Hgt]; [exact Hle|].
    exfalso. apply Rnot_le_lt in Hgt.
    assert (u * u < w * w) by Lra.nra. Lra.lra. }
  Lra.nra.
Qed.

Lemma dotOver_nonneg dims :
  (forall dim, (0 <= vecA dim)%Q) -> (forall dim, (0 <= vecB dim)%Q) ->
  0 <= dotOver dims.
Proof.
  intros HA HB. induction dims as [|dim dims IH]; [simpl; Lra.lra|].
  assert (0 <= Q2R (vecA dim)) by (rewrite <- RMicromega.Q2R_0; apply Qle_Rle, HA).
  assert (0 <= Q2R (vecB dim)) by (rewrite <- RMicromega.Q2R_0; apply Qle_Rle, HB).
  change (dotOver (dim :: dims))
    with (Q2R (vecA dim) * Q2R (vecB dim) + dotOver dims).
  Lra.nra.
Qed.

Lemma cosineSimilarity_range :
  (forall dim, (0 <= vecA dim)%Q) -> (forall dim, (0 <= vecB dim)%Q) ->
  0 <= cosineSimilarity vecA vecB <= 1.
Proof.
  intros HA HB. unfold cosineSimilarity. rewrite cosineSums_eq.
  destruct (Req_dec_T _ 0) as [_|Hden]; [Lra.lra|].
  pose proof (dot_square_le VECTOR_DIMENSIONS) as Hcs.
  pose proof (dotOver_nonneg VECTOR_DIMENSIONS HA HB) as Hdot.
  pose proof (squaresOver_nonneg vecA VECTOR_DIMENSIONS) as HnA.
  pose proof (squaresOver_nonneg vecB VECTOR_DIMENSIONS) as HnB.
  change (sumOfSquares vecA) with (squaresOver vecA VECTOR_DIMENSIONS) in *.
  change (sumOfSquares vecB) with (squaresOver vecB VECTOR_DIMENSIONS) in *.
  set (D := dotOver VECTOR_DIMENSIONS) in *.
  set (A := squaresOver vecA VECTOR_DIMENSIONS) in *.
  set (B := squaresOver vecB VECTOR_DIMENSIONS) in *.
  assert (Hpos : 0 < sqrt A * sqrt B).
  { pose proof (sqrt_pos A). pose proof (sqrt_pos B).
    assert (0 <= sqrt A * sqrt B) by Lra.nra. Lra.lra. }
  assert (Hle : D <= sqrt A * sqrt B).
  { rewrite <- sqrt_mult by assumption.
    rewrite <- (sqrt_square D) by assumption.
    apply sqrt_le_1_alt. exact Hcs. }
  split.
  - apply Rmult_le_pos; [exact Hdot|]. left. apply Rinv_0_lt_compat. exact Hpos.
  - apply (Rmult_le_reg_r (sqrt A * sqrt B)); [exact Hpos|].
    unfold Rdiv. rewrite Rmult_assoc, Rinv_l by Lra.lra. Lra.lra.
Qed.

End Cosine.

(** ** Diversity multiplier and travel time *)

Lemma Q2R_power_nat (n : nat) : Q2R ((6#10) ^ Z.of_nat n) = ((6 / 10) ^ n)%R.
Proof.
  rewrite RMicromega.Q2RpowerRZ by (left; discriminate).
  rewrite <- pow_powerRZ. reflexivity.
Qed.

(** C9: on foot 12 minutes a kilometre, at most 90; by car 3 minutes a
    kilometre, at most 60, and then 10 minutes of parking. *)
Theorem travelMinutes_formula d :
  travelMinutes d (Some foot) == Qmin 90 (12 * d) /\
  travelMinutes d None == Qmin 90 (12 * d) /\
  travelMinutes d (Some car) == Qmin 60 (3 * d) + 10 /\
  travelMinutes d (Some foot) <= 90 /\
  travelMinutes d (Some car) <= 70.
Proof.
  unfold travelMinutes.
  assert (E12 : d * 12 == 12 * d) by ring.
  assert (E3 : d * 3 == 3 * d) by ring.
  rewrite E12, E3.
  repeat split; try reflexivity.
  - apply Q.le_min_l.
  - pose proof (Q.le_min_l 60 (3 * d)). lra.
Qed.

(** ** The candidate search *)

Lemma fold_left_invariant {A B : Type} (f : A -> B -> A) (P : A -> Prop)
    (l : list B) (init : A) :
  P init -> (forall a b, In b l -> P a -> P (f a b)) -> P (fold_left f l init).
Proof.
  revert init. induction l as [|b l IH]; intros init Hinit Hstep; simpl; [exact Hinit|].
  apply IH.
  - apply Hstep; [left; reflexivity | exact Hinit].
  - intros a b' Hin. apply Hstep. right. exact Hin.
Qed.

Lemma keepBest_cases best c :
  keepBest best c = Some c \/ keepBest best c = best.
Proof.
  unfold keepBest. destruct best as [b|]; [|left; reflexivity].
  destruct (Qltb _ _); [left | right]; reflexivity.
Qed.

Section Search.

Variable localOffsetMs : Z.
Variable haversineDistance : Q -> Q -> Q -> Q -> Q.
Variable calculatePlaceScore : Place.t -> ScoreContext.t -> Q.

Local Abbreviation findPlace :=
  (findPlaceForTime localOffsetMs haversineDistance calculatePlaceScore).

(** What [findPlaceForTime] returns is an unvisited place of the pool, in
    walking reach when on foot, whose stay ends by [maxEndTime]. *)
Lemma findPlaceForTime_sound currentTime from allPlaces visited mealWindows
    transport baseDuration maxEndTime hasHadLunch hasHadDinner userVector
    selectedPlaces companion isRainy temperature found :
  findPlace currentTime from allPlaces visited mealWindows transport baseDuration
    maxEndTime hasHadLunch hasHadDinner userVector selectedPlaces companion
    isRainy temperature = Some found ->
  In (Found.place found) allPlaces /\
  (Place.id (Found.place found) ∉ visited) /\
  Found.distanceKm found = distanceBetween haversineDistance from (Found.place found) /\
  (transport = foot -> Found.distanceKm found <= (3#2)) /\
  exceeds maxEndTime (Found.endAt found) = false.
Proof.
  unfold findPlaceForTime.
  destruct (stepForTime _ _ _ _ _) as [[[preferredTypes mealType] window] isMeal].
  set (candidates := List.filter _ allPlaces).
  destruct (length candidates =? 0)%nat; [discriminate|].
  set (step := fun (best : option Candidate.t) (place : Place.t) => _).
  set (good := fun c : Candidate.t =>
    In (Candidate.place c) allPlaces /\
    (Place.id (Candidate.place c) ∉ visited) /\
    Candidate.distanceKm c = distanceBetween haversineDistance from (Candidate.place c) /\
    (transport = foot -> Candidate.distanceKm c <= (3#2)) /\
    exceeds maxEndTime (Candidate.endAt c) = false).
  assert (Hbest : forall c, fold_left step candidates None = Some c -> good c).
  { apply (fold_left_invariant step (fun best => forall c, best = Some c -> good c)).
    - discriminate.
    - intros best place Hin IH c. unfold step.
      destruct (isFoot (Some transport) && Qltb (3#2) (distanceBetween haversineDistance from place))
        eqn:Hfar; [apply IH|].
      destruct (match window with Some w => _ | None => _ end) as [startAt|]; [|apply IH].
      destruct (exceeds maxEndTime _) eqn:Hend; [apply IH|].
      match goal with |- keepBest best ?new = _ -> _ =>
        destruct (keepBest_cases best new) as [E|E]; rewrite E end; [|apply IH].
      intros [= <-]. unfold good. simpl.
      apply filter_In in Hin. destruct Hin as [Hin Hcond].
      apply andb_true_iff in Hcond. destruct Hcond as [Hvis _].
      apply negb_true_iff, bool_decide_eq_false in Hvis.
      repeat split; try assumption.
      intros ->. simpl in Hfar. apply Qltb_ge in Hfar. exact Hfar. }
  destruct (fold_left step candidates None) as [b|]; [|discriminate].
  intros [= <-]. simpl. exact (Hbest b eq_refl).
Qed.

End Search.

Lemma unvisitedCount_le allPlaces visited :
  (unvisitedCount allPlaces visited <= length allPlaces)%nat.
Proof. unfold unvisitedCount. apply List.filter_length_le. Qed.

(** Visiting a place of the pool that was unvisited leaves fewer unvisited
    places. *)
Lemma unvisitedCount_visit allPlaces (visited : gset string) p :
  In p allPlaces -> Place.id p ∉ visited ->
  (unvisitedCount allPlaces (visited ∪ {[ Place.id p ]}) <
   unvisitedCount allPlaces visited)%nat.
Proof.
  unfold unvisitedCount. intros Hin Hnew.
  set (before := fun q => negb (bool_decide (Place.id q ∈ visited))).
  set (after := fun q => negb (bool_decide (Place.id q ∈ visited ∪ {[ Place.id p ]}))).
  assert (Himp : forall q, after q = true -> before q = true).
  { intros q. unfold after, before. rewrite !negb_true_iff, !bool_decide_eq_false.
    set_solver. }
  assert (Hp : after p = false /\ before p = true).
  { unfold after, before. split.
    - apply negb_false_iff, bool_decide_eq_true. set_solver.
    - apply negb_true_iff, bool_decide_eq_false. exact Hnew. }
  clearbody before after.
  induction allPlaces as [|q rest IH]; [destruct Hin|].
  assert (Hmono : (length (List.filter after rest) <= length (List.filter before rest))%nat).
  { clear -Himp. induction rest as [|r rest IH]; [reflexivity|].
    cbn [List.filter]. specialize (Himp r).
    destruct (after r), (before r); cbn [length]; lia. }
  cbn [List.filter].
  destruct Hin as [->|Hin].
  - destruct Hp as [-> ->]. cbn [length]. lia.
  - specialize (IH Hin). specialize (Himp q).
    destruct (after q), (before q); cbn [length]; lia.
Qed.

(** ** Invariants of the builder *)

Lemma last_map {A B : Type} (f : A -> B) (l : list A) :
  last (List.map f l) = option_map f (last l).
Proof.
  induction l as [|a l IH]; [reflexivity|].
  destruct l as [|b l]; [reflexivity|]. exact IH.
Qed.

Lemma In_last {A : Type} (l : list A) (x : A) : last l = Some x -> In x l.
Proof.
  induction l as [|a l IH]; [discriminate|].
  destruct l as [|b l].
  - intros [= ->]. left. reflexivity.
  - intros H. right. apply IH. exact H.
Qed.

Section Invariants.

Variable localOffsetMs : Z.
Variable haversineDistance : Q -> Q -> Q -> Q -> Q.
Variable calculatePlaceScore : Place.t -> ScoreContext.t -> Q.
Variable allPlaces : list Place.t.
Variable options : Options.t.
Variable startLocation : Place.t.
Variable userVector : UserVector.

Local Abbreviation search :=
  (searchFrom localOffsetMs haversineDistance calculatePlaceScore allPlaces options
              userVector).
Local Abbreviation routeTo :=
  (routeToAnchor localOffsetMs haversineDistance calculatePlaceScore allPlaces options
                 userVector).
Local Abbreviation route :=
  (routeAnchors localOffsetMs haversineDistance calculatePlaceScore allPlaces options
                userVector).
Local Abbreviation fill :=
  (fillTime localOffsetMs haversineDistance calculatePlaceScore allPlaces options
            userVector).

Lemma hopsOk_snoc steps step :
  hopsOk haversineDistance options steps ->
  (forall a, last steps = Some a -> hopOk haversineDistance options a step) ->
  hopsOk haversineDistance options (steps ++ [step]).
Proof.
  induction steps as [|a steps IH]; intros Hok Hlast; [simpl; auto|].
  destruct steps as [|b steps].
  - simpl. split; [|auto]. apply Hlast. reflexivity.
  - destruct Hok as [Hab Hrest]. split; [exact Hab|].
    apply IH; [exact Hrest|]. intros a' Ha'. apply Hlast. exact Ha'.
Qed.

(** The first step of every course: the start venue, with a stay of length
    zero at the start time. *)
Definition firstStep : CourseStep.t :=
  CourseStep.mk startLocation (startTime options) (startTime options) 0.

(** What holds of the sequence and the steps at every point of
    [generateCourse]. *)
Record Shape (places : list Place.t) (steps : list CourseStep.t) : Prop := {
  shape_places : List.map CourseStep.place steps = places;
  shape_nodup : List.NoDup (List.map Place.id places);
  shape_times :
    exists rest, steps = firstStep :: rest /\
      Forall (fun s => (CourseStep.endTime s <= maxEndTime options)%Z) rest;
  shape_hops : hopsOk haversineDistance options steps
}.

Lemma Shape_snoc places steps step :
  Shape places steps ->
  (forall q, In q places -> Place.id q <> Place.id (CourseStep.place step)) ->
  (CourseStep.endTime step <= maxEndTime options)%Z ->
  (forall a, last steps = Some a -> hopOk haversineDistance options a step) ->
  Shape (places ++ [CourseStep.place step]) (steps ++ [step]).
Proof.
  intros [Hpl Hnd [rest [Hst Hall]] Hhops] Hfresh Hend Hhop. split.
  - rewrite List.map_app, Hpl. reflexivity.
  - rewrite List.map_app. simpl.
    apply List.NoDup_app; [exact Hnd | constructor; [intros []|constructor] |].
    intros i Hi Hin. apply in_map_iff in Hi. destruct Hi as [q [<- Hq]].
    destruct Hin as [Hin|[]]. apply (Hfresh q Hq). symmetry. exact Hin.
  - exists (rest ++ [step]). split; [rewrite Hst; reflexivity|].
    apply Forall_app. split; [exact Hall|]. constructor; [exact Hend|constructor].
  - apply hopsOk_snoc; assumption.
Qed.

Record Core (st : BuilderState) : Prop := {
  core_shape : Shape (sequence st) (courseSteps st);
  core_visited : forall p, In p (sequence st) -> Place.id p ∈ visited st
}.

(** The state between two steps: the course ends at the current place. *)
Definition Running (st : BuilderState) : Prop :=
  Core st /\ last (sequence st) = Some (currentPlace st).

(** The state once the end venue was appended from inside a loop: the end
    venue is visited and nothing is appended any more. *)
Definition Closed (st : BuilderState) : Prop :=
  Core st /\ (currentTime st >= maxEndTime options)%Z /\
  exists e, targetEndLocation options = Some e /\ Place.id e ∈ visited st.

Lemma Running_last_step st a :
  Running st -> last (courseSteps st) = Some a -> CourseStep.place a = currentPlace st.
Proof.
  intros [[Hshape _] Hlast] Ha.
  pose proof (last_map CourseStep.place (courseSteps st)) as E.
  rewrite (shape_places _ _ Hshape), Hlast, Ha in E.
  simpl in E. congruence.
Qed.

Lemma Running_initial : Running (initialState options startLocation).
Proof.
  split; [|reflexivity]. split.
  - split; simpl.
    + reflexivity.
    + constructor; [intros []|constructor].
    + exists []. split; [reflexivity|constructor].
    + auto.
  - simpl. intros p [<-|[]]. set_solver.
Qed.

Lemma fresh_of_unvisited st (p : Place.t) :
  Core st -> Place.id p ∉ visited st ->
  forall q, In q (sequence st) -> Place.id q <> Place.id p.
Proof.
  intros [_ Hvis] Hnew q Hq E. apply Hnew. rewrite <- E. apply Hvis. exact Hq.
Qed.

Lemma Running_pushFound st found :
  Running st -> search st = Some found -> Running (pushFound options found st).
Proof.
  intros Hrun Hfound. pose proof Hrun as [Hcore Hlast]. unfold searchFrom in Hfound.
  apply findPlaceForTime_sound in Hfound.
  destruct Hfound as (_ & Hnew & Hdist & Hfoot & Hend).
  split; [|cbn [sequence currentPlace]; apply last_snoc].
  split; cbn [sequence courseSteps visited].
  - apply (Shape_snoc _ _ (CourseStep.mk (Found.place found) _ _ _)).
    + apply Hcore.
    + apply fresh_of_unvisited; assumption.
    + cbn [CourseStep.endTime]. unfold exceeds in Hend. lia.
    + intros a Ha Hfootmode. left. simpl.
      rewrite (Running_last_step st a Hrun Ha), <- Hdist. apply Hfoot. exact Hfootmode.
  - intros p Hp. apply in_app_iff in Hp. destruct Hp as [Hp|[<-|[]]].
    + apply elem_of_union_l. apply Hcore. exact Hp.
    + set_solver.
Qed.

Lemma visited_pushFound st found :
  visited (pushFound options found st) = visited st ∪ {[ Place.id (Found.place found) ]}.
Proof. reflexivity. Qed.

Lemma Running_connectAnchor track anchor distanceToAnchor st :
  Running st -> isAnchor options anchor -> Place.id anchor ∉ visited st ->
  Running (connectAnchor localOffsetMs options track anchor distanceToAnchor st).
Proof.
  intros Hrun Hanchor Hnew. pose proof Hrun as [Hcore Hlast]. unfold connectAnchor.
  destruct (_ >? _)%Z eqn:Hend; [exact Hrun|].
  split; [|cbn [sequence currentPlace]; apply last_snoc].
  split; cbn [sequence courseSteps visited].
  - apply (Shape_snoc _ _ (CourseStep.mk anchor _ _ _)).
    + apply Hcore.
    + apply fresh_of_unvisited; assumption.
    + cbn [CourseStep.endTime]. lia.
    + intros a _ _. right. exact Hanchor.
  - intros p Hp. apply in_app_iff in Hp. destruct Hp as [Hp|[<-|[]]].
    + apply elem_of_union_l. apply Hcore. exact Hp.
    + set_solver.
Qed.

Lemma Closed_appendEndLocation markVisited st :
  Closed st -> appendEndLocation haversineDistance options markVisited st = st.
Proof.
  intros (_ & _ & e & He & Hvis). unfold appendEndLocation. rewrite He.
  rewrite bool_decide_eq_true_2 by exact Hvis. reflexivity.
Qed.

(** Appending the end venue to a running state, whether or not its id is
    then marked as visited, keeps the shape of the course. *)
Lemma Shape_appendEndLocation markVisited st :
  Running st ->
  Shape (sequence (appendEndLocation haversineDistance options markVisited st))
        (courseSteps (appendEndLocation haversineDistance options markVisited st)).
Proof.
  intros Hrun. pose proof Hrun as [Hcore Hlast]. unfold appendEndLocation.
  destruct (targetEndLocation options) as [e|] eqn:He; [|apply Hcore].
  destruct (bool_decide _) eqn:Hvis; [apply Hcore|].
  apply bool_decide_eq_false in Hvis.
  destruct (_ <=? _)%Z eqn:Harr; [|apply Hcore]. cbn [sequence courseSteps].
  apply (Shape_snoc _ _ (CourseStep.mk e _ _ _)).
  - apply Hcore.
  - apply fresh_of_unvisited; assumption.
  - cbn [CourseStep.endTime]. lia.
  - intros a _ _. right. right. exact He.
Qed.

Lemma Done_appendEndLocation st :
  Running st -> (currentTime st >= maxEndTime options)%Z ->
  Running (appendEndLocation haversineDistance options true st) \/
  Closed (appendEndLocation haversineDistance options true st).
Proof.
  intros Hrun Htime. pose proof (Shape_appendEndLocation true st Hrun) as Hshape.
  pose proof Hrun as [Hcore Hlast]. unfold appendEndLocation in *.
  destruct (targetEndLocation options) as [e|] eqn:He; [|left; exact Hrun].
  destruct (bool_decide _) eqn:Hvis; [left; exact Hrun|].
  destruct (_ <=? _)%Z eqn:Harr; [|left; exact Hrun].
  right. split; [|split].
  - split; [exact Hshape|]. cbn [sequence visited].
    intros p Hp. apply in_app_iff in Hp. destruct Hp as [Hp|[<-|[]]].
    + apply elem_of_union_l. apply Hcore. exact Hp.
    + set_solver.
  - exact Htime.
  - exists e. split; [exact He|]. cbn [visited]. set_solver.
Qed.

Lemma isAnchor_anchorsToVisit anchor :
  In anchor (anchorsToVisit options) -> isAnchor options anchor.
Proof.
  unfold anchorsToVisit, isAnchor. intros H. apply in_app_iff in H.
  destruct H as [H|H]; [left; exact H|]. right.
  unfold targetEndLocation in H.
  destruct (Options.endLocation options) as [e|]; [|contradiction].
  destruct (existsb _ _); [contradiction|]. destruct H as [E|[]].
  rewrite E. reflexivity.
Qed.

(** The inner loop: from a running state in which the anchor is unvisited,
    or is where the course stands, it ends in a running state. *)
Lemma routeToAnchor_Running fuel anchor : forall st st',
  Running st -> isAnchor options anchor ->
  Place.id anchor ∉ visited st \/ Place.id (currentPlace st) = Place.id anchor ->
  routeTo fuel anchor st = Some st' -> Running st'.
Proof.
  induction fuel as [|fuel IH]; intros st st' Hrun Hanchor Hcase; [discriminate|].
  cbn [routeToAnchor].
  destruct (String.eqb _ _) eqn:Hsame; [intros [= <-]; exact Hrun|].
  apply String.eqb_neq in Hsame.
  destruct Hcase as [Hnew|Hcase]; [|contradiction].
  destruct (isFoot _ && _).
  - destruct (search st) as [intermediate|] eqn:Hsearch.
    + pose proof (Running_pushFound st intermediate Hrun Hsearch) as Hrun'.
      destruct (_ >=? _)%Z; [intros [= <-]; exact Hrun'|].
      apply IH; [exact Hrun' | exact Hanchor |].
      destruct (decide (Place.id (Found.place intermediate) = Place.id anchor)) as [E|E].
      * right. exact E.
      * left. rewrite visited_pushFound, elem_of_union, elem_of_singleton.
        intros [H|H]; [exact (Hnew H) | exact (E (eq_sym H))].
    + intros [= <-]. apply Running_connectAnchor; assumption.
  - intros [= <-]. apply Running_connectAnchor; assumption.
Qed.

(** The loop over the anchors. *)
Lemma routeAnchors_Done fuel anchors : forall st st',
  Running st -> (forall a, In a anchors -> isAnchor options a) ->
  route fuel anchors st = Some st' -> Running st' \/ Closed st'.
Proof.
  induction anchors as [|anchor rest IH]; intros st st' Hrun Hanchors;
    cbn [routeAnchors]; [intros [= <-]; left; exact Hrun|].
  assert (Hrest : forall a, In a rest -> isAnchor options a)
    by (intros a Ha; apply Hanchors; right; exact Ha).
  destruct (bool_decide _) eqn:Hvis; [apply IH; assumption|].
  apply bool_decide_eq_false in Hvis.
  destruct (_ >=? _)%Z eqn:Htime.
  - intros [= <-]. apply Done_appendEndLocation; [exact Hrun | lia].
  - destruct (routeTo fuel anchor st) as [st1|] eqn:Hroute; [|discriminate].
    apply IH; [|exact Hrest].
    apply (routeToAnchor_Running fuel anchor st st1); auto.
    apply Hanchors. left. reflexivity.
Qed.

(** The time fill.  Its branch for a stop that would end after
    [maxEndTime] is never taken: the search returns no such stop. *)
Lemma fillTime_Done fuel : forall st st',
  Running st \/ Closed st -> fill fuel st = Some st' -> Running st' \/ Closed st'.
Proof.
  induction fuel as [|fuel IH]; intros st st' Hst; [discriminate|].
  cbn [fillTime].
  destruct (_ <? _)%Z eqn:Htime; [|intros [= <-]; exact Hst].
  destruct Hst as [Hrun|Hclosed]; [|destruct Hclosed as (_ & Hge & _); lia].
  destruct (Qltb _ 30); [intros [= <-]; left; exact Hrun|].
  destruct (search st) as [nextPlace|] eqn:Hsearch; [|intros [= <-]; left; exact Hrun].
  pose proof Hsearch as Hsound. unfold searchFrom in Hsound.
  apply findPlaceForTime_sound in Hsound. destruct Hsound as (_ & _ & _ & _ & Hend).
  unfold exceeds in Hend. rewrite Hend.
  apply IH. left. apply Running_pushFound; assumption.
Qed.

Lemma finish_Shape st :
  Running st \/ Closed st ->
  Shape (GeneratedCourse.sequence (finish haversineDistance options st))
        (GeneratedCourse.steps (finish haversineDistance options st)).
Proof.
  intros [Hrun|Hclosed]; unfold finish; cbn [GeneratedCourse.sequence GeneratedCourse.steps].
  - apply Shape_appendEndLocation. exact Hrun.
  - rewrite Closed_appendEndLocation by exact Hclosed. apply Hclosed.
Qed.

Lemma buildCourse_Shape course :
  buildCourse localOffsetMs haversineDistance calculatePlaceScore allPlaces options
    startLocation userVector = Some course ->
  Shape (GeneratedCourse.sequence course) (GeneratedCourse.steps course).
Proof.
  unfold buildCourse.
  destruct (route _ _ _) as [st|] eqn:Hroute; [|discriminate].
  destruct (fill _ st) as [st'|] eqn:Hfill; [|discriminate].
  intros [= <-]. apply finish_Shape.
  eapply fillTime_Done; [|exact Hfill].
  eapply routeAnchors_Done;
    [apply Running_initial | apply isAnchor_anchorsToVisit | exact Hroute].
Qed.

(** *** The fuel is enough *)

Lemma routeToAnchor_total fuel anchor : forall st,
  (unvisitedCount allPlaces (visited st) < fuel)%nat ->
  exists st', routeTo fuel anchor st = Some st'.
Proof.
  induction fuel as [|fuel IH]; intros st Hfuel; [lia|].
  cbn [routeToAnchor].
  destruct (String.eqb _ _); [eauto|].
  destruct (isFoot _ && _); [|eauto].
  destruct (search st) as [intermediate|] eqn:Hsearch; [|eauto].
  destruct (_ >=? _)%Z; [eauto|].
  apply IH. rewrite visited_pushFound.
  unfold searchFrom in Hsearch. apply findPlaceForTime_sound in Hsearch.
  destruct Hsearch as (Hin & Hnew & _).
  pose proof (unvisitedCount_visit allPlaces (visited st) _ Hin Hnew). lia.
Qed.

Lemma routeAnchors_total fuel anchors : forall st,
  (length allPlaces < fuel)%nat -> exists st', route fuel anchors st = Some st'.
Proof.
  induction anchors as [|anchor rest IH]; intros st Hfuel; cbn [routeAnchors]; [eauto|].
  destruct (bool_decide _); [apply IH; exact Hfuel|].
  destruct (_ >=? _)%Z; [eauto|].
  destruct (routeToAnchor_total fuel anchor st) as [st1 ->]; [|apply IH; exact Hfuel].
  pose proof (unvisitedCount_le allPlaces (visited st)). lia.
Qed.

Lemma fillTime_total fuel : forall st,
  (unvisitedCount allPlaces (visited st) < fuel)%nat ->
  exists st', fill fuel st = Some st'.
Proof.
  induction fuel as [|fuel IH]; intros st Hfuel; [lia|].
  cbn [fillTime].
  destruct (_ <? _)%Z; [|eauto].
  destruct (Qltb _ 30); [eauto|].
  destruct (search st) as [nextPlace|] eqn:Hsearch; [|eauto].
  destruct (_ >? _)%Z; [eauto|].
  apply IH. rewrite visited_pushFound.
  unfold searchFrom in Hsearch. apply findPlaceForTime_sound in Hsearch.
  destruct Hsearch as (Hin & Hnew & _).
  pose proof (unvisitedCount_visit allPlaces (visited st) _ Hin Hnew). lia.
Qed.

Lemma buildCourse_total :
  exists course,
    buildCourse localOffsetMs haversineDistance calculatePlaceScore allPlaces options
      startLocation userVector = Some course.
Proof.
  unfold buildCourse, loopFuel.
  destruct (routeAnchors_total (S (length allPlaces)) (anchorsToVisit options)
              (initialState options startLocation)) as [st ->]; [lia|].
  destruct (fillTime_total (S (length allPlaces)) st) as [st' ->]; [|eauto].
  pose proof (unvisitedCount_le allPlaces (visited st)). lia.
Qed.

End Invariants.

(** ** The course that [generateCourse] returns *)

Lemma generateCourse_returns localOffsetMs haversineDistance calculatePlaceScore
    allPlaces options course :
  generateCourse localOffsetMs haversineDistance calculatePlaceScore allPlaces options
    = ReturnsCourse course ->
  exists startLocation userVector,
    Options.startLocation options = Some startLocation /\
    buildCourse localOffsetMs haversineDistance calculatePlaceScore allPlaces options
      startLocation userVector = Some course.
Proof.
  unfold generateCourse.
  destruct (Options.startLocation options) as [startLocation|]; [|discriminate].
  destruct (convertToUserVector _) as [userVector|]; [|discriminate].
  destruct (buildCourse _ _ _ _ _ _ _) as [c|] eqn:E; [|discriminate].
  intros H. injection H as <-. eauto.
Qed.

(** What a call of [generateCourse] does: it returns null without a start
    venue; with one, it throws on preferences that lack one of the ten
    dimensions and returns a course on preferences that have them all.  It
    never runs out of fuel. *)
Lemma generateCourse_outcome localOffsetMs haversineDistance calculatePlaceScore
    allPlaces options :
  match Options.startLocation options with
  | None =>
      generateCourse localOffsetMs haversineDistance calculatePlaceScore allPlaces options
      = ReturnsNull
  | Some _ =>
      if isUserVector (Options.userPreferences options)
      then exists course,
          generateCourse localOffsetMs haversineDistance calculatePlaceScore allPlaces
            options = ReturnsCourse course
      else generateCourse localOffsetMs haversineDistance calculatePlaceScore allPlaces
             options = Throws (ReferenceError "INITIAL_USER_VECTOR")
  end.
Proof.
  unfold generateCourse, convertToUserVector.
  destruct (Options.startLocation options) as [startLocation|]; [|reflexivity].
  destruct (isUserVector _); [|reflexivity].
  destruct (buildCourse_total localOffsetMs haversineDistance calculatePlaceScore
              allPlaces options startLocation
              (asUserVector (Options.userPreferences options))) as [course ->].
  eauto.
Qed.

Lemma generateCourse_null_iff localOffsetMs haversineDistance calculatePlaceScore
    allPlaces options :
  generateCourse localOffsetMs haversineDistance calculatePlaceScore allPlaces options
    = ReturnsNull <->
  Options.startLocation options = None.
Proof.
  pose proof (generateCourse_outcome localOffsetMs haversineDistance
                calculatePlaceScore allPlaces options) as H.
  destruct (Options.startLocation options) as [s|]; [|tauto].
  split; [|discriminate]. intros E. rewrite E in H.
  destruct (isUserVector _); [destruct H as [c H]|]; discriminate.
Qed.

(** C3: no venue id occurs twice, in the sequence or across the steps,
    and the steps visit the sequence in order. *)
Theorem generateCourse_distinct_ids localOffsetMs haversineDistance calculatePlaceScore
    allPlaces options course :
  generateCourse localOffsetMs haversineDistance calculatePlaceScore allPlaces options
    = ReturnsCourse course ->
  List.NoDup (List.map Place.id (GeneratedCourse.sequence course)) /\
  List.NoDup (List.map (fun s => Place.id (CourseStep.place s))
                       (GeneratedCourse.steps course)) /\
  List.map CourseStep.place (GeneratedCourse.steps course) =
    GeneratedCourse.sequence course.
Proof.
  intros H. apply generateCourse_returns in H.
  destruct H as (startLocation & userVector & _ & Hbuild).
  apply buildCourse_Shape in Hbuild.
  pose proof (shape_places _ _ _ _ _ Hbuild) as Hpl.
  pose proof (shape_nodup _ _ _ _ _ Hbuild) as Hnd.
  repeat split; try assumption.
  rewrite <- Hpl, List.map_map in Hnd. exact Hnd.
Qed.

(** ** Locked steps *)

(** [pickCandidate] returns the locked place of the next index when it is
    unvisited, valid for the step and inside the step's window. *)
Lemma pickCandidate_locked localOffsetMs haversineDistance calculatePlaceScore
    allPlaces stepIndex step context locked startAt :
  lockedAt (PickContext.lockedSteps context) (stepIndex + 1) = Some locked ->
  Place.id locked ∉ PickContext.visited context ->
  isValidForStep locked step = true ->
  validateWindow localOffsetMs step
    (addMinutes (PickContext.currentTime context)
       (travelMinutes
          (distanceBetween haversineDistance (PickContext.currentPlace context) locked)
          (PickContext.transport context))) = Some startAt ->
  pickCandidate localOffsetMs haversineDistance calculatePlaceScore allPlaces
    stepIndex step context =
  Some (Pick.mk locked
          (distanceBetween haversineDistance (PickContext.currentPlace context) locked)
          startAt
          (addMinutes startAt (orElse (Place.estimatedDuration locked) 60))).
Proof.
  intros Hlock Hnew Hvalid Hwindow. unfold pickCandidate.
  rewrite Hlock, Hvalid, Hwindow.
  rewrite bool_decide_eq_false_2 by exact Hnew. reflexivity.
Qed.

(** [generateCourse] never reads [lockedSteps]: whatever is locked, the
    outcome is the one without locks. *)
Lemma generateCourse_ignores_lockedSteps localOffsetMs haversineDistance
    calculatePlaceScore allPlaces options locked :
  generateCourse localOffsetMs haversineDistance calculatePlaceScore allPlaces
    (withLockedSteps options locked) =
  generateCourse localOffsetMs haversineDistance calculatePlaceScore allPlaces options.
Proof. reflexivity. Qed.

(** ** Concrete runs *)

(** The example call walks to the art cafe, the river walk and the noodle
    house (lunch at 12:21), and stops there: the museum is out of walking
    reach. *)
Example exampleOptions_run :
  exists course,
    generateCourse kst flatDistance nearestFirst examplePool exampleOptions
      = ReturnsCourse course /\
    List.map Place.id (GeneratedCourse.sequence course) =
      ["city-hall"; "cafe-art"; "walk-river"; "rest-noodle"]%string /\
    List.map (fun s => (CourseStep.startTime s - tenOClock,
                        CourseStep.endTime s - tenOClock)%Z)
             (GeneratedCourse.steps course) =
      [(0, 0); (79920, 2779920); (2939760, 8339760); (8460000, 12060000)]%Z /\
    GeneratedCourse.totalDistance course == (6#10) /\
    GeneratedCourse.estimatedDuration course = 201%Z.
Proof.
  eexists. split; [vm_compute; reflexivity|].
  repeat split; vm_compute; reflexivity.
Qed.

(** C1, where the code fails it: with a start venue and the legacy weights
    that App.tsx passes, [generateCourse] returns neither null nor a course;
    it throws, for [INITIAL_USER_VECTOR] is not bound in courseGenerator.ts. *)
Theorem generateCourse_throws_on_legacy_weights :
  Options.startLocation legacyOptions = Some cityHall /\
  forall localOffsetMs haversineDistance calculatePlaceScore allPlaces,
    generateCourse localOffsetMs haversineDistance calculatePlaceScore allPlaces
      legacyOptions
    = Throws (ReferenceError "INITIAL_USER_VECTOR").
Proof. split; [reflexivity|]. intros. reflexivity. Qed.

Lemma generateCourse_distinct_ids_witness :
  exists course,
    generateCourse kst flatDistance nearestFirst examplePool exampleOptions
      = ReturnsCourse course /\
    List.NoDup (List.map Place.id (GeneratedCourse.sequence course)) /\
    List.NoDup (List.map (fun s => Place.id (CourseStep.place s))
                         (GeneratedCourse.steps course)) /\
    List.map CourseStep.place (GeneratedCourse.steps course) =
      GeneratedCourse.sequence course.
Proof.
  eexists. split; [vm_compute; reflexivity|].
  apply (generateCourse_distinct_ids kst flatDistance nearestFirst examplePool
           exampleOptions).
  vm_compute. reflexivity.
Defined.

(** C5, where the code fails it: the book cafe is locked at index 1, it is
    unvisited and valid for the first step, and [pickCandidate] would return
    it; [generateCourse] never calls [pickCandidate] nor reads
    [lockedSteps], runs the scored search and puts the art cafe at index 1. *)
Theorem lockedSteps_not_honoured :
  lockedAt (Options.lockedSteps lockedOptions) 1 = Some bookCafe /\
  isValidForStep bookCafe warmUp = true /\
  option_map Pick.place
    (pickCandidate kst flatDistance nearestFirst lockedPool 0 warmUp lockedContext)
    = Some bookCafe /\
  exists course,
    generateCourse kst flatDistance nearestFirst lockedPool lockedOptions
      = ReturnsCourse course /\
    GeneratedCourse.sequence course = [cityHall; artCafe; bookCafe].
Proof.
  split; [reflexivity|]. split; [reflexivity|]. split; [vm_compute; reflexivity|].
  eexists. split; vm_compute; reflexivity.
Qed.

Lemma updateUserVector_monotone_bounded_witness :
  INITIAL_USER_VECTOR Quiet <= updateUserVector artCafe LIKE INITIAL_USER_VECTOR Quiet /\
  updateUserVector artCafe DISLIKE INITIAL_USER_VECTOR Quiet <= INITIAL_USER_VECTOR Quiet /\
  unitInterval (updateUserVector artCafe LIKE INITIAL_USER_VECTOR Quiet) /\
  unitInterval (updateUserVector artCafe DISLIKE INITIAL_USER_VECTOR Quiet).
Proof.
  apply (updateUserVector_monotone_bounded artCafe INITIAL_USER_VECTOR).
  intros dim. unfold unitInterval, INITIAL_USER_VECTOR. split; discriminate.
Defined.

(** The art cafe is liked and then disliked: 0.5, 0.6, 0.4 on every
    dimension, also on those its text does not mention. *)
Example updateUserVector_artCafe :
  updateUserVector artCafe LIKE INITIAL_USER_VECTOR Seafood == (6#10) /\
  updateUserVector artCafe DISLIKE
    (updateUserVector artCafe LIKE INITIAL_USER_VECTOR) Seafood == (4#10) /\
  placeToFeatureVector artCafe Quiet = 1 /\
  placeToFeatureVector artCafe Seafood = (1#2).
Proof. repeat split; vm_compute; reflexivity. Qed.

Example travelMinutes_values :
  travelMinutes (3#10) (Some foot) == (36#10) /\
  travelMinutes 10 (Some foot) == 90 /\
  travelMinutes 4 (Some car) == 22 /\
  travelMinutes 50 (Some car) == 70.
Proof. repeat split; vm_compute; reflexivity. Qed.

(** * Further properties of the code *)

(** ** Feedback on the user vector *)

Lemma Qfloor_half (k : Z) : Qfloor (inject_Z k + (1#2)) = k.
Proof.
  pose proof (Qfloor_le (inject_Z k + (1#2))) as Hlo.
  pose proof (Qlt_floor (inject_Z k + (1#2))) as Hhi.
  set (f := Qfloor (inject_Z k + (1#2))) in *.
  rewrite inject_Z_plus in Hhi. change (inject_Z 1) with 1 in Hhi.
  assert (H1 : inject_Z f < inject_Z (k + 1)).
  { rewrite inject_Z_plus. change (inject_Z 1) with 1. lra. }
  assert (H2 : inject_Z k < inject_Z (f + 1)).
  { rewrite inject_Z_plus. change (inject_Z 1) with 1. lra. }
  rewrite <- Zlt_Qlt in H1, H2. lia.
Qed.

Lemma roundHalfUp3_grid (k : Z) x : x == (k # 1000) -> roundHalfUp3 x = (k # 1000).
Proof.
  intros E. unfold roundHalfUp3. f_equal.
  rewrite <- (Qfloor_half k). apply Qfloor_comp.
  rewrite E, (Qmake_Qdiv k 1000). field.
Qed.

(** Rounding to three decimals leaves a number with three decimals as it
    is. *)
Lemma toFixed3_grid (k : Z) x : x == (k # 1000) -> toFixed3 x == (k # 1000).
Proof.
  intros E. unfold toFixed3. destruct (Qltb x 0).
  - rewrite (roundHalfUp3_grid (- k) (- x)).
    + unfold Qopp. simpl. rewrite Z.opp_involutive. reflexivity.
    + rewrite E. reflexivity.
  - rewrite (roundHalfUp3_grid k x E). reflexivity.
Qed.

Lemma toFixed3_threeDecimals x : threeDecimals (toFixed3 x).
Proof.
  unfold toFixed3, roundHalfUp3. destruct (Qltb x 0).
  - exists (- Qfloor (- x * 1000 + (1#2)))%Z. reflexivity.
  - exists (Qfloor (x * 1000 + (1#2))). reflexivity.
Qed.

Lemma clampRounded_threeDecimals x :
  exists k : Z, (0 <= k <= 1000)%Z /\ clampRounded x == (k # 1000).
Proof.
  unfold clampRounded. destruct (toFixed3_threeDecimals x) as [k Ek].
  destruct (Z_lt_le_dec k 0) as [Hneg|Hpos]; [|destruct (Z_le_gt_dec k 1000) as [Hle|Hgt]].
  - exists 0%Z. split; [lia|]. rewrite Ek.
    assert ((k # 1000) < 0) by (unfold Qlt; simpl; lia).
    rewrite Q.max_l; [reflexivity|]. apply Q.min_le_iff. right. lra.
  - exists k. split; [lia|]. rewrite Ek.
    assert (0 <= (k # 1000)) by (unfold Qle; simpl; lia).
    assert ((k # 1000) <= 1) by (unfold Qle; simpl; lia).
    rewrite Q.min_r by assumption. rewrite Q.max_r by assumption. reflexivity.
  - exists 1000%Z. split; [lia|]. rewrite Ek.
    assert (1 <= (k # 1000)) by (unfold Qle; simpl; lia).
    rewrite Q.min_l by assumption. rewrite Q.max_r by lra. reflexivity.
Qed.

(** X1: whatever the vector, the place and the action, every dimension of
    the updated vector is a whole number of thousandths between 0 and 1. *)
Theorem updateUserVector_thousandths place action current dim :
  exists k : Z,
    (0 <= k <= 1000)%Z /\
    updateUserVector place action current dim == (k # 1000).
Proof.
  rewrite updateUserVector_at, placeToFeatureVector_positive.
  apply clampRounded_threeDecimals.
Qed.

Lemma thousandths_plus (k d : Z) : (k + d # 1000) == (k # 1000) + (d # 1000).
Proof. unfold Qeq, Qplus. simpl. lia. Qed.

Lemma actionDelta_thousandths action :
  actionDelta action == ((match action with LIKE => 100 | DISLIKE => -200 end)%Z # 1000).
Proof. destruct action; reflexivity. Qed.

Lemma updateUserVector_on_thousandths place action current dim :
  threeDecimals (current dim) ->
  updateUserVector place action current dim ==
  Qmax 0 (Qmin 1 (current dim + actionDelta action)).
Proof.
  intros [k Ek]. rewrite updateUserVector_at, placeToFeatureVector_positive.
  unfold clampRounded.
  set (d := (match action with LIKE => 100 | DISLIKE => -200 end)%Z).
  assert (Esum : current dim + actionDelta action == (k + d # 1000)).
  { rewrite thousandths_plus, Ek, actionDelta_thousandths. reflexivity. }
  rewrite (toFixed3_grid (k + d) _ Esum), Esum. reflexivity.
Qed.

(** X2: on a dimension that holds a number with three decimals, the update
    is exact: the dimension plus 0.1 (LIKE) or minus 0.2 (DISLIKE), cut to
    [0,1]; the rounding changes nothing. *)
Theorem updateUserVector_exact place action current dim :
  threeDecimals (current dim) ->
  updateUserVector place action current dim ==
  Qmax 0 (Qmin 1 (current dim + actionDelta action)).
Proof. apply updateUserVector_on_thousandths. Qed.

Lemma updateUserVector_exact_witness :
  updateUserVector artCafe DISLIKE INITIAL_USER_VECTOR Rice ==
  Qmax 0 (Qmin 1 (INITIAL_USER_VECTOR Rice + actionDelta DISLIKE)).
Proof.
  apply (updateUserVector_exact artCafe DISLIKE INITIAL_USER_VECTOR Rice).
  exists 500%Z. reflexivity.
Defined.

(** X3: a LIKE does not undo a DISLIKE.  On a dimension with three decimals
    between 0.2 and 0.9, a LIKE and a DISLIKE of any two places, in either
    order, leave the dimension 0.1 lower. *)
Theorem like_and_dislike_net_loss placeA placeB current dim :
  threeDecimals (current dim) -> (2#10) <= current dim -> current dim <= (9#10) ->
  updateUserVector placeB DISLIKE (updateUserVector placeA LIKE current) dim ==
    current dim - (1#10) /\
  updateUserVector placeB LIKE (updateUserVector placeA DISLIKE current) dim ==
    current dim - (1#10).
Proof.
  intros H3 Hlo Hhi.
  assert (Elike : updateUserVector placeA LIKE current dim == current dim + (1#10)).
  { rewrite (updateUserVector_on_thousandths _ _ _ _ H3). simpl actionDelta.
    rewrite Q.min_r by lra. apply Q.max_r. lra. }
  assert (Edis : updateUserVector placeA DISLIKE current dim == current dim - (2#10)).
  { rewrite (updateUserVector_on_thousandths _ _ _ _ H3). simpl actionDelta.
    rewrite Q.min_r by lra. rewrite Q.max_r by lra. reflexivity. }
  destruct H3 as [k Ek]. split.
  - rewrite updateUserVector_on_thousandths.
    + rewrite Elike. simpl actionDelta.
      rewrite Q.min_r by lra. rewrite Q.max_r by lra. lra.
    + exists (k + 100)%Z. rewrite Elike, Ek, thousandths_plus.
      apply Qplus_comp; reflexivity.
  - rewrite updateUserVector_on_thousandths.
    + rewrite Edis. simpl actionDelta.
      rewrite Q.min_r by lra. rewrite Q.max_r by lra. lra.
    + exists (k + -200)%Z. rewrite Edis, Ek, thousandths_plus.
      apply Qplus_comp; reflexivity.
Qed.

Lemma like_and_dislike_net_loss_witness :
  updateUserVector noodleHouse DISLIKE
    (updateUserVector artCafe LIKE INITIAL_USER_VECTOR) Noodle ==
    INITIAL_USER_VECTOR Noodle - (1#10) /\
  updateUserVector noodleHouse LIKE
    (updateUserVector artCafe DISLIKE INITIAL_USER_VECTOR) Noodle ==
    INITIAL_USER_VECTOR Noodle - (1#10).
Proof.
  apply (like_and_dislike_net_loss artCafe noodleHouse INITIAL_USER_VECTOR Noodle).
  - exists 500%Z. reflexivity.
  - discriminate.
  - discriminate.
Defined.

(** ** Feedback *)

Lemma applyFeedback_snoc history place action :
  applyFeedback (history ++ [(place, action)]) =
  updateUserVector place action (applyFeedback history).
Proof. unfold applyFeedback. rewrite fold_left_app. reflexivity. Qed.

Lemma applyFeedback_constant history dim dim' :
  applyFeedback history dim = applyFeedback history dim'.
Proof.
  induction history as [|[place action] history IH] using rev_ind; [reflexivity|].
  rewrite applyFeedback_snoc, !updateUserVector_at, !placeToFeatureVector_positive, IH.
  reflexivity.
Qed.

(** X5: after any history of feedback all ten dimensions of the user vector
    hold the same number, between 0 and 1: every update moves all ten by the
    same delta, whatever the place. *)
Theorem applyFeedback_uniform history :
  exists x, unitInterval x /\ forall dim, applyFeedback history dim = x.
Proof.
  exists (applyFeedback history Meat). split.
  - destruct history as [|[place action] history] using rev_ind.
    + split; discriminate.
    + rewrite applyFeedback_snoc, updateUserVector_at, placeToFeatureVector_positive.
      apply clampRounded_range.
  - intros dim. apply applyFeedback_constant.
Qed.

(** ** Feature vectors *)

Lemma read_setIf_other (c : bool) (v : UserVector) dim x d :
  VectorDimension_eqb d dim = false ->
  (if c then vset v dim x else v) d = v d.
Proof. intros H. destruct c; [|reflexivity]. unfold vset. rewrite H. reflexivity. Qed.

Lemma read_setIf_same (c : bool) (v : UserVector) dim x :
  (if c then vset v dim x else v) dim = if c then x else v dim.
Proof.
  destruct c; [|reflexivity]. unfold vset. rewrite VectorDimension_eqb_refl. reflexivity.
Qed.

Lemma read_cascade_other (c c' : bool) (v : UserVector) dim x x' d :
  VectorDimension_eqb d dim = false ->
  (if c then vset v dim x else if c' then vset v dim x' else v) d = v d.
Proof. intros H. destruct c, c'; unfold vset; rewrite ?H; reflexivity. Qed.

Lemma read_cascade_same (c c' : bool) (v : UserVector) dim x x' :
  (if c then vset v dim x else if c' then vset v dim x' else v) dim =
  if c then x else if c' then x' else v dim.
Proof. destruct c, c'; unfold vset; rewrite ?VectorDimension_eqb_refl; reflexivity. Qed.

Lemma read_setEither (c : bool) (v : UserVector) dim x dim' x' d :
  (if c then vset v dim x else vset v dim' x') d =
  if c then (if VectorDimension_eqb d dim then x else v d)
  else (if VectorDimension_eqb d dim' then x' else v d).
Proof. destruct c; reflexivity. Qed.

Lemma read_setEither_other (c : bool) (v : UserVector) dim x dim' x' d :
  VectorDimension_eqb d dim = false -> VectorDimension_eqb d dim' = false ->
  (if c then vset v dim x else vset v dim' x') d = v d.
Proof. intros H H'. destruct c; unfold vset; rewrite ?H, ?H'; reflexivity. Qed.

Lemma if_congr_else {A : Type} (c : bool) (x y y' : A) :
  y = y' -> (if c then x else y) = (if c then x else y').
Proof. intros ->. reflexivity. Qed.

Lemma if_congr_else2 {A : Type} (c c' : bool) (x x' y y' : A) :
  y = y' ->
  (if c then x else if c' then x' else y) = (if c then x else if c' then x' else y').
Proof. intros ->. reflexivity. Qed.

(** One assignment of [placeToFeatureVector] less, read at a dimension that
    it does not assign. *)
Ltac skip_assignment :=
  etransitivity;
  [ first [ apply read_cascade_other; reflexivity
          | apply read_setIf_other; reflexivity
          | apply read_setEither_other; reflexivity ] | ].

(** The assignment of a keyword group, read at its own dimension. *)
Ltac read_assignment :=
  etransitivity; [ apply read_setIf_same | ]; apply if_congr_else.

Ltac read_dimension :=
  unfold placeToFeatureVector; cbv zeta;
  repeat skip_assignment; read_assignment; repeat skip_assignment; reflexivity.

Lemma placeToFeatureVector_Meat place :
  placeToFeatureVector place Meat =
  if mentions place "steak" || mentions place "meat" || mentions place "bbq" ||
     mentions place "grill" then 1 else (1#2).
Proof. read_dimension. Qed.

Lemma placeToFeatureVector_Seafood place :
  placeToFeatureVector place Seafood =
  if mentions place "seafood" || mentions place "fish" || mentions place "sushi" ||
     mentions place "sashimi" then 1 else (1#2).
Proof. read_dimension. Qed.

Lemma placeToFeatureVector_Noodle place :
  placeToFeatureVector place Noodle =
  if mentions place "noodle" || mentions place "ramen" || mentions place "udon" ||
     mentions place "soba" then 1 else (1#2).
Proof. read_dimension. Qed.

Lemma placeToFeatureVector_Rice place :
  placeToFeatureVector place Rice =
  if mentions place "rice" || mentions place "bibimbap" || mentions place "gukbap"
  then 1 else (1#2).
Proof. read_dimension. Qed.

Lemma placeToFeatureVector_Bread place :
  placeToFeatureVector place Bread =
  if PlaceType_eqb (Place.type place) bakery || mentions place "bread" ||
     mentions place "bakery" || mentions place "pastry" then 1 else (1#2).
Proof. read_dimension. Qed.

Lemma placeToFeatureVector_Quiet place :
  placeToFeatureVector place Quiet =
  if mentions place "quiet" || mentions place "peaceful" || mentions place "serene" ||
     PlaceType_eqb (Place.type place) culture then 1 else (1#2).
Proof. read_dimension. Qed.

Lemma placeToFeatureVector_Active place :
  placeToFeatureVector place Active =
  if mentions place "active" || mentions place "sport" || mentions place "adventure" ||
     PlaceType_eqb (Place.type place) activity then 1 else (1#2).
Proof. read_dimension. Qed.

Lemma placeToFeatureVector_Indoor place :
  placeToFeatureVector place Indoor = if Place.isIndoor place then 1 else (1#2).
Proof.
  unfold placeToFeatureVector. cbv zeta. repeat skip_assignment.
  etransitivity; [apply read_setEither|]. simpl VectorDimension_eqb.
  apply if_congr_else. repeat skip_assignment. reflexivity.
Qed.

Lemma placeToFeatureVector_Nature place :
  placeToFeatureVector place Nature =
  if mentions place "park" || mentions place "garden" || mentions place "nature" ||
     PlaceType_eqb (Place.type place) landmark
  then (4#5)
  else if Place.isIndoor place then (1#2) else 1.
Proof.
  unfold placeToFeatureVector. cbv zeta. repeat skip_assignment.
  read_assignment.
  etransitivity; [apply read_setEither|]. simpl VectorDimension_eqb.
  destruct (Place.isIndoor place); [|reflexivity].
  repeat skip_assignment. reflexivity.
Qed.

Lemma placeToFeatureVector_Luxury place :
  placeToFeatureVector place Luxury =
  if mentions place "luxury" || mentions place "premium" ||
     mentions place "fine dining" || mentions place "gourmet"
  then 1
  else if mentions place "steak" || mentions place "lounge" || mentions place "dining"
  then (4#5) else (1#2).
Proof.
  unfold placeToFeatureVector. cbv zeta.
  etransitivity; [apply read_cascade_same|]. apply if_congr_else2.
  repeat skip_assignment. reflexivity.
Qed.

(** X7: [placeToFeatureVector], dimension by dimension.  Each dimension
    depends on its own keywords, type or flag only: the four food dimensions
    and Bread, Quiet and Active are 1 on a match and 0.5 otherwise; Indoor is
    1 for an indoor place; Nature is 0.8 on a park, garden or nature keyword
    or for a landmark, and else 1 outdoors and 0.5 indoors; Luxury is 1, 0.8
    or 0.5. *)
Theorem placeToFeatureVector_by_dimension place :
  let has := mentions place in
  let isType := PlaceType_eqb (Place.type place) in
  placeToFeatureVector place Meat =
    (if has "steak" || has "meat" || has "bbq" || has "grill" then 1 else (1#2)) /\
  placeToFeatureVector place Seafood =
    (if has "seafood" || has "fish" || has "sushi" || has "sashimi" then 1 else (1#2)) /\
  placeToFeatureVector place Noodle =
    (if has "noodle" || has "ramen" || has "udon" || has "soba" then 1 else (1#2)) /\
  placeToFeatureVector place Rice =
    (if has "rice" || has "bibimbap" || has "gukbap" then 1 else (1#2)) /\
  placeToFeatureVector place Bread =
    (if isType bakery || has "bread" || has "bakery" || has "pastry" then 1 else (1#2)) /\
  placeToFeatureVector place Quiet =
    (if has "quiet" || has "peaceful" || has "serene" || isType culture
     then 1 else (1#2)) /\
  placeToFeatureVector place Active =
    (if has "active" || has "sport" || has "adventure" || isType activity
     then 1 else (1#2)) /\
  placeToFeatureVector place Indoor = (if Place.isIndoor place then 1 else (1#2)) /\
  placeToFeatureVector place Nature =
    (if has "park" || has "garden" || has "nature" || isType landmark
     then (4#5) else if Place.isIndoor place then (1#2) else 1) /\
  placeToFeatureVector place Luxury =
    (if has "luxury" || has "premium" || has "fine dining" || has "gourmet"
     then 1
     else if has "steak" || has "lounge" || has "dining" then (4#5) else (1#2)).
Proof.
  cbv zeta.
  repeat split;
    [ apply placeToFeatureVector_Meat | apply placeToFeatureVector_Seafood
    | apply placeToFeatureVector_Noodle | apply placeToFeatureVector_Rice
    | apply placeToFeatureVector_Bread | apply placeToFeatureVector_Quiet
    | apply placeToFeatureVector_Active | apply placeToFeatureVector_Indoor
    | apply placeToFeatureVector_Nature | apply placeToFeatureVector_Luxury ].
Qed.

(** X8: what the type and the indoor flag alone decide.  A bakery has
    Bread 1, a culture place Quiet 1, an activity Active 1; a landmark has
    Nature 0.8, also outdoors, where other places without a nature keyword
    have 1; an indoor place never has Nature 1 and an outdoor place never
    has it at 0.5. *)
Theorem placeToFeatureVector_by_type place :
  (Place.type place = bakery -> placeToFeatureVector place Bread = 1) /\
  (Place.type place = culture -> placeToFeatureVector place Quiet = 1) /\
  (Place.type place = activity -> placeToFeatureVector place Active = 1) /\
  (Place.type place = landmark -> placeToFeatureVector place Nature = (4#5)) /\
  (Place.isIndoor place = true -> placeToFeatureVector place Nature <> 1) /\
  (Place.isIndoor place = false -> placeToFeatureVector place Nature <> (1#2)).
Proof.
  rewrite placeToFeatureVector_Bread, placeToFeatureVector_Quiet,
    placeToFeatureVector_Active, !placeToFeatureVector_Nature.
  repeat split.
  - intros ->. reflexivity.
  - intros ->. rewrite orb_true_r. reflexivity.
  - intros ->. rewrite orb_true_r. reflexivity.
  - intros ->. rewrite orb_true_r. reflexivity.
  - intros ->. destruct (_ || _); discriminate.
  - intros ->. destruct (_ || _); discriminate.
Qed.

(** ** Keywords *)

Lemma prefix_append sub a b :
  String.prefix sub a = true -> String.prefix sub (a +:+ b) = true.
Proof.
  revert a. induction sub as [|c sub IH]; intros a H;
    [destruct (a +:+ b); reflexivity|].
  destruct a as [|c' a]; [discriminate|]. simpl in *.
  destruct (ascii_dec c c'); [|discriminate]. apply IH. exact H.
Qed.

Lemma includes_append_l a b sub :
  includes a sub = true -> includes (a +:+ b) sub = true.
Proof.
  induction a as [|c a IH]; simpl; intros H.
  - rewrite orb_false_r in H. destruct sub; [|discriminate].
    destruct b; reflexivity.
  - apply orb_true_iff in H. apply orb_true_iff. destruct H as [H|H].
    + left. apply (prefix_append sub (String c a) b H).
    + right. apply IH. exact H.
Qed.

Lemma includes_append_r a b sub :
  includes b sub = true -> includes (a +:+ b) sub = true.
Proof.
  intros H. induction a as [|c a IH]; simpl; [exact H|].
  rewrite IH. apply orb_true_r.
Qed.

Lemma toLowerCase_idempotent s : toLowerCase (toLowerCase s) = toLowerCase s.
Proof.
  induction s as [|c s IH]; [reflexivity|]. simpl. rewrite IH. f_equal.
  unfold lowerAscii.
  destruct ((65 <=? nat_of_ascii c)%nat && (nat_of_ascii c <=? 90)%nat) eqn:E.
  - apply andb_true_iff in E. destruct E as [E1 E2].
    apply Nat.leb_le in E1, E2.
    rewrite nat_ascii_embedding by lia.
    replace ((65 <=? nat_of_ascii c + 32)%nat && (nat_of_ascii c + 32 <=? 90)%nat)
      with false; [reflexivity|].
    symmetry. apply andb_false_iff. right. apply Nat.leb_gt. lia.
  - rewrite E. reflexivity.
Qed.

(** X9: the keyword search of [placeToFeatureVector] reads the name and the
    description and ignores the case of the letters A to Z: a keyword that
    the lower-cased name or the lower-cased description contains is found,
    and a place described in capitals gets the same feature vector. *)
Theorem mentions_name_or_description place keyword :
  (includes (toLowerCase (Place.name place)) keyword = true \/
   includes (toLowerCase (Place.description place)) keyword = true ->
   mentions place keyword = true) /\
  (forall place',
      toLowerCase (Place.name place') = toLowerCase (Place.name place) ->
      toLowerCase (Place.description place') = toLowerCase (Place.description place) ->
      Place.type place' = Place.type place ->
      Place.isIndoor place' = Place.isIndoor place ->
      forall dim, placeToFeatureVector place' dim = placeToFeatureVector place dim).
Proof.
  split.
  - unfold mentions, combinedText. intros [H|H].
    + apply includes_append_l. exact H.
    + apply includes_append_r, includes_append_r. exact H.
  - intros place' Hname Hdesc Htype Hindoor dim.
    unfold placeToFeatureVector. rewrite Hname, Hdesc, Htype, Hindoor. reflexivity.
Qed.

Lemma mentions_name_or_description_witness :
  mentions noodleHouse "ramen" = true.
Proof.
  apply (mentions_name_or_description noodleHouse "ramen").
  right. reflexivity.
Defined.

(** ** The terms of the score *)

Section ScoreTerms.

Import Scoring.

(** The weather term.  An indoor place gets 0 or +30, and +30 exactly
    when it rains; an outdoor place never gets a bonus, loses at least 200
    in the rain, and at most 250 in all. *)
Theorem calculateWeatherPenalty_by_place isRainy temperature :
  (calculateWeatherPenalty isRainy temperature false ==
     (if isRainy then 30 else 0)) /\
  calculateWeatherPenalty isRainy temperature true <= 0 /\
  -250 <= calculateWeatherPenalty isRainy temperature true /\
  (isRainy = true -> calculateWeatherPenalty isRainy temperature true <= -200) /\
  (isRainy = false ->
   calculateWeatherPenalty isRainy temperature true ==
     (if Qltb 30 temperature || Qltb temperature 0 then -50 else 0)).
Proof.
  unfold calculateWeatherPenalty.
  destruct isRainy, (Qltb 30 temperature || Qltb temperature 0);
    repeat split; try discriminate; try reflexivity.
Qed.

Lemma exp_ge_1 x : (0 <= x)%R -> (1 <= exp x)%R.
Proof.
  intros [H|<-]; [|rewrite exp_0; Lra.lra].
  left. rewrite <- exp_0. apply exp_increasing. exact H.
Qed.

Lemma exp_monotone x y : (x <= y)%R -> (exp x <= exp y)%R.
Proof.
  intros [H|<-]; [|Lra.lra]. left. apply exp_increasing. exact H.
Qed.

Lemma Rmax_exp_term x k :
  (0 <= x)%R -> (0 < k)%R -> Rmax 0 ((exp x - 1) * k) = ((exp x - 1) * k)%R.
Proof.
  intros Hx Hk. apply Rmax_right. pose proof (exp_ge_1 x Hx). Lra.nra.
Qed.

Lemma Q2R_nonneg q : 0 <= q -> (0 <= Q2R q)%R.
Proof. intros H. rewrite <- RMicromega.Q2R_0. apply Qle_Rle. exact H. Qed.

(** X10: the distance term is never positive, is 0 at distance 0, and does
    not grow with the distance, on foot and by car; on foot it is -200
    beyond 1.5 km and more than -200 up to 1.5 km. *)
Theorem calculateDistancePenalty_monotone transport d1 d2 :
  (calculateDistancePenalty d1 transport <= 0)%R /\
  (d1 == 0 -> calculateDistancePenalty d1 transport = 0%R) /\
  (0 <= d1 -> d1 <= d2 ->
   (calculateDistancePenalty d2 transport <= calculateDistancePenalty d1 transport)%R) /\
  ((3#2) < d1 -> calculateDistancePenalty d1 foot = (-200)%R) /\
  (0 <= d1 -> d1 <= (3#2) -> (-60 <= calculateDistancePenalty d1 foot)%R).
Proof.
  assert (Hneg : forall x k, (- Rmax 0 ((exp x - 1) * k) <= 0)%R).
  { intros x k. pose proof (Rmax_l 0 ((exp x - 1) * k)). Lra.lra. }
  assert (Hfoot : forall d, 0 <= d -> d <= (3#2) ->
            (-60 <= - Rmax 0 ((exp (Q2R d / 5) - 1) * 30))%R).
  { intros d H0 H1. apply Q2R_nonneg in H0. apply Qle_Rle in H1.
    replace (Q2R (3#2)) with (3/2)%R in H1 by (unfold Q2R; simpl; Lra.lra).
    rewrite Rmax_exp_term by Lra.lra.
    pose proof (exp_monotone (Q2R d / 5) 1 ltac:(Lra.lra)) as He.
    pose proof exp_le_3. Lra.lra. }
  split; [|split; [|split; [|split]]].
  - unfold calculateDistancePenalty. destruct transport; [apply Hneg|].
    destruct (Qltb (3#2) d1); [Lra.lra | apply Hneg].
  - intros E. unfold calculateDistancePenalty.
    rewrite (Qeq_eqR _ _ E), RMicromega.Q2R_0.
    assert (Ez : forall k, (- Rmax 0 ((exp (0 / k) - 1) * k * 1))%R = 0%R).
    { intros k. unfold Rdiv. rewrite Rmult_0_l, exp_0.
      replace ((1 - 1) * k * 1)%R with 0%R by ring.
      rewrite Rmax_left by Lra.lra. ring. }
    destruct transport.
    + pose proof (Ez 10%R) as H. unfold Rdiv in *. rewrite Rmult_0_l, exp_0 in *.
      replace ((1 - 1) * 20)%R with 0%R by ring. rewrite Rmax_left by Lra.lra. ring.
    + destruct (Qltb (3#2) d1) eqn:Hfar.
      * apply Qltb_lt in Hfar. rewrite E in Hfar. discriminate.
      * unfold Rdiv. rewrite Rmult_0_l, exp_0.
        replace ((1 - 1) * 30)%R with 0%R by ring. rewrite Rmax_left by Lra.lra. ring.
  - intros H0 Hle. unfold calculateDistancePenalty.
    pose proof (Q2R_nonneg d1 H0) as H0'. pose proof (Qle_Rle _ _ Hle) as Hle'.
    destruct transport.
    + rewrite !Rmax_exp_term by Lra.lra.
      pose proof (exp_monotone (Q2R d1 / 10) (Q2R d2 / 10) ltac:(Lra.lra)). Lra.lra.
    + destruct (Qltb (3#2) d2) eqn:Hfar2; destruct (Qltb (3#2) d1) eqn:Hfar1.
      * Lra.lra.
      * apply Qltb_ge in Hfar1. pose proof (Hfoot d1 H0 Hfar1). Lra.lra.
      * apply Qltb_lt in Hfar1. apply Qltb_ge in Hfar2. exfalso. lra.
      * rewrite !Rmax_exp_term by Lra.lra.
        pose proof (exp_monotone (Q2R d1 / 5) (Q2R d2 / 5) ltac:(Lra.lra)). Lra.lra.
  - intros Hfar. unfold calculateDistancePenalty.
    apply Qltb_lt in Hfar. rewrite Hfar. reflexivity.
  - intros H0 H1. unfold calculateDistancePenalty.
    apply Qltb_ge in H1. rewrite H1. apply Qltb_ge in H1. apply Hfoot; assumption.
Qed.

Lemma calculateDistancePenalty_monotone_witness :
  (calculateDistancePenalty 2 car <= calculateDistancePenalty 1 car)%R.
Proof.
  apply (calculateDistancePenalty_monotone car 1 2); discriminate.
Defined.

(** The companion term.  With a partner it is between -50 and +70,
    with family between -180 and +45, with a friend 0 or +20, alone 0 or
    +15; with family a bar never gets a bonus: it loses at least 80. *)
Theorem calculateCompanionBonus_bounds place :
  (-50 <= calculateCompanionBonus place partner <= 70) /\
  (-180 <= calculateCompanionBonus place family <= 45) /\
  (calculateCompanionBonus place friend == 0 \/
   calculateCompanionBonus place friend == 20) /\
  (calculateCompanionBonus place solo == 0 \/
   calculateCompanionBonus place solo == 15) /\
  (Place.type place = bar -> calculateCompanionBonus place family <= -80).
Proof.
  unfold calculateCompanionBonus. cbv zeta.
  split; [|split; [|split; [|split]]].
  - destruct (_ || _ || _), (_ || _ || _), (_ || _ || _); split; discriminate.
  - destruct (Place.isIndoor place), (_ || _ || _), (PlaceType_eqb _ bar),
      (_ || _ || _); split; discriminate.
  - destruct (_ || _ || _); [right | left]; reflexivity.
  - destruct (_ || _ || _); [right | left]; reflexivity.
  - intros ->. simpl PlaceType_eqb. simpl orb.
    destruct (Place.isIndoor place), (_ || _ || _); discriminate.
Qed.

End ScoreTerms.

(** ** The score *)

Section Score.

Import Scoring.

Lemma calculateDiversityPenalty_eq place selectedPlaces :
  Q2R (calculateDiversityPenalty place selectedPlaces) =
  ((6 / 10) ^ typeCount place selectedPlaces)%R.
Proof.
  rewrite <- Q2R_power_nat. apply Qeq_eqR.
  unfold calculateDiversityPenalty, typeCount.
  destruct selectedPlaces; reflexivity.
Qed.

Lemma pow_six_tenths_range n : (0 < (6 / 10) ^ n <= 1)%R.
Proof.
  induction n as [|n IH]; simpl; Lra.nra.
Qed.

Lemma pow_six_tenths_antitone n m : (n <= m)%nat -> ((6 / 10) ^ m <= (6 / 10) ^ n)%R.
Proof.
  induction 1 as [|m Hle IH]; [Lra.lra|].
  simpl. pose proof (pow_six_tenths_range m). Lra.nra.
Qed.

Lemma typeCount_cons place p selectedPlaces :
  (typeCount place selectedPlaces <= typeCount place (p :: selectedPlaces))%nat.
Proof.
  unfold typeCount. simpl. destruct (PlaceType_eqb _ _); simpl; lia.
Qed.

Lemma similarity_of_place_range userVector place :
  (forall dim, 0 <= userVector dim) ->
  (0 <= cosineSimilarity userVector (placeToFeatureVector place) <= 1)%R.
Proof.
  intros H. apply cosineSimilarity_range; [exact H|].
  intros dim. destruct (placeToFeatureVector_values place dim) as [E|[E|E]];
    rewrite E; discriminate.
Qed.

(** The score as the sum of its five terms. *)
Lemma calculatePlaceScore_sum place context :
  calculatePlaceScore place context =
  (cosineSimilarity (ScoreContext.userVector context) (placeToFeatureVector place) * 100 *
     (6 / 10) ^ typeCount place (ScoreContext.selectedPlaces context)
   + Q2R (calculateWeatherPenalty (ScoreContext.isRainy context)
            (ScoreContext.temperature context) (negb (Place.isIndoor place)))
   + Q2R (calculateKeywordScore place)
   + calculateDistancePenalty (orZero (ScoreContext.distanceKm context))
       (default foot (ScoreContext.transport context))
   + match ScoreContext.companion context with
     | Some companion => Q2R (calculateCompanionBonus place companion)
     | None => 0
     end)%R.
Proof.
  unfold calculatePlaceScore, isIndoor. cbv zeta.
  rewrite calculateDiversityPenalty_eq.
  destruct (ScoreContext.companion context); ring.
Qed.

(** X12: a place scores no higher once one more place is on the list of
    selected places (for a user vector without negative dimensions), and no
    lower if the added place is of another type. *)
Theorem calculatePlaceScore_diversity place context selected :
  (forall dim, 0 <= ScoreContext.userVector context dim) ->
  (calculatePlaceScore place
     (withSelectedPlaces context (selected :: ScoreContext.selectedPlaces context))
   <= calculatePlaceScore place context)%R /\
  (PlaceType_eqb (Place.type selected) (Place.type place) = false ->
   ScoreContext.selectedPlaces context <> [] ->
   calculatePlaceScore place
     (withSelectedPlaces context (selected :: ScoreContext.selectedPlaces context))
   = calculatePlaceScore place context).
Proof.
  intros Hvec. rewrite !calculatePlaceScore_sum. cbn [withSelectedPlaces
    ScoreContext.userVector ScoreContext.selectedPlaces ScoreContext.isRainy
    ScoreContext.temperature ScoreContext.distanceKm ScoreContext.transport
    ScoreContext.companion].
  pose proof (similarity_of_place_range _ place Hvec) as Hsim.
  split.
  - pose proof (pow_six_tenths_antitone _ _
                  (typeCount_cons place selected (ScoreContext.selectedPlaces context))).
    repeat apply Rplus_le_compat_r. Lra.nra.
  - intros Hother _. unfold typeCount. simpl List.filter. rewrite Hother. reflexivity.
Qed.

End Score.

Lemma INITIAL_USER_VECTOR_nonneg dim : 0 <= INITIAL_USER_VECTOR dim.
Proof. destruct dim; discriminate. Qed.

Lemma calculatePlaceScore_diversity_witness :
  (Scoring.calculatePlaceScore artCafe
     (withSelectedPlaces rainyContext (bookCafe :: ScoreContext.selectedPlaces rainyContext))
   <= Scoring.calculatePlaceScore artCafe rainyContext)%R.
Proof.
  apply (calculatePlaceScore_diversity artCafe rainyContext bookCafe).
  exact INITIAL_USER_VECTOR_nonneg.
Defined.

(** ** Dates and windows *)

Ltac euclid := Z.to_euclidean_division_equations; lia.

Lemma minutesSinceMidnight_of_minutes localOffsetMs date :
  minutesSinceMidnight localOffsetMs date =
  (((date + localOffsetMs) / msPerMinute) mod 1440)%Z.
Proof.
  unfold minutesSinceMidnight, getHours, getMinutes, msPerHour, msPerMinute.
  set (L := (date + localOffsetMs)%Z). euclid.
Qed.

Lemma minutesSinceMidnight_range localOffsetMs date :
  (0 <= minutesSinceMidnight localOffsetMs date < 1440)%Z.
Proof. rewrite minutesSinceMidnight_of_minutes. euclid. Qed.

(** The local time of [setHours] on a minute of the day. *)
Lemma setHours_local localOffsetMs date m :
  (0 <= m)%Z ->
  (setHours localOffsetMs date (m / 60) (Z.rem m 60) + localOffsetMs =
   (date + localOffsetMs) / msPerDay * msPerDay + m * msPerMinute)%Z.
Proof.
  intros Hm. unfold setHours, msPerDay, msPerHour, msPerMinute.
  rewrite Z.rem_mod_nonneg by lia.
  set (L := (date + localOffsetMs)%Z). euclid.
Qed.

Lemma minutesSinceMidnight_setHours localOffsetMs date m :
  (0 <= m < 1440)%Z ->
  minutesSinceMidnight localOffsetMs (setHours localOffsetMs date (m / 60) (Z.rem m 60)) = m.
Proof.
  intros Hm. rewrite minutesSinceMidnight_of_minutes, setHours_local by lia.
  unfold msPerDay, msPerMinute.
  set (D := ((date + localOffsetMs) / 86400000)%Z).
  replace (D * 86400000 + m * 60000)%Z with ((D * 1440 + m) * 60000)%Z by ring.
  rewrite Z.div_mul by lia. euclid.
Qed.

(** The window check at a constant offset.  An arrival is refused exactly
    when its minute of the day is after the end of the window.  Otherwise
    the stay starts on a whole minute, at the later of the arrival minute
    and the start of the window. *)
Lemma startOfWindow_local localOffsetMs arriveAt w :
  let arriveMinutes := minutesSinceMidnight localOffsetMs arriveAt in
  (startOfWindow localOffsetMs arriveAt w = None <-> (endMinutes w < arriveMinutes)%Z) /\
  forall startAt,
    startOfWindow localOffsetMs arriveAt w = Some startAt ->
    ((startAt + localOffsetMs) mod msPerMinute = 0)%Z /\
    (startMinutes w < 1440 ->
     minutesSinceMidnight localOffsetMs startAt = Z.max arriveMinutes (startMinutes w))%Z /\
    (arriveMinutes < startMinutes w -> arriveAt < startAt)%Z /\
    (startMinutes w <= arriveMinutes -> arriveAt - msPerMinute < startAt <= arriveAt)%Z.
Proof.
  cbv zeta. unfold startOfWindow.
  pose proof (minutesSinceMidnight_range localOffsetMs arriveAt) as Hrange.
  destruct (_ >? _)%Z eqn:Hlate.
  - split; [split; [lia | reflexivity]|]. discriminate.
  - split; [split; [discriminate | lia]|].
    intros startAt [= <-].
    pose proof (minutesSinceMidnight_of_minutes localOffsetMs arriveAt) as Eam.
    set (am := minutesSinceMidnight localOffsetMs arriveAt) in *.
    set (m := Z.max am (startMinutes w)).
    assert (Hm : (0 <= m)%Z) by lia.
    pose proof (setHours_local localOffsetMs arriveAt m Hm) as Hlocal.
    split; [|split; [|split]].
    + rewrite Hlocal. unfold msPerDay, msPerMinute. euclid.
    + intros Hws. apply minutesSinceMidnight_setHours. lia.
    + intros Hearly. assert (Em : m = startMinutes w) by lia.
      set (S := setHours localOffsetMs arriveAt (m / 60) (Z.rem m 60)) in *.
      unfold msPerDay, msPerMinute in *.
      set (L := (arriveAt + localOffsetMs)%Z) in *.
      assert (HL : (arriveAt = L - localOffsetMs)%Z) by (unfold L; lia).
      clearbody S L am. euclid.
    + intros Hin. assert (Em : m = am) by lia.
      set (S := setHours localOffsetMs arriveAt (m / 60) (Z.rem m 60)) in *.
      unfold msPerDay, msPerMinute in *.
      set (L := (arriveAt + localOffsetMs)%Z) in *.
      assert (HL : (arriveAt = L - localOffsetMs)%Z) by (unfold L; lia).
      clearbody S L am. euclid.
Qed.

Lemma truncQ_inject z : truncQ (inject_Z z) = z.
Proof.
  unfold truncQ. destruct (Qle_bool 0 (inject_Z z)); [apply Qfloor_Z | apply Qceiling_Z].
Qed.

Lemma truncQ_monotone q q' : q <= q' -> (truncQ q <= truncQ q')%Z.
Proof.
  intros Hle. unfold truncQ.
  destruct (Qle_bool 0 q) eqn:E; destruct (Qle_bool 0 q') eqn:E'.
  - apply Qfloor_resp_le. exact Hle.
  - apply Qle_bool_iff in E. assert (0 <= q') by lra.
    apply Qle_bool_iff in H. congruence.
  - assert (Hneg : q < 0).
    { apply Qnot_le_lt. intros H. apply Qle_bool_iff in H. congruence. }
    apply Qle_bool_iff in E'.
    pose proof (Qceiling_lt q) as Hc. pose proof (Qfloor_le q') as Hf.
    pose proof (Qlt_floor q') as Hf'.
    assert (H2 : inject_Z (Qceiling q - 1) < inject_Z 0)
      by (change (inject_Z 0) with 0; lra).
    rewrite <- Zlt_Qlt in H2.
    assert (H3 : inject_Z 0 < inject_Z (Qfloor q' + 1))
      by (change (inject_Z 0) with 0; lra).
    rewrite <- Zlt_Qlt in H3. lia.
  - apply Qceiling_resp_le. exact Hle.
Qed.

Lemma addMinutes_nonneg date minutes :
  0 <= minutes -> (date <= addMinutes date minutes)%Z.
Proof.
  intros Hm. unfold addMinutes. rewrite <- (truncQ_inject date) at 1.
  apply truncQ_monotone. nra.
Qed.

Lemma travelMinutes_nonneg distanceKm transport :
  0 <= distanceKm -> 0 <= travelMinutes distanceKm transport.
Proof.
  intros Hd. unfold travelMinutes.
  assert (0 <= Qmin 60 (distanceKm * 3)) by (apply Q.min_glb; lra).
  assert (0 <= Qmin 90 (distanceKm * 12)) by (apply Q.min_glb; lra).
  destruct transport as [[]|]; cbv zeta; lra.
Qed.

(** A stay that the window check accepts starts less than a minute before
    the arrival, and inside the window when the arrival is not after it. *)
Lemma startOfWindow_inside localOffsetMs arriveAt w startAt :
  startOfWindow localOffsetMs arriveAt w = Some startAt ->
  (arriveAt - msPerMinute < startAt)%Z /\
  ((startMinutes w <= endMinutes w)%Z -> (startMinutes w < 1440)%Z ->
   inWindow (minutesSinceMidnight localOffsetMs startAt) w = true).
Proof.
  unfold startOfWindow.
  pose proof (minutesSinceMidnight_range localOffsetMs arriveAt) as Hrange.
  destruct (_ >? _)%Z eqn:Hlate; [discriminate|].
  intros [= <-].
  pose proof (minutesSinceMidnight_of_minutes localOffsetMs arriveAt) as Eam.
  set (am := minutesSinceMidnight localOffsetMs arriveAt) in *.
  set (m := Z.max am (startMinutes w)).
  assert (Hm : (0 <= m)%Z) by lia.
  pose proof (setHours_local localOffsetMs arriveAt m Hm) as Hlocal.
  split.
  - assert (Em : (am <= m)%Z) by lia.
    set (S := setHours localOffsetMs arriveAt (m / 60) (Z.rem m 60)) in *.
    unfold msPerDay, msPerMinute in *.
    set (L := (arriveAt + localOffsetMs)%Z) in *.
    assert (HL : (arriveAt = L - localOffsetMs)%Z) by (unfold L; lia).
    clearbody S L am. euclid.
  - intros Hw Hws. rewrite minutesSinceMidnight_setHours by lia.
    unfold inWindow. apply andb_true_iff. split; lia.
Qed.

(** ** The best candidate *)

Section BestOf.

Context {B : Type} (candidateOf : B -> option Candidate.t).

Let pick (best : option Candidate.t) (b : B) : option Candidate.t :=
  match candidateOf b with
  | None => best
  | Some c => keepBest best c
  end.

(** The loop that keeps the best candidate returns the first of the
    candidates with the highest score. *)
Lemma best_of_loop (l : list B) :
  match fold_left pick l None with
  | None => forall b, In b l -> candidateOf b = None
  | Some best =>
      exists before b after,
        l = before ++ b :: after /\ candidateOf b = Some best /\
        (forall b' c, In b' before -> candidateOf b' = Some c ->
                      Candidate.score c < Candidate.score best) /\
        (forall b' c, In b' after -> candidateOf b' = Some c ->
                      Candidate.score c <= Candidate.score best)
  end.
Proof.
  induction l as [|x l IH] using rev_ind; [intros b []|].
  rewrite fold_left_app. cbn [fold_left]. unfold pick at 1.
  destruct (candidateOf x) as [c|] eqn:Hx.
  - destruct (fold_left pick l None) as [best|] eqn:Hfold; unfold keepBest.
    + destruct IH as (before & b & after & -> & Hb & Hbefore & Hafter).
      destruct (Qltb (Candidate.score best) (Candidate.score c)) eqn:Hlt.
      * apply Qltb_lt in Hlt.
        exists (before ++ b :: after), x, []. repeat split; try assumption.
        -- intros b' c' Hin Hc'. apply in_app_iff in Hin.
           destruct Hin as [Hin|[<-|Hin]].
           ++ eapply Qlt_trans; [apply (Hbefore b' c' Hin Hc')|exact Hlt].
           ++ rewrite Hb in Hc'. injection Hc' as <-. exact Hlt.
           ++ eapply Qle_lt_trans; [apply (Hafter b' c' Hin Hc')|exact Hlt].
        -- intros b' c' [].
      * apply Qltb_ge in Hlt.
        exists before, b, (after ++ [x]). repeat split; try assumption.
        -- rewrite <- app_assoc. reflexivity.
        -- intros b' c' Hin Hc'. apply in_app_iff in Hin.
           destruct Hin as [Hin|[<-|[]]]; [apply (Hafter b' c' Hin Hc')|].
           rewrite Hx in Hc'. injection Hc' as <-. exact Hlt.
    + exists l, x, []. repeat split; try assumption.
      * intros b' c' Hin Hc'. rewrite (IH b' Hin) in Hc'. discriminate.
      * intros b' c' [].
  - destruct (fold_left pick l None) as [best|] eqn:Hfold.
    + destruct IH as (before & b & after & -> & Hb & Hbefore & Hafter).
      exists before, b, (after ++ [x]). repeat split; try assumption.
      * rewrite <- app_assoc. reflexivity.
      * intros b' c' Hin Hc'. apply in_app_iff in Hin.
        destruct Hin as [Hin|[<-|[]]]; [apply (Hafter b' c' Hin Hc')|].
        rewrite Hx in Hc'. discriminate.
    + intros b Hin. apply in_app_iff in Hin. destruct Hin as [Hin|[<-|[]]]; auto.
Qed.

End BestOf.

Lemma fold_left_pointwise {A B : Type} (f g : A -> B -> A) (l : list B) (init : A) :
  (forall a b, f a b = g a b) -> fold_left f l init = fold_left g l init.
Proof.
  intros H. revert init. induction l as [|b l IH]; intros init; [reflexivity|].
  simpl. rewrite H. apply IH.
Qed.

Section SearchOptimal.

Variable localOffsetMs : Z.
Variable haversineDistance : Q -> Q -> Q -> Q -> Q.
Variable calculatePlaceScore : Place.t -> ScoreContext.t -> Q.
Variables (currentTime : Z) (from : Place.t) (allPlaces : list Place.t)
          (visited : gset string) (mealWindows : option MealWindows)
          (transport : Transport) (baseDuration : Q) (maxEndTime : option Z)
          (hasHadLunch hasHadDinner : bool) (userVector : UserVector)
          (selectedPlaces : list Place.t) (companion : option Companion)
          (isRainy : option bool) (temperature : option Q).

(** The score of a candidate at a distance, in the context that
    [findPlaceForTime] builds. *)
Definition scoreInSearch (place : Place.t) (distanceKm : Q) : Q :=
  calculatePlaceScore place
    (ScoreContext.mk userVector (default false isRainy) (default 20 temperature)
       distanceKm selectedPlaces companion (Some transport)).

(** The step that the time of day asks for, and the candidates for it. *)
Definition stepNow : list PlaceType * option MealType * option Window * bool :=
  stepForTime (minutesSinceMidnight localOffsetMs currentTime) (lunchOf mealWindows)
    (dinnerOf mealWindows) hasHadLunch hasHadDinner.

Definition candidatesNow : list Place.t :=
  let '(preferredTypes, mealType, _, isMeal) := stepNow in
  List.filter (eligibleForTime visited preferredTypes mealType isMeal) allPlaces.

Definition stayNow (place : Place.t) : option (Q * Z * Z) :=
  let '(_, _, window, _) := stepNow in
  stayAt localOffsetMs haversineDistance currentTime from transport baseDuration
         maxEndTime window place.

Let candidateNow (place : Place.t) : option Candidate.t :=
  match stayNow place with
  | Some (distanceKm, startAt, endAt) =>
      Some (Candidate.mk place distanceKm startAt endAt (scoreInSearch place distanceKm))
  | None => None
  end.

Lemma findPlaceForTime_as_best :
  findPlaceForTime localOffsetMs haversineDistance calculatePlaceScore currentTime from
    allPlaces visited mealWindows transport baseDuration maxEndTime hasHadLunch
    hasHadDinner userVector selectedPlaces companion isRainy temperature =
  match
    fold_left (fun best place =>
                 match candidateNow place with
                 | None => best
                 | Some c => keepBest best c
                 end) candidatesNow None
  with
  | None => None
  | Some b =>
      Some (Found.mk (Candidate.place b) (Candidate.distanceKm b) (Candidate.startAt b)
                     (Candidate.endAt b) (snd stepNow))
  end.
Proof.
  unfold findPlaceForTime, candidatesNow, candidateNow, stayNow, stepNow.
  destruct (stepForTime _ _ _ _ _) as [[[preferredTypes mealType] window] isMeal].
  fold (eligibleForTime visited preferredTypes mealType isMeal).
  set (candidates := List.filter _ allPlaces).
  destruct (length candidates =? 0)%nat eqn:Hlen.
  - apply Nat.eqb_eq, length_zero_iff_nil in Hlen. rewrite Hlen. reflexivity.
  - cbn [snd]. erewrite fold_left_pointwise; [reflexivity|].
    intros best place. unfold stayAt, scoreInSearch. cbv zeta.
    destruct (isFoot (Some transport) && _); [reflexivity|].
    destruct (match window with Some w => _ | None => _ end); [|reflexivity].
    destruct (exceeds maxEndTime _); reflexivity.
Qed.

(** X16: [findPlaceForTime] returns the best-scoring candidate that passes
    the checks, and among equals the first of the pool: every candidate
    before it scores strictly less, every candidate after it scores no
    more. *)
Theorem findPlaceForTime_best found :
  findPlaceForTime localOffsetMs haversineDistance calculatePlaceScore currentTime from
    allPlaces visited mealWindows transport baseDuration maxEndTime hasHadLunch
    hasHadDinner userVector selectedPlaces companion isRainy temperature = Some found ->
  exists before after,
    candidatesNow = before ++ Found.place found :: after /\
    stayNow (Found.place found) =
      Some (Found.distanceKm found, Found.startAt found, Found.endAt found) /\
    (forall place distanceKm startAt endAt,
        In place before -> stayNow place = Some (distanceKm, startAt, endAt) ->
        scoreInSearch place distanceKm <
        scoreInSearch (Found.place found) (Found.distanceKm found)) /\
    (forall place distanceKm startAt endAt,
        In place after -> stayNow place = Some (distanceKm, startAt, endAt) ->
        scoreInSearch place distanceKm <=
        scoreInSearch (Found.place found) (Found.distanceKm found)).
Proof.
  rewrite findPlaceForTime_as_best.
  pose proof (best_of_loop candidateNow candidatesNow) as Hbest.
  destruct (fold_left _ candidatesNow None) as [best|]; [|discriminate].
  intros [= <-]. cbn [Found.place Found.distanceKm Found.startAt Found.endAt].
  destruct Hbest as (before & b & after & Hsplit & Hb & Hbefore & Hafter).
  unfold candidateNow in Hb.
  destruct (stayNow b) as [[[d s] e]|] eqn:Hstay; [|discriminate].
  injection Hb as <-. cbn [Candidate.place Candidate.distanceKm Candidate.startAt
                            Candidate.endAt Candidate.score] in *.
  exists before, after. repeat split; try assumption.
  - intros place d' s' e' Hin Hstay'.
    apply (Hbefore place (Candidate.mk place d' s' e' (scoreInSearch place d')) Hin).
    unfold candidateNow. rewrite Hstay'. reflexivity.
  - intros place d' s' e' Hin Hstay'.
    apply (Hafter place (Candidate.mk place d' s' e' (scoreInSearch place d')) Hin).
    unfold candidateNow. rewrite Hstay'. reflexivity.
Qed.

(** X17: [findPlaceForTime] returns null exactly when no candidate of the
    pool passes the checks; an empty pool is one such case. *)
Theorem findPlaceForTime_null_iff :
  findPlaceForTime localOffsetMs haversineDistance calculatePlaceScore currentTime from
    allPlaces visited mealWindows transport baseDuration maxEndTime hasHadLunch
    hasHadDinner userVector selectedPlaces companion isRainy temperature = None <->
  forall place, In place candidatesNow -> stayNow place = None.
Proof.
  rewrite findPlaceForTime_as_best.
  pose proof (best_of_loop candidateNow candidatesNow) as Hbest.
  destruct (fold_left _ candidatesNow None) as [best|].
  - split; [discriminate|]. intros Hnone. exfalso.
    destruct Hbest as (before & b & after & Hsplit & Hb & _).
    assert (Hin : In b candidatesNow) by (rewrite Hsplit; apply in_elt).
    unfold candidateNow in Hb. rewrite (Hnone b Hin) in Hb. discriminate.
  - split; [|reflexivity]. intros _ place Hin.
    specialize (Hbest place Hin). unfold candidateNow in Hbest.
    destruct (stayNow place) as [[[d s] e]|]; [discriminate|reflexivity].
Qed.

(** X18: a restaurant is found only for a meal.  What [findPlaceForTime]
    returns is a restaurant exactly when it is flagged as a meal, and that
    happens only while the time of day is inside the lunch window with no
    lunch had, or inside the dinner window with no dinner had; in the gap
    between the two windows it is a cafe or a bakery. *)
Theorem findPlaceForTime_restaurant_only_for_meal found :
  findPlaceForTime localOffsetMs haversineDistance calculatePlaceScore currentTime from
    allPlaces visited mealWindows transport baseDuration maxEndTime hasHadLunch
    hasHadDinner userVector selectedPlaces companion isRainy temperature = Some found ->
  let minutes := minutesSinceMidnight localOffsetMs currentTime in
  let lunchTime := negb hasHadLunch && inWindow minutes (lunchOf mealWindows) in
  let dinnerTime := negb hasHadDinner && inWindow minutes (dinnerOf mealWindows) in
  PlaceType_eqb (Place.type (Found.place found)) restaurant = Found.isMeal found /\
  Found.isMeal found = lunchTime || dinnerTime /\
  (lunchTime || dinnerTime = false ->
   (endMinutes (lunchOf mealWindows) < minutes < startMinutes (dinnerOf mealWindows))%Z ->
   Place.type (Found.place found) = cafe \/ Place.type (Found.place found) = bakery).
Proof.
  intros Hfound. cbv zeta.
  rewrite findPlaceForTime_as_best in Hfound.
  pose proof (best_of_loop candidateNow candidatesNow) as Hbest.
  destruct (fold_left _ candidatesNow None) as [best|]; [|discriminate].
  injection Hfound as <-. cbn [Found.place Found.isMeal] in *.
  assert (Hin : In (Candidate.place best) candidatesNow).
  { destruct Hbest as (before & b & after & Hsplit & Hb & _).
    unfold candidateNow in Hb.
    destruct (stayNow b) as [[[d s'] e]|]; [|discriminate].
    injection Hb as <-. cbn [Candidate.place]. rewrite Hsplit. apply in_elt. }
  clear Hbest.
  unfold candidatesNow, stepNow, stepForTime in *.
  set (minutes := minutesSinceMidnight localOffsetMs currentTime) in *.
  destruct (negb hasHadLunch && inWindow minutes (lunchOf mealWindows));
    [|destruct (negb hasHadDinner && inWindow minutes (dinnerOf mealWindows))];
    cbn [snd orb] in *.
  1,2: apply filter_In in Hin; destruct Hin as [_ Hin];
       unfold eligibleForTime, includesType in Hin; simpl existsb in Hin;
       destruct (PlaceType_eqb (Place.type (Candidate.place best)) restaurant);
       [repeat split; discriminate|];
       rewrite andb_false_r in Hin; discriminate.
  destruct ((minutes >? endMinutes (lunchOf mealWindows))%Z &&
            (minutes <? startMinutes (dinnerOf mealWindows))%Z) eqn:Hgap;
    cbn [snd] in *; apply filter_In in Hin; destruct Hin as [_ Hin];
    unfold eligibleForTime in Hin;
    apply andb_true_iff in Hin; destruct Hin as [_ Hin];
    apply andb_true_iff in Hin; destruct Hin as [Htype Hnot];
    apply negb_true_iff in Hnot; rewrite Hnot.
  - repeat split. intros _ _.
    unfold includesType in Htype. simpl in Htype.
    destruct (Place.type (Candidate.place best)); try discriminate; auto.
  - repeat split. intros _ Hrange. exfalso.
    apply andb_false_iff in Hgap. destruct Hgap as [H|H]; lia.
Qed.

(** What is found passed the checks of the loop. *)
Lemma findPlaceForTime_stay found :
  findPlaceForTime localOffsetMs haversineDistance calculatePlaceScore currentTime from
    allPlaces visited mealWindows transport baseDuration maxEndTime hasHadLunch
    hasHadDinner userVector selectedPlaces companion isRainy temperature = Some found ->
  In (Found.place found) candidatesNow /\
  stayNow (Found.place found) =
    Some (Found.distanceKm found, Found.startAt found, Found.endAt found) /\
  Found.isMeal found = snd stepNow.
Proof.
  rewrite findPlaceForTime_as_best.
  pose proof (best_of_loop candidateNow candidatesNow) as Hbest.
  destruct (fold_left _ candidatesNow None) as [best|]; [|discriminate].
  intros [= <-]. cbn [Found.place Found.distanceKm Found.startAt Found.endAt Found.isMeal].
  destruct Hbest as (before & b & after & Hsplit & Hb & _).
  unfold candidateNow in Hb.
  destruct (stayNow b) as [[[d s] e]|] eqn:Hstay; [|discriminate].
  injection Hb as <-. cbn [Candidate.place Candidate.distanceKm Candidate.startAt
                            Candidate.endAt].
  repeat split; [rewrite Hsplit; apply in_elt | exact Hstay].
Qed.

End SearchOptimal.

Lemma findPlaceForTime_best_witness :
  exists found,
    findPlaceForTime kst flatDistance nearestFirst tenOClock cityHall examplePool
      {[ "city-hall"%string ]} None foot 90 (Some (tenOClock + 21600000)%Z) false false
      INITIAL_USER_VECTOR [cityHall] (Some solo) (Some false) (Some 20) = Some found /\
    Place.id (Found.place found) = "cafe-art"%string /\
    exists before after,
      candidatesNow kst tenOClock examplePool {[ "city-hall"%string ]} None false false =
        before ++ Found.place found :: after.
Proof.
  eexists. split; [vm_compute; reflexivity|]. split; [reflexivity|].
  match goal with
  | |- exists before after, _ = before ++ Found.place ?f :: after =>
      assert (H : findPlaceForTime kst flatDistance nearestFirst tenOClock cityHall
                    examplePool {[ "city-hall"%string ]} None foot 90
                    (Some (tenOClock + 21600000)%Z) false false INITIAL_USER_VECTOR
                    [cityHall] (Some solo) (Some false) (Some 20) = Some f)
        by (vm_compute; reflexivity);
      destruct (findPlaceForTime_best _ _ _ _ _ _ _ _ _ _ _ _ _ _ _ _ _ _ f H)
        as (before & after & Hsplit & _)
  end.
  exists before, after. exact Hsplit.
Defined.

(** At noon the search from the city hall finds the noodle house, for
    lunch. *)
Lemma findPlaceForTime_restaurant_only_for_meal_witness :
  exists found,
    findPlaceForTime kst flatDistance nearestFirst (tenOClock + 7200000) cityHall
      examplePool {[ "city-hall"%string ]} None foot 90 (Some (tenOClock + 21600000)%Z)
      false false INITIAL_USER_VECTOR [cityHall] (Some solo) (Some false) (Some 20)
      = Some found /\
    Place.id (Found.place found) = "rest-noodle"%string /\
    PlaceType_eqb (Place.type (Found.place found)) restaurant = Found.isMeal found.
Proof.
  eexists. split; [vm_compute; reflexivity|]. split; [reflexivity|].
  refine (proj1 (findPlaceForTime_restaurant_only_for_meal kst flatDistance nearestFirst
                   (tenOClock + 7200000) cityHall examplePool {[ "city-hall"%string ]}
                   None foot 90 (Some (tenOClock + 21600000)%Z) false false
                   INITIAL_USER_VECTOR [cityHall] (Some solo) (Some false) (Some 20)
                   _ _)).
  vm_compute. reflexivity.
Defined.

(** ** Neighbouring steps *)

(** A relation that holds between every element of a list and the next. *)
Definition adjacent {A : Type} (R : A -> A -> Prop) (l : list A) : Prop :=
  forall i a b, l !! i = Some a -> l !! S i = Some b -> R a b.

Lemma adjacent_singleton {A : Type} (R : A -> A -> Prop) (a : A) : adjacent R [a].
Proof. intros i x y Hx Hy. destruct i; discriminate. Qed.

Lemma adjacent_snoc {A : Type} (R : A -> A -> Prop) (l : list A) (x : A) :
  adjacent R l -> (forall a, last l = Some a -> R a x) -> adjacent R (l ++ [x]).
Proof.
  intros Hok Hlast i a b Ha Hb.
  destruct (decide (S i < length l)%nat) as [Hlt|Hge].
  - rewrite lookup_app_l in Ha by lia. rewrite lookup_app_l in Hb by lia.
    apply (Hok i a b Ha Hb).
  - assert (Hlen : (S i < length (l ++ [x]))%nat)
      by (apply lookup_lt_Some in Hb; exact Hb).
    rewrite length_app in Hlen. simpl in Hlen.
    assert (Ei : S i = length l) by lia.
    rewrite lookup_app_r in Hb by lia. rewrite Ei, Nat.sub_diag in Hb.
    injection Hb as <-.
    rewrite lookup_app_l in Ha by lia. apply Hlast.
    rewrite last_lookup. rewrite <- Ei. simpl. exact Ha.
Qed.

(** ** The states of the builder *)

Section Built.

Variable localOffsetMs : Z.
Variable haversineDistance : Q -> Q -> Q -> Q -> Q.
Variable calculatePlaceScore : Place.t -> ScoreContext.t -> Q.
Variable allPlaces : list Place.t.
Variable options : Options.t.
Variable startLocation : Place.t.
Variable userVector : UserVector.

Local Abbreviation search :=
  (searchFrom localOffsetMs haversineDistance calculatePlaceScore allPlaces options
              userVector).
Local Abbreviation routeTo :=
  (routeToAnchor localOffsetMs haversineDistance calculatePlaceScore allPlaces options
                 userVector).
Local Abbreviation route :=
  (routeAnchors localOffsetMs haversineDistance calculatePlaceScore allPlaces options
                userVector).
Local Abbreviation fill :=
  (fillTime localOffsetMs haversineDistance calculatePlaceScore allPlaces options
            userVector).
Local Abbreviation running := (Running haversineDistance options startLocation).
Local Abbreviation closed := (Closed haversineDistance options startLocation).

(** The states that [generateCourse] goes through: the initial state, and
    from a running state a stop found by the search, a hop to an unvisited
    anchor, or the end venue appended. *)
Inductive Built : BuilderState -> Prop :=
  | Built_initial : Built (initialState options startLocation)
  | Built_found st found :
      Built st -> running st -> search st = Some found ->
      Built (pushFound options found st)
  | Built_anchor st track anchor :
      Built st -> running st -> In anchor (anchorsToVisit options) ->
      Place.id anchor ∉ visited st ->
      Built (connectAnchor localOffsetMs options track anchor
               (distanceBetween haversineDistance (currentPlace st) anchor) st)
  | Built_end st markVisited :
      Built st -> running st ->
      Built (appendEndLocation haversineDistance options markVisited st).

Lemma routeToAnchor_Built fuel anchor : forall st st',
  Built st -> running st -> In anchor (anchorsToVisit options) ->
  Place.id anchor ∉ visited st \/ Place.id (currentPlace st) = Place.id anchor ->
  routeTo fuel anchor st = Some st' -> Built st'.
Proof.
  induction fuel as [|fuel IH]; intros st st' Hbuilt Hrun Hanchor Hcase; [discriminate|].
  cbn [routeToAnchor].
  destruct (String.eqb _ _) eqn:Hsame; [intros [= <-]; exact Hbuilt|].
  apply String.eqb_neq in Hsame.
  destruct Hcase as [Hnew|Hcase]; [|contradiction].
  destruct (isFoot _ && _).
  - destruct (search st) as [intermediate|] eqn:Hsearch.
    + assert (Hrun' : running (pushFound options intermediate st))
        by (eapply Running_pushFound; eassumption).
      pose proof (Built_found st intermediate Hbuilt Hrun Hsearch) as Hbuilt'.
      destruct (_ >=? _)%Z; [intros [= <-]; exact Hbuilt'|].
      apply IH; [exact Hbuilt' | exact Hrun' | exact Hanchor |].
      destruct (decide (Place.id (Found.place intermediate) = Place.id anchor)) as [E|E].
      * right. exact E.
      * left. rewrite visited_pushFound, elem_of_union, elem_of_singleton.
        intros [H|H]; [exact (Hnew H) | exact (E (eq_sym H))].
    + intros [= <-]. apply Built_anchor; assumption.
  - intros [= <-]. apply Built_anchor; assumption.
Qed.

Lemma routeAnchors_Built fuel anchors : forall st st',
  Built st -> running st -> (forall a, In a anchors -> In a (anchorsToVisit options)) ->
  route fuel anchors st = Some st' -> Built st'.
Proof.
  induction anchors as [|anchor rest IH]; intros st st' Hbuilt Hrun Hanchors;
    cbn [routeAnchors]; [intros [= <-]; exact Hbuilt|].
  assert (Hrest : forall a, In a rest -> In a (anchorsToVisit options))
    by (intros a Ha; apply Hanchors; right; exact Ha).
  destruct (bool_decide _) eqn:Hvis; [apply IH; assumption|].
  apply bool_decide_eq_false in Hvis.
  destruct (_ >=? _)%Z eqn:Htime.
  - intros [= <-]. apply Built_end; assumption.
  - destruct (routeTo fuel anchor st) as [st1|] eqn:Hroute; [|discriminate].
    assert (Hin : In anchor (anchorsToVisit options)) by (apply Hanchors; left; reflexivity).
    apply IH; [| |exact Hrest].
    + apply (routeToAnchor_Built fuel anchor st st1); auto.
    + eapply routeToAnchor_Running; [exact Hrun | | | exact Hroute]; auto.
      apply isAnchor_anchorsToVisit. exact Hin.
Qed.

Lemma fillTime_Built fuel : forall st st',
  Built st -> running st \/ closed st -> fill fuel st = Some st' -> Built st'.
Proof.
  induction fuel as [|fuel IH]; intros st st' Hbuilt Hst; [discriminate|].
  cbn [fillTime].
  destruct (_ <? _)%Z eqn:Htime; [|intros [= <-]; exact Hbuilt].
  destruct Hst as [Hrun|Hclosed]; [|destruct Hclosed as (_ & Hge & _); lia].
  destruct (Qltb _ 30); [intros [= <-]; exact Hbuilt|].
  destruct (search st) as [nextPlace|] eqn:Hsearch; [|intros [= <-]; exact Hbuilt].
  destruct (_ >? _)%Z; [intros [= <-]; apply Built_end; assumption|].
  apply IH; [apply Built_found; assumption|].
  left. eapply Running_pushFound; eassumption.
Qed.

(** The course is read off a state that the builder went through. *)
Lemma buildCourse_Built course :
  buildCourse localOffsetMs haversineDistance calculatePlaceScore allPlaces options
    startLocation userVector = Some course ->
  exists st,
    Built st /\
    GeneratedCourse.sequence course = sequence st /\
    GeneratedCourse.steps course = courseSteps st /\
    GeneratedCourse.totalDistance course =
      inject_Z (mathRound (totalDistance st * 10)) / 10.
Proof.
  unfold buildCourse.
  destruct (route _ _ _) as [st|] eqn:Hroute; [|discriminate].
  destruct (fill _ st) as [st'|] eqn:Hfill; [|discriminate].
  intros [= <-].
  pose proof (Running_initial haversineDistance options startLocation) as Hinit.
  assert (Hbuilt : Built st).
  { eapply routeAnchors_Built; [apply Built_initial | exact Hinit | | exact Hroute]. auto. }
  assert (Hdone : running st \/ closed st).
  { eapply routeAnchors_Done; [exact Hinit | apply isAnchor_anchorsToVisit | exact Hroute]. }
  assert (Hbuilt' : Built st') by (eapply fillTime_Built; eassumption).
  assert (Hdone' : running st' \/ closed st') by (eapply fillTime_Done; eassumption).
  exists (appendEndLocation haversineDistance options false st').
  split; [|unfold finish; cbn; auto].
  destruct Hdone' as [Hrun|Hclosed].
  - apply Built_end; assumption.
  - rewrite (Closed_appendEndLocation _ _ _ _ _ Hclosed). exact Hbuilt'.
Qed.

(** *** Where the places of a course come from *)

Lemma Built_provenance st :
  Built st ->
  forall p, In p (sequence st) ->
    p = startLocation \/ In p allPlaces \/ isAnchor options p.
Proof.
  induction 1 as [|st found Hbuilt IH Hrun Hsearch|st track anchor Hbuilt IH Hrun Hin Hnew
                  |st markVisited Hbuilt IH Hrun]; intros p Hp.
  - destruct Hp as [<-|[]]. left. reflexivity.
  - cbn [pushFound sequence] in Hp. apply in_app_iff in Hp.
    destruct Hp as [Hp|[<-|[]]]; [apply IH; exact Hp|].
    right. left. unfold searchFrom in Hsearch.
    apply findPlaceForTime_sound in Hsearch. apply Hsearch.
  - unfold connectAnchor in Hp. destruct (_ >? _)%Z; [apply IH; exact Hp|].
    cbn [sequence] in Hp. apply in_app_iff in Hp.
    destruct Hp as [Hp|[<-|[]]]; [apply IH; exact Hp|].
    right. right. apply isAnchor_anchorsToVisit. exact Hin.
  - unfold appendEndLocation in Hp.
    destruct (targetEndLocation options) as [e|] eqn:He; [|apply IH; exact Hp].
    destruct (bool_decide _); [apply IH; exact Hp|].
    destruct (_ <=? _)%Z; [|apply IH; exact Hp].
    cbn [sequence] in Hp. apply in_app_iff in Hp.
    destruct Hp as [Hp|[<-|[]]]; [apply IH; exact Hp|].
    right. right. right. exact He.
Qed.

(** *** Distances and travel times *)

Lemma pathLength_snoc places a b :
  last places = Some a ->
  pathLength haversineDistance (places ++ [b]) ==
  pathLength haversineDistance places + distanceBetween haversineDistance a b.
Proof.
  induction places as [|x places IH]; [discriminate|].
  destruct places as [|y places].
  - intros [= ->]. simpl. ring.
  - intros Hlast. specialize (IH Hlast).
    change (pathLength haversineDistance ((x :: y :: places) ++ [b]))
      with (distanceBetween haversineDistance x y +
            pathLength haversineDistance ((y :: places) ++ [b])).
    change (pathLength haversineDistance (x :: y :: places))
      with (distanceBetween haversineDistance x y +
            pathLength haversineDistance (y :: places)).
    rewrite IH. ring.
Qed.

(** Every step but the first records the travel time for the distance from
    the place of the step before it. *)
Definition travelTimesOk (steps : list CourseStep.t) : Prop :=
  adjacent
    (fun a b =>
       CourseStep.travelTime b =
       travelMinutes (distanceBetween haversineDistance (CourseStep.place a)
                                      (CourseStep.place b))
                     (Some (transport options)))
    steps.

Lemma Built_accounts st :
  Built st ->
  totalDistance st == pathLength haversineDistance (sequence st) /\
  travelTimesOk (courseSteps st).
Proof.
  induction 1 as [|st found Hbuilt IH Hrun Hsearch|st track anchor Hbuilt IH Hrun Hin Hnew
                  |st markVisited Hbuilt IH Hrun].
  - split; [reflexivity | apply adjacent_singleton].
  - destruct IH as [Hdist Htimes]. pose proof Hrun as [_ Hlast].
    pose proof Hsearch as Hsound. unfold searchFrom in Hsound.
    apply findPlaceForTime_sound in Hsound. destruct Hsound as (_ & _ & Ed & _).
    split; cbn [pushFound totalDistance sequence courseSteps].
    + rewrite (pathLength_snoc _ _ _ Hlast), Hdist, Ed. reflexivity.
    + apply adjacent_snoc; [exact Htimes|]. intros a Ha.
      cbn [CourseStep.travelTime CourseStep.place].
      rewrite (Running_last_step _ _ _ _ _ Hrun Ha), Ed. reflexivity.
  - destruct IH as [Hdist Htimes]. pose proof Hrun as [_ Hlast].
    unfold connectAnchor. destruct (_ >? _)%Z; [split; assumption|].
    split; cbn [totalDistance sequence courseSteps].
    + rewrite (pathLength_snoc _ _ _ Hlast), Hdist. reflexivity.
    + apply adjacent_snoc; [exact Htimes|]. intros a Ha.
      cbn [CourseStep.travelTime CourseStep.place].
      rewrite (Running_last_step _ _ _ _ _ Hrun Ha). reflexivity.
  - destruct IH as [Hdist Htimes]. pose proof Hrun as [_ Hlast].
    unfold appendEndLocation.
    destruct (targetEndLocation options) as [e|]; [|split; assumption].
    destruct (bool_decide _); [split; assumption|].
    destruct (_ <=? _)%Z; [|split; assumption].
    split; cbn [totalDistance sequence courseSteps].
    + rewrite (pathLength_snoc _ _ _ Hlast), Hdist. reflexivity.
    + apply adjacent_snoc; [exact Htimes|]. intros a Ha.
      cbn [CourseStep.travelTime CourseStep.place].
      rewrite (Running_last_step _ _ _ _ _ Hrun Ha). reflexivity.
Qed.

End Built.

(** ** The course that [generateCourse] returns *)

(** X19: every place of a returned course is the start venue, a place of
    the pool, a must-visit place or the end venue; the generator invents no
    place. *)
Theorem generateCourse_places_from_inputs localOffsetMs haversineDistance
    calculatePlaceScore allPlaces options course :
  generateCourse localOffsetMs haversineDistance calculatePlaceScore allPlaces options
    = ReturnsCourse course ->
  forall p, In p (GeneratedCourse.sequence course) ->
    Options.startLocation options = Some p \/ In p allPlaces \/ isAnchor options p.
Proof.
  intros H p Hp. apply generateCourse_returns in H.
  destruct H as (startLocation & userVector & Hstart & Hbuild).
  apply buildCourse_Built in Hbuild.
  destruct Hbuild as (st & Hbuilt & Hseq & _). rewrite Hseq in Hp.
  destruct (Built_provenance _ _ _ _ _ _ _ _ Hbuilt p Hp) as [->|[H|H]]; auto.
Qed.

Lemma generateCourse_places_from_inputs_witness :
  exists course,
    generateCourse kst flatDistance nearestFirst examplePool exampleOptions
      = ReturnsCourse course /\
    forall p, In p (GeneratedCourse.sequence course) ->
      Options.startLocation exampleOptions = Some p \/ In p examplePool \/
      isAnchor exampleOptions p.
Proof.
  eexists. split; [vm_compute; reflexivity|].
  apply (generateCourse_places_from_inputs kst flatDistance nearestFirst examplePool
           exampleOptions).
  vm_compute. reflexivity.
Defined.

(** X20: the books of a returned course balance.  The total distance is the
    length of the path through the sequence, rounded to one decimal, and
    every step after the first carries the travel time for the distance
    from the place of the step before it, with the transport of the
    options. *)
Theorem generateCourse_distance_and_travel_times localOffsetMs haversineDistance
    calculatePlaceScore allPlaces options course :
  generateCourse localOffsetMs haversineDistance calculatePlaceScore allPlaces options
    = ReturnsCourse course ->
  GeneratedCourse.totalDistance course =
    inject_Z (mathRound
                (pathLength haversineDistance (GeneratedCourse.sequence course) * 10))
    / 10 /\
  forall i a b,
    GeneratedCourse.steps course !! i = Some a ->
    GeneratedCourse.steps course !! S i = Some b ->
    CourseStep.travelTime b =
    travelMinutes (distanceBetween haversineDistance (CourseStep.place a)
                                   (CourseStep.place b))
                  (Some (transport options)).
Proof.
  intros H. apply generateCourse_returns in H.
  destruct H as (startLocation & userVector & Hstart & Hbuild).
  apply buildCourse_Built in Hbuild.
  destruct Hbuild as (st & Hbuilt & Hseq & Hsteps & Htotal).
  destruct (Built_accounts _ _ _ _ _ _ _ _ Hbuilt) as [Hdist Htimes].
  rewrite Hseq, Hsteps, Htotal. split; [|exact Htimes].
  assert (E : mathRound (totalDistance st * 10) =
              mathRound (pathLength haversineDistance (sequence st) * 10)).
  { unfold mathRound. apply Qfloor_comp. rewrite Hdist. reflexivity. }
  rewrite E. reflexivity.
Qed.

Lemma generateCourse_distance_and_travel_times_witness :
  exists course,
    generateCourse kst flatDistance nearestFirst examplePool exampleOptions
      = ReturnsCourse course /\
    GeneratedCourse.totalDistance course =
      inject_Z (mathRound
                  (pathLength flatDistance (GeneratedCourse.sequence course) * 10))
      / 10.
Proof.
  eexists. split; [vm_compute; reflexivity|].
  apply (generateCourse_distance_and_travel_times kst flatDistance nearestFirst
           examplePool exampleOptions).
  vm_compute. reflexivity.
Defined.

Lemma flatDistance_nonneg lat1 lng1 lat2 lng2 : 0 <= flatDistance lat1 lng1 lat2 lng2.
Proof.
  unfold flatDistance.
  pose proof (Qabs_nonneg (lat2 - lat1)). pose proof (Qabs_nonneg (lng2 - lng1)). nra.
Qed.

(** X23: with a start venue and a preference object that has the ten
    dimensions, [generateCourse] returns a course: both of its loops end,
    whatever the pool, and the course begins with the start venue, with a
    stay of length zero at the start time. *)
Theorem generateCourse_returns_course localOffsetMs haversineDistance
    calculatePlaceScore allPlaces options startLocation :
  Options.startLocation options = Some startLocation ->
  isUserVector (Options.userPreferences options) = true ->
  exists course places steps,
    generateCourse localOffsetMs haversineDistance calculatePlaceScore allPlaces options
      = ReturnsCourse course /\
    GeneratedCourse.sequence course = startLocation :: places /\
    GeneratedCourse.steps course =
      CourseStep.mk startLocation (Options.startTime options)
                    (Options.startTime options) 0 :: steps.
Proof.
  intros Hstart Hvec. unfold generateCourse, convertToUserVector. rewrite Hstart, Hvec.
  destruct (buildCourse_total localOffsetMs haversineDistance calculatePlaceScore
              allPlaces options startLocation
              (asUserVector (Options.userPreferences options))) as [course Hbuild].
  rewrite Hbuild. pose proof (buildCourse_Shape _ _ _ _ _ _ _ _ Hbuild) as Hshape.
  destruct (shape_times _ _ _ _ _ Hshape) as (rest & Hsteps & _).
  exists course, (List.map CourseStep.place rest), rest.
  split; [reflexivity|]. split; [|exact Hsteps].
  rewrite <- (shape_places _ _ _ _ _ Hshape), Hsteps. reflexivity.
Qed.

Lemma generateCourse_returns_course_witness :
  exists course places steps,
    generateCourse kst flatDistance nearestFirst examplePool exampleOptions
      = ReturnsCourse course /\
    GeneratedCourse.sequence course = cityHall :: places /\
    GeneratedCourse.steps course =
      CourseStep.mk cityHall (Options.startTime exampleOptions)
                    (Options.startTime exampleOptions) 0 :: steps.
Proof.
  apply (generateCourse_returns_course kst flatDistance nearestFirst examplePool
           exampleOptions cityHall).
  - reflexivity.
  - vm_compute. reflexivity.
Defined.



(** ** The candidate for a step *)

Section PickCandidate.

Variable localOffsetMs : Z.
Variable haversineDistance : Q -> Q -> Q -> Q -> Q.
Variable calculatePlaceScore : Place.t -> ScoreContext.t -> Q.
Variables (allPlaces : list Place.t) (stepIndex : nat) (step : StepDefinition)
          (context : PickContext.t).

(** The stay that [pickCandidate] computes for a place, when the window
    check passes: its distance, start and end. *)
Definition stayFor (place : Place.t) : option (Q * Z * Z) :=
  let distanceKm :=
    distanceBetween haversineDistance (PickContext.currentPlace context) place in
  let arriveAt :=
    addMinutes (PickContext.currentTime context)
               (travelMinutes distanceKm (PickContext.transport context)) in
  match validateWindow localOffsetMs step arriveAt with
  | Some startAt =>
      Some (distanceKm, startAt,
            addMinutes startAt (orElse (Place.estimatedDuration place) 60))
  | None => None
  end.

(** The filter of the scored search on one place of the pool, and the
    distance check of its loop. *)
Definition eligibleForStep (place : Place.t) : bool :=
  negb (bool_decide (Place.id place ∈ PickContext.visited context)) &&
  (includesType (preferredTypes step) (Place.type place) ||
   includesType (default [] (fallbackTypes step)) (Place.type place)) &&
  isValidForStep place step &&
  mealTypeAgrees (stepMealType step) (Place.mealType place).

Definition inReach (place : Place.t) : bool :=
  negb (isFoot (PickContext.transport context) &&
        Qltb (3#2) (distanceBetween haversineDistance
                      (PickContext.currentPlace context) place)).

Lemma scoredSearch_sound pick :
  scoredSearch localOffsetMs haversineDistance calculatePlaceScore allPlaces step context
    = Some pick ->
  In (Pick.place pick) allPlaces /\
  eligibleForStep (Pick.place pick) = true /\
  inReach (Pick.place pick) = true /\
  stayFor (Pick.place pick) =
    Some (Pick.distanceKm pick, Pick.startAt pick, Pick.endAt pick).
Proof.
  unfold scoredSearch. fold eligibleForStep.
  set (candidates := List.filter eligibleForStep allPlaces).
  destruct (length candidates =? 0)%nat; [discriminate|].
  set (loop := fun (best : option Candidate.t) (place : Place.t) => _).
  set (good := fun c : Candidate.t =>
    In (Candidate.place c) allPlaces /\
    eligibleForStep (Candidate.place c) = true /\
    inReach (Candidate.place c) = true /\
    stayFor (Candidate.place c) =
      Some (Candidate.distanceKm c, Candidate.startAt c, Candidate.endAt c)).
  assert (Hbest : forall c, fold_left loop candidates None = Some c -> good c).
  { apply (fold_left_invariant loop (fun best => forall c, best = Some c -> good c)).
    - discriminate.
    - intros best place Hin IH c. unfold loop.
      destruct (isFoot _ && Qltb _ _) eqn:Hfar; [apply IH|].
      destruct (validateWindow _ _ _) as [startAt|] eqn:Hwindow; [|apply IH].
      match goal with |- keepBest best ?new = _ -> _ =>
        destruct (keepBest_cases best new) as [E|E]; rewrite E end; [|apply IH].
      intros [= <-]. unfold good. cbn [Candidate.place Candidate.distanceKm
        Candidate.startAt Candidate.endAt].
      apply filter_In in Hin. destruct Hin as [Hin Hcond].
      repeat split; try assumption.
      + unfold inReach. rewrite Hfar. reflexivity.
      + unfold stayFor. rewrite Hwindow. reflexivity. }
  destruct (fold_left loop candidates None) as [b|]; [|discriminate].
  intros [= <-]. cbn [Pick.place Pick.distanceKm Pick.startAt Pick.endAt].
  exact (Hbest b eq_refl).
Qed.

(** X25: what [pickCandidate] returns is an unvisited place that is valid
    for the step, with the distance from the current place, a start that
    the window check accepts and the end of its stay.  It is the place
    locked at the next index, or a place of the pool of a preferred or a
    fallback type, with an agreeing meal type and, on foot, within 1.5 km. *)
Theorem pickCandidate_sound pick :
  pickCandidate localOffsetMs haversineDistance calculatePlaceScore allPlaces stepIndex
    step context = Some pick ->
  (Place.id (Pick.place pick) ∉ PickContext.visited context) /\
  isValidForStep (Pick.place pick) step = true /\
  stayFor (Pick.place pick) =
    Some (Pick.distanceKm pick, Pick.startAt pick, Pick.endAt pick) /\
  (lockedAt (PickContext.lockedSteps context) (stepIndex + 1) = Some (Pick.place pick) \/
   In (Pick.place pick) allPlaces /\ eligibleForStep (Pick.place pick) = true /\
   inReach (Pick.place pick) = true).
Proof.
  assert (Hscored : forall p,
    scoredSearch localOffsetMs haversineDistance calculatePlaceScore allPlaces step
      context = Some p ->
    (Place.id (Pick.place p) ∉ PickContext.visited context) /\
    isValidForStep (Pick.place p) step = true /\
    stayFor (Pick.place p) = Some (Pick.distanceKm p, Pick.startAt p, Pick.endAt p) /\
    (lockedAt (PickContext.lockedSteps context) (stepIndex + 1) = Some (Pick.place p) \/
     In (Pick.place p) allPlaces /\ eligibleForStep (Pick.place p) = true /\
     inReach (Pick.place p) = true)).
  { intros p Hp. apply scoredSearch_sound in Hp.
    destruct Hp as (Hin & Helig & Hreach & Hstay).
    pose proof Helig as Hparts. unfold eligibleForStep in Hparts.
    apply andb_true_iff in Hparts. destruct Hparts as [Hparts _].
    apply andb_true_iff in Hparts. destruct Hparts as [Hparts Hvalid].
    apply andb_true_iff in Hparts. destruct Hparts as [Hvis _].
    apply negb_true_iff, bool_decide_eq_false in Hvis. auto 10. }
  unfold pickCandidate.
  destruct (lockedAt _ _) as [locked|] eqn:Hlock; [|apply Hscored].
  destruct (negb _ && isValidForStep locked step) eqn:Hok; [|apply Hscored].
  destruct (validateWindow _ _ _) as [startAt|] eqn:Hwindow; [|apply Hscored].
  intros [= <-]. cbn [Pick.place Pick.distanceKm Pick.startAt Pick.endAt].
  apply andb_true_iff in Hok. destruct Hok as [Hvis Hvalid].
  apply negb_true_iff, bool_decide_eq_false in Hvis.
  repeat split; try assumption.
  - unfold stayFor. rewrite Hwindow. reflexivity.
  - left. reflexivity.
Qed.

End PickCandidate.

Lemma pickCandidate_sound_witness :
  exists pick,
    pickCandidate kst flatDistance nearestFirst lockedPool 0 warmUp lockedContext
      = Some pick /\
    Place.id (Pick.place pick) = "cafe-book"%string /\
    Place.id (Pick.place pick) ∉ PickContext.visited lockedContext.
Proof.
  eexists. split; [vm_compute; reflexivity|]. split; [reflexivity|].
  refine (proj1 (pickCandidate_sound kst flatDistance nearestFirst lockedPool 0%nat warmUp
                   lockedContext _ _)).
  vm_compute. reflexivity.
Defined.

(** ** The step plan *)

Lemma Qle_bool_trans_true a b x : a <= b -> Qle_bool b x = true -> Qle_bool a x = true.
Proof.
  intros Hab H. apply Qle_bool_iff in H. apply Qle_bool_iff. lra.
Qed.

Lemma Qle_bool_mono a x y : x <= y -> Qle_bool a x = true -> Qle_bool a y = true.
Proof.
  intros Hxy H. apply Qle_bool_iff in H. apply Qle_bool_iff. lra.
Qed.

(** X27: the plan of [buildSteps].  It starts with the warm-up and has two
    to seven steps; the steps with a window are the lunch, with the lunch
    window, and the dinner, with the dinner window, and only a restaurant is
    valid for them; lunch is planned from four hours on and dinner from six;
    and a longer duration only adds steps, in the same order. *)
Theorem buildSteps_plan mealWindows duration intensity :
  (exists rest, buildSteps mealWindows duration intensity = warmUp :: rest) /\
  (2 <= length (buildSteps mealWindows duration intensity) <= 7)%nat /\
  (forall step w,
     In step (buildSteps mealWindows duration intensity) -> window step = Some w ->
     (stepMealType step = Some mealLunch /\ w = lunchOf mealWindows \/
      stepMealType step = Some mealDinner /\ w = dinnerOf mealWindows) /\
     forall place, isValidForStep place step = true -> Place.type place = restaurant) /\
  (existsb (fun step => String.eqb (label step) "Lunch")
           (buildSteps mealWindows duration intensity) =
     Qle_bool 4 (default 6 duration)) /\
  (existsb (fun step => String.eqb (label step) "Dinner")
           (buildSteps mealWindows duration intensity) =
     Qle_bool 6 (default 6 duration)) /\
  (forall shorter longer, shorter <= longer ->
     sublist (buildSteps mealWindows (Some shorter) intensity)
             (buildSteps mealWindows (Some longer) intensity)).
Proof.
  unfold buildSteps. cbv zeta.
  set (hours := default 6 duration).
  split; [|split; [|split; [|split; [|split]]]].
  - destruct (Qle_bool 4 hours), intensity as [[]|], (Qle_bool 6 hours),
      (Qle_bool 5 hours), (Qle_bool 7 hours); eexists; reflexivity.
  - destruct (Qle_bool 4 hours), intensity as [[]|], (Qle_bool 6 hours),
      (Qle_bool 5 hours), (Qle_bool 7 hours); cbn; lia.
  - intros step w Hin Hw.
    assert (Hmeal : stepMealType step = Some mealLunch /\ w = lunchOf mealWindows \/
                    stepMealType step = Some mealDinner /\ w = dinnerOf mealWindows).
    { destruct (Qle_bool 4 hours), intensity as [[]|], (Qle_bool 6 hours),
        (Qle_bool 5 hours), (Qle_bool 7 hours); cbn in Hin;
        repeat (destruct Hin as [<-|Hin]; [cbn in Hw; try discriminate;
                                            injection Hw as <-; auto|]);
        destruct Hin. }
    split; [exact Hmeal|]. intros place Hvalid. unfold isValidForStep in Hvalid.
    destruct Hmeal as [[E _]|[E _]]; rewrite E in Hvalid;
      destruct (Place.type place); try reflexivity; discriminate.
  - destruct (Qle_bool 4 hours), intensity as [[]|], (Qle_bool 6 hours),
      (Qle_bool 5 hours), (Qle_bool 7 hours); reflexivity.
  - destruct (Qle_bool 4 hours), intensity as [[]|], (Qle_bool 6 hours),
      (Qle_bool 5 hours), (Qle_bool 7 hours); reflexivity.
  - intros shorter longer Hle. cbn [from_option]. unfold Datatypes.id.
    pose proof (Qle_bool_mono 4 shorter longer Hle) as H4.
    pose proof (Qle_bool_mono 5 shorter longer Hle) as H5.
    pose proof (Qle_bool_mono 6 shorter longer Hle) as H6.
    pose proof (Qle_bool_mono 7 shorter longer Hle) as H7.
    destruct (Qle_bool 4 shorter); [rewrite (H4 eq_refl)|clear H4];
      (destruct (Qle_bool 5 shorter); [rewrite (H5 eq_refl)|clear H5]);
      (destruct (Qle_bool 6 shorter); [rewrite (H6 eq_refl)|clear H6]);
      (destruct (Qle_bool 7 shorter); [rewrite (H7 eq_refl)|clear H7]);
      destruct intensity as [[]|];
      repeat match goal with
             | |- context [Qle_bool ?a longer] => destruct (Qle_bool a longer)
             end;
      cbn [app];
      repeat first [apply sublist_nil | apply sublist_skip | apply sublist_cons].
Qed.

(** ** The legacy weights *)

Lemma addTag_elem tags t x : x ∈ addTag tags t <-> x ∈ tags \/ x = t.
Proof.
  unfold addTag. destruct (bool_decide (t ∈ tags)) eqn:E.
  - apply bool_decide_eq_true in E. split; [auto|]. intros [H| ->]; assumption.
  - rewrite elem_of_app, list_elem_of_singleton. reflexivity.
Qed.

Lemma addTag_NoDup tags t : NoDup tags -> NoDup (addTag tags t).
Proof.
  intros Hnd. unfold addTag. destruct (bool_decide (t ∈ tags)) eqn:E; [exact Hnd|].
  apply bool_decide_eq_false in E. apply NoDup_app. split; [exact Hnd|].
  split; [|apply NoDup_singleton].
  intros x Hx Hx'. apply list_elem_of_singleton in Hx'. subst x. exact (E Hx).
Qed.

Lemma addTags_elem themes : forall tags x,
  x ∈ fold_left addTag themes tags <-> x ∈ tags \/ x ∈ themes.
Proof.
  induction themes as [|t themes IH]; intros tags x; cbn [fold_left].
  - rewrite elem_of_nil. tauto.
  - rewrite IH, addTag_elem, elem_of_cons. tauto.
Qed.

Lemma addTags_NoDup themes : forall tags,
  NoDup tags -> NoDup (fold_left addTag themes tags).
Proof.
  induction themes as [|t themes IH]; intros tags Hnd; cbn [fold_left]; [exact Hnd|].
  apply IH, addTag_NoDup, Hnd.
Qed.

Lemma extractTagsFromPlace_NoDup themes place : NoDup (extractTagsFromPlace themes place).
Proof.
  unfold extractTagsFromPlace. apply addTag_NoDup.
  destruct (Place.mealType place); repeat apply addTag_NoDup;
    apply addTags_NoDup, NoDup_nil_2.
Qed.

(** The tags of a place: its themes, its type and its meal type with a
    capital letter, and Indoor or Outdoor. *)
Lemma extractTagsFromPlace_elem themes place x :
  x ∈ extractTagsFromPlace themes place <->
  x ∈ themes \/
  x = capitalize (typeName (Place.type place)) \/
  (exists m, Place.mealType place = Some m /\ x = capitalize (mealTypeName m)) \/
  x = (if Place.isIndoor place then "Indoor" else "Outdoor")%string.
Proof.
  unfold extractTagsFromPlace. rewrite addTag_elem.
  destruct (Place.mealType place) as [m|].
  - rewrite !addTag_elem, addTags_elem, elem_of_nil. split.
    + intros [[[[[]|H]|H]|H]|H]; eauto 6.
    + intros [H|[H|[(m' & [= <-] & H)|H]]]; auto.
  - rewrite addTag_elem, addTags_elem, elem_of_nil. split.
    + intros [[[[]|H]|H]|H]; auto.
    + intros [H|[H|[(m' & [=] & _)|H]]]; auto.
Qed.

(** The loop of [updatePreference] over tags that are all different. *)
Lemma updatePreference_loop delta tags : forall (current : Preferences) key,
  NoDup tags ->
  fold_left
    (fun next tag =>
       <[tag := Qmax (1#10) (toFixed3 (default 1 (next !! tag) + delta))]> next)
    tags current !! key =
  if bool_decide (key ∈ tags)
  then Some (Qmax (1#10) (toFixed3 (default 1 (current !! key) + delta)))
  else current !! key.
Proof.
  induction tags as [|t tags IH]; intros current key Hnd; [reflexivity|].
  apply NoDup_cons in Hnd. destruct Hnd as [Hnew Hnd]. cbn [fold_left].
  rewrite IH by exact Hnd.
  destruct (decide (key = t)) as [->|Hne].
  - rewrite (bool_decide_eq_false_2 _ Hnew).
    rewrite bool_decide_eq_true_2 by (left).
    apply lookup_insert_eq.
  - rewrite lookup_insert_ne by congruence.
    destruct (bool_decide (key ∈ tags)) eqn:E.
    + rewrite bool_decide_eq_true_2; [reflexivity|].
      apply bool_decide_eq_true in E. right. exact E.
    + rewrite bool_decide_eq_false_2; [reflexivity|].
      apply bool_decide_eq_false in E. intros H. apply elem_of_cons in H.
      destruct H as [H|H]; [exact (Hne H) | exact (E H)].
Qed.

Lemma updatePreference_lookup themes place action current key :
  updatePreference themes place action current !! key =
  if bool_decide (key ∈ extractTagsFromPlace themes place)
  then Some (Qmax (1#10) (toFixed3 (default 1 (current !! key) + actionDelta action)))
  else current !! key.
Proof.
  unfold updatePreference. cbv zeta.
  apply updatePreference_loop, extractTagsFromPlace_NoDup.
Qed.

(** X28: the legacy update, key by key.  A weight whose key is none of the
    tags of the place is left as it is.  The weight of a tag is the old
    weight, 1 for a key that was absent, plus 0.1 on a like and minus 0.2 on
    a dislike, rounded to three decimals and raised to 0.1 if it is below:
    a tag becomes a key, no weight of a tag is below 0.1, and a like has no
    upper bound. *)
Theorem updatePreference_by_key themes place action current key :
  (key ∉ extractTagsFromPlace themes place ->
   updatePreference themes place action current !! key = current !! key) /\
  (key ∈ extractTagsFromPlace themes place ->
   exists weight,
     updatePreference themes place action current !! key = Some weight /\
     weight = Qmax (1#10) (toFixed3 (default 1 (current !! key) + actionDelta action)) /\
     1#10 <= weight /\
     (forall k : Z, default 1 (current !! key) == k # 1000 ->
        (action = LIKE -> 0 <= k -> weight == (k + 100) # 1000)%Z /\
        (action = DISLIKE -> 300 <= k -> weight == (k - 200) # 1000)%Z)).
Proof.
  rewrite updatePreference_lookup. split.
  - intros Hout. rewrite bool_decide_eq_false_2 by exact Hout. reflexivity.
  - intros Hin. rewrite bool_decide_eq_true_2 by exact Hin.
    eexists. split; [reflexivity|]. split; [reflexivity|].
    split; [apply Q.le_max_l|].
    intros k Hk. split; intros -> Hrange; cbn [actionDelta].
    + assert (E : default 1 (current !! key) + (1#10) == (k + 100) # 1000)
        by (rewrite Hk, (thousandths_plus k 100); apply Qplus_comp; reflexivity).
      rewrite (toFixed3_grid (k + 100) _ E). apply Q.max_r.
      unfold Qle. cbn. lia.
    + assert (E : default 1 (current !! key) + - (2#10) == (k - 200) # 1000).
      { rewrite Hk. unfold Z.sub. rewrite (thousandths_plus k (- 200)).
        apply Qplus_comp; reflexivity. }
      rewrite (toFixed3_grid (k - 200) _ E). apply Q.max_r.
      unfold Qle. cbn. lia.
Qed.

Lemma Noodle_not_a_tag themes place :
  "Noodle"%string ∉ themes -> "Noodle"%string ∉ extractTagsFromPlace themes place.
Proof.
  intros Hthemes Hin. apply extractTagsFromPlace_elem in Hin.
  destruct Hin as [H|[H|[(m & _ & H)|H]]].
  - exact (Hthemes H).
  - destruct (Place.type place); discriminate.
  - destruct m; discriminate.
  - destruct (Place.isIndoor place); discriminate.
Qed.

Lemma isUserVector_needs_Noodle (prefs : Preferences) :
  prefs !! "Noodle"%string = None -> isUserVector prefs = false.
Proof.
  intros H. unfold isUserVector, VECTOR_DIMENSIONS. cbn [forallb dimensionKey].
  rewrite H. rewrite (bool_decide_eq_false_2 (is_Some None)) by (intros [x Hx]; discriminate).
  rewrite andb_false_l, !andb_false_r. reflexivity.
Qed.

Lemma applyLegacyFeedback_snoc history themes place action :
  applyLegacyFeedback (history ++ [(themes, place, action)]) =
  updatePreference themes place action (applyLegacyFeedback history).
Proof. unfold applyLegacyFeedback. rewrite fold_left_app. reflexivity. Qed.

(** X29: the weights that the legacy update produces are never a user
    vector.  After any history of likes and dislikes from
    [INITIAL_PREFERENCES], on places none of whose themes is Noodle, the
    weights have no key Noodle, [isUserVector] is false of them, and
    [generateCourse] called with them and a start venue throws the
    ReferenceError of [convertToUserVector], whatever the pool. *)
Theorem legacy_feedback_never_user_vector history :
  (forall themes place action,
      In (themes, place, action) history -> "Noodle"%string ∉ themes) ->
  applyLegacyFeedback history !! "Noodle"%string = None /\
  isUserVector (applyLegacyFeedback history) = false /\
  forall localOffsetMs haversineDistance calculatePlaceScore allPlaces options
         startLocation,
    Options.startLocation options = Some startLocation ->
    generateCourse localOffsetMs haversineDistance calculatePlaceScore allPlaces
      (withUserPreferences options (applyLegacyFeedback history))
    = Throws (ReferenceError "INITIAL_USER_VECTOR").
Proof.
  intros Hthemes.
  assert (Hkey : applyLegacyFeedback history !! "Noodle"%string = None).
  { induction history as [|[[themes place] action] history IH] using rev_ind;
      [reflexivity|].
    rewrite applyLegacyFeedback_snoc, updatePreference_lookup.
    rewrite bool_decide_eq_false_2.
    - apply IH. intros themes' place' action' Hin.
      apply (Hthemes themes' place' action'). apply in_app_iff. left. exact Hin.
    - apply Noodle_not_a_tag. apply (Hthemes themes place action).
      apply in_app_iff. right. left. reflexivity. }
  pose proof (isUserVector_needs_Noodle _ Hkey) as Hvec.
  split; [exact Hkey|]. split; [exact Hvec|].
  intros localOffsetMs haversineDistance calculatePlaceScore allPlaces options
         startLocation Hstart.
  unfold generateCourse, convertToUserVector.
  cbn [withUserPreferences Options.startLocation Options.userPreferences].
  rewrite Hstart, Hvec. reflexivity.
Qed.

Lemma legacy_feedback_never_user_vector_witness :
  isUserVector
    (applyLegacyFeedback [(["Healing"; "Gourmet"]%string, noodleHouse, LIKE);
                          (["Activity"]%string, riverWalk, DISLIKE)]) = false.
Proof.
  apply (legacy_feedback_never_user_vector
           [(["Healing"; "Gourmet"]%string, noodleHouse, LIKE);
            (["Activity"]%string, riverWalk, DISLIKE)]).
  intros themes place action [[= <- <- <-]|[[= <- <- <-]|[]]] Hin;
    repeat (apply elem_of_cons in Hin; destruct Hin as [Hin|Hin]; [discriminate|]);
    apply elem_of_nil in Hin; exact Hin.
Defined.

(** * The builder over JavaScript's numbers and dates: properties *)

(** ** Numbers and dates *)

Lemma Js_gtb_num a b : Js.gtb a b = true <-> exists x y, a = Js.Num x /\ b = Js.Num y /\ y < x.
Proof.
  destruct a as [x|], b as [y|]; cbn; split;
    try (intros H; discriminate);
    try (intros (x' & y' & H1 & H2 & _); discriminate).
  - intros H. apply Qltb_lt in H. eauto.
  - intros (x' & y' & [= <-] & [= <-] & H). apply Qltb_lt. exact H.
Qed.

Lemma Js_geb_num a b : Js.geb a b = true <-> exists x y, a = Js.Num x /\ b = Js.Num y /\ y <= x.
Proof.
  destruct a as [x|], b as [y|]; cbn; split;
    try (intros H; discriminate);
    try (intros (x' & y' & H1 & H2 & _); discriminate).
  - intros H. apply Qle_bool_iff in H. eauto.
  - intros (x' & y' & [= <-] & [= <-] & H). apply Qle_bool_iff. exact H.
Qed.

(** Two dates in the order [a <= b] are valid dates, and [a > b] is false. *)
Lemma Js_notAfter_times a b :
  Js.notAfter a b = true <-> exists s t, a = Js.Time s /\ b = Js.Time t /\ (s <= t)%Z.
Proof.
  unfold Js.notAfter, Js.leb. rewrite Js_geb_num. split.
  - intros (x & y & Hb & Ha & Hle). destruct a as [s|], b as [t|]; try discriminate.
    injection Ha as <-. injection Hb as <-. rewrite <- Zle_Qle in Hle. eauto.
  - intros (s & t & -> & -> & Hle). exists (inject_Z t), (inject_Z s).
    rewrite <- Zle_Qle. auto.
Qed.

Lemma Js_after_times a b :
  Js.after a b = true <-> exists s t, a = Js.Time s /\ b = Js.Time t /\ (t < s)%Z.
Proof.
  unfold Js.after. rewrite Js_gtb_num. split.
  - intros (x & y & Ha & Hb & Hlt). destruct a as [s|], b as [t|]; try discriminate.
    injection Ha as <-. injection Hb as <-. rewrite <- Zlt_Qlt in Hlt. eauto.
  - intros (s & t & -> & -> & Hlt). exists (inject_Z s), (inject_Z t).
    rewrite <- Zlt_Qlt. auto.
Qed.

Lemma Js_notBefore_times a b :
  Js.notBefore a b = true <-> exists s t, a = Js.Time s /\ b = Js.Time t /\ (t <= s)%Z.
Proof.
  unfold Js.notBefore. rewrite Js_geb_num. split.
  - intros (x & y & Ha & Hb & Hle). destruct a as [s|], b as [t|]; try discriminate.
    injection Ha as <-. injection Hb as <-. rewrite <- Zle_Qle in Hle. eauto.
  - intros (s & t & -> & -> & Hle). exists (inject_Z s), (inject_Z t).
    rewrite <- Zle_Qle. auto.
Qed.

Lemma Js_before_times a b :
  Js.before a b = true <-> exists s t, a = Js.Time s /\ b = Js.Time t /\ (s < t)%Z.
Proof.
  unfold Js.before, Js.ltb. rewrite Js_gtb_num. split.
  - intros (x & y & Hb & Ha & Hlt). destruct a as [s|], b as [t|]; try discriminate.
    injection Ha as <-. injection Hb as <-. rewrite <- Zlt_Qlt in Hlt. eauto.
  - intros (s & t & -> & -> & Hlt). exists (inject_Z t), (inject_Z s).
    rewrite <- Zlt_Qlt. auto.
Qed.

(** What [a > b] being false says of two dates. *)
Lemma Js_not_after a b :
  Js.after a b = false <->
  forall s t, a = Js.Time s -> b = Js.Time t -> (s <= t)%Z.
Proof.
  split.
  - intros H s t -> ->. destruct (Z_le_gt_dec s t) as [Hle|Hgt]; [exact Hle|].
    assert (Js.after (Js.Time s) (Js.Time t) = true)
      by (apply Js_after_times; exists s, t; repeat split; lia).
    congruence.
  - intros H. destruct (Js.after a b) eqn:E; [|reflexivity].
    apply Js_after_times in E. destruct E as (s & t & -> & -> & Hlt).
    specialize (H s t eq_refl eq_refl). lia.
Qed.

Lemma Js_notAfter_not_after a b : Js.notAfter a b = true -> Js.after a b = false.
Proof.
  intros H. apply Js_notAfter_times in H. destruct H as (s & t & -> & -> & Hle).
  apply Js_not_after. intros s' t' [= <-] [= <-]. exact Hle.
Qed.

(** ** The candidate search *)

Lemma Js_keepBest_cases best c :
  Js.keepBest best c = Some c \/ Js.keepBest best c = best.
Proof.
  unfold Js.keepBest. destruct best as [b|]; [|left; reflexivity].
  destruct (Js.gtb _ _); [left | right]; reflexivity.
Qed.

Section JsSearch.

Variable LocalTZA : Z -> bool -> Z.
Variable haversineDistance : Q -> Q -> Q -> Q -> Js.number.
Variable calculatePlaceScore : Place.t -> Js.ScoreContext.t -> Js.number.

(** What [findPlaceForTime] returns is an unvisited place of the pool whose
    distance is not above 1.5 km on foot and whose stay does not end after
    [maxEndTime], in the sense of the comparisons of the code: a NaN
    distance and an Invalid Date pass them. *)
Lemma Js_findPlaceForTime_sound currentTime from allPlaces visited mealWindows
    transport baseDuration maxEndTime hasHadLunch hasHadDinner userVector
    selectedPlaces companion isRainy temperature found :
  Js.findPlaceForTime LocalTZA haversineDistance calculatePlaceScore currentTime from
    allPlaces visited mealWindows transport baseDuration maxEndTime hasHadLunch
    hasHadDinner userVector selectedPlaces companion isRainy temperature = Some found ->
  In (Js.Found.place found) allPlaces /\
  (Place.id (Js.Found.place found) ∉ visited) /\
  Js.Found.distanceKm found =
    Js.distanceBetween haversineDistance from (Js.Found.place found) /\
  (transport = foot -> Js.gtb (Js.Found.distanceKm found) (Js.Num (3#2)) = false) /\
  Js.exceeds maxEndTime (Js.Found.endAt found) = false.
Proof.
  unfold Js.findPlaceForTime.
  destruct (Js.stepForTime _ _ _ _ _) as [[[preferredTypes mealType] window] isMeal].
  set (candidates := List.filter _ allPlaces).
  destruct (length candidates =? 0)%nat; [discriminate|].
  set (step := fun (best : option Js.Candidate.t) (place : Place.t) => _).
  set (good := fun c : Js.Candidate.t =>
    In (Js.Candidate.place c) allPlaces /\
    (Place.id (Js.Candidate.place c) ∉ visited) /\
    Js.Candidate.distanceKm c =
      Js.distanceBetween haversineDistance from (Js.Candidate.place c) /\
    (transport = foot -> Js.gtb (Js.Candidate.distanceKm c) (Js.Num (3#2)) = false) /\
    Js.exceeds maxEndTime (Js.Candidate.endAt c) = false).
  assert (Hbest : forall c, fold_left step candidates None = Some c -> good c).
  { apply (fold_left_invariant step (fun best => forall c, best = Some c -> good c)).
    - discriminate.
    - intros best place Hin IH c. unfold step.
      destruct (isFoot (Some transport) &&
                Js.gtb (Js.distanceBetween haversineDistance from place) (Js.Num (3#2)))
        eqn:Hfar; [apply IH|].
      destruct (match window with Some w => _ | None => _ end) as [startAt|]; [|apply IH].
      destruct (Js.exceeds maxEndTime _) eqn:Hend; [apply IH|].
      match goal with |- Js.keepBest best ?new = _ -> _ =>
        destruct (Js_keepBest_cases best new) as [E|E]; rewrite E end; [|apply IH].
      intros [= <-]. unfold good. simpl.
      apply filter_In in Hin. destruct Hin as [Hin Hcond].
      unfold eligibleForTime in Hcond.
      apply andb_true_iff in Hcond. destruct Hcond as [Hvis _].
      apply negb_true_iff, bool_decide_eq_false in Hvis.
      repeat split; try assumption.
      intros ->. simpl in Hfar. exact Hfar. }
  destruct (fold_left step candidates None) as [b|]; [|discriminate].
  intros [= <-]. simpl. exact (Hbest b eq_refl).
Qed.

End JsSearch.

(** ** The states of the builder *)

Section JsInvariants.

Variable LocalTZA : Z -> bool -> Z.
Variable haversineDistance : Q -> Q -> Q -> Q -> Js.number.
Variable calculatePlaceScore : Place.t -> Js.ScoreContext.t -> Js.number.
Variable allPlaces : list Place.t.
Variable options : Options.t.
Variable startLocation : Place.t.
Variable userVector : UserVector.

Local Abbreviation search :=
  (Js.searchFrom LocalTZA haversineDistance calculatePlaceScore allPlaces options
                 userVector).
Local Abbreviation routeTo :=
  (Js.routeToAnchor LocalTZA haversineDistance calculatePlaceScore allPlaces options
                    userVector).
Local Abbreviation route :=
  (Js.routeAnchors LocalTZA haversineDistance calculatePlaceScore allPlaces options
                   userVector).
Local Abbreviation fill :=
  (Js.fillTime LocalTZA haversineDistance calculatePlaceScore allPlaces options
               userVector).
Local Abbreviation connect := (Js.connectAnchor LocalTZA options).
Local Abbreviation appendEnd := (Js.appendEndLocation haversineDistance options).
Local Abbreviation distance := (Js.distanceBetween haversineDistance).
Local Abbreviation maxEnd := (Js.maxEndTime options).
Local Abbreviation tooFar d := (isFoot (Some (transport options)) && Js.gtb d (Js.Num (3#2))).

Local Abbreviation Reach :=
  (Js.Reach LocalTZA haversineDistance calculatePlaceScore allPlaces options startLocation
            userVector).
Local Abbreviation lastResort :=
  (Js.lastResort LocalTZA haversineDistance calculatePlaceScore allPlaces options
                 startLocation userVector).
Local Abbreviation closingStep := (Js.closingStep options).

(** What a loop leaves behind: a state of [Reach], or one with the end
    venue appended to it, after which nothing else is appended. *)
Definition Ended (st' : Js.BuilderState) : Prop :=
  exists st, Reach st /\ st' = appendEnd true st.


Lemma routeToAnchor_Reach fuel anchor : forall st st',
  Reach st -> In anchor (anchorsToVisit options) ->
  routeTo fuel anchor st = Some st' -> Reach st'.
Proof.
  induction fuel as [|fuel IH]; intros st st' Hreach Hanchor; [discriminate|].
  cbn [Js.routeToAnchor].
  destruct (String.eqb _ _); [intros [= <-]; exact Hreach|].
  destruct (isFoot _ && _) eqn:Hfar.
  - destruct (search st) as [intermediate|] eqn:Hsearch.
    + pose proof (Js.Reach_found _ _ _ _ _ _ _ st intermediate Hreach Hsearch) as Hreach'.
      destruct (Js.notBefore _ _); [intros [= <-]; exact Hreach'|].
      apply IH; assumption.
    + intros [= <-]. apply Js.Reach_lastResort; assumption.
  - intros [= <-]. apply Js.Reach_direct; assumption.
Qed.

(** The first loop ends in a state of [Reach], or, when the time was up,
    with the end venue appended to one whose time is not before
    [maxEndTime]. *)
Lemma routeAnchors_Reach fuel anchors : forall st st',
  Reach st -> (forall a, In a anchors -> In a (anchorsToVisit options)) ->
  route fuel anchors st = Some st' ->
  Reach st' \/
  exists st0 , Reach st0 /\ st' = appendEnd true st0 /\
               Js.notBefore (Js.currentTime st0) maxEnd = true.
Proof.
  induction anchors as [|anchor rest IH]; intros st st' Hreach Hanchors;
    cbn [Js.routeAnchors]; [intros [= <-]; left; exact Hreach|].
  assert (Hrest : forall a, In a rest -> In a (anchorsToVisit options))
    by (intros a Ha; apply Hanchors; right; exact Ha).
  destruct (bool_decide _); [apply IH; assumption|].
  destruct (Js.notBefore _ _) eqn:Htime.
  - intros [= <-]. right. exists st. auto.
  - destruct (routeTo fuel anchor st) as [st1|] eqn:Hroute; [|discriminate].
    apply IH; [|exact Hrest].
    apply (routeToAnchor_Reach fuel anchor st st1); auto.
    apply Hanchors. left. reflexivity.
Qed.

Lemma appendEnd_time markVisited st :
  Js.currentTime (appendEnd markVisited st) = Js.currentTime st.
Proof.
  unfold Js.appendEndLocation. destruct (targetEndLocation options); [|reflexivity].
  destruct (bool_decide _); [reflexivity|]. destruct (Js.notAfter _ _); reflexivity.
Qed.

Lemma notBefore_not_before a b : Js.notBefore a b = true -> Js.before a b = false.
Proof.
  intros H. apply Js_notBefore_times in H. destruct H as (s & t & -> & -> & Hle).
  destruct (Js.before _ _) eqn:E; [|reflexivity].
  apply Js_before_times in E. destruct E as (s' & t' & [= <-] & [= <-] & Hlt). lia.
Qed.

Lemma fillTime_Reach fuel : forall st st',
  Reach st -> fill fuel st = Some st' -> Reach st' \/ Ended st'.
Proof.
  induction fuel as [|fuel IH]; intros st st' Hreach; [discriminate|].
  cbn [Js.fillTime].
  destruct (Js.before _ _); [|intros [= <-]; left; exact Hreach].
  destruct (Js.ltb _ _); [intros [= <-]; left; exact Hreach|].
  destruct (search st) as [nextPlace|] eqn:Hsearch; [|intros [= <-]; left; exact Hreach].
  destruct (Js.after _ _); [intros [= <-]; right; exists st; auto|].
  apply IH. apply Js.Reach_found; assumption.
Qed.

Lemma fillTime_stops fuel st :
  Js.before (Js.currentTime st) maxEnd = false -> fill (S fuel) st = Some st.
Proof. intros H. cbn [Js.fillTime]. rewrite H. reflexivity. Qed.

(** The end step, when [appendEndLocation] appends it. *)
Definition endStep (st : Js.BuilderState) (e : Place.t) : Js.CourseStep.t :=
  let travelTime :=
    Js.travelMinutes (distance (Js.currentPlace st) e) (Some (transport options)) in
  let arriveAt := Js.addMinutes (Js.currentTime st) travelTime in
  Js.CourseStep.mk e arriveAt arriveAt travelTime.

Lemma appendEnd_cases markVisited st :
  appendEnd markVisited st = st \/
  exists e,
    targetEndLocation options = Some e /\
    (Place.id e ∉ Js.visited st) /\
    Js.notAfter (Js.CourseStep.endTime (endStep st e)) maxEnd = true /\
    Js.sequence (appendEnd markVisited st) = Js.sequence st ++ [e] /\
    Js.courseSteps (appendEnd markVisited st) = Js.courseSteps st ++ [endStep st e] /\
    Js.totalDistance (appendEnd markVisited st) =
      Js.add (Js.totalDistance st) (distance (Js.currentPlace st) e) /\
    (markVisited = true -> Place.id e ∈ Js.visited (appendEnd markVisited st)).
Proof.
  unfold Js.appendEndLocation.
  destruct (targetEndLocation options) as [e|]; [|left; reflexivity].
  destruct (bool_decide _) eqn:Hvis; [left; reflexivity|].
  apply bool_decide_eq_false in Hvis.
  destruct (Js.notAfter _ _) eqn:Harr; [|left; reflexivity].
  right. exists e. cbn [Js.sequence Js.courseSteps Js.totalDistance Js.visited].
  repeat split; try assumption; try reflexivity.
  intros ->. set_solver.
Qed.

(** Appending the end venue again changes nothing. *)
Lemma appendEnd_twice st :
  exists markVisited, appendEnd false (appendEnd true st) = appendEnd markVisited st.
Proof.
  destruct (appendEnd_cases true st) as [E|(e & He & _ & _ & _ & _ & _ & Hvis)].
  - exists false. rewrite E. reflexivity.
  - exists true. specialize (Hvis eq_refl).
    unfold Js.appendEndLocation at 1. rewrite He.
    rewrite bool_decide_eq_true_2 by exact Hvis. reflexivity.
Qed.

(** The course is read off a state of [Reach], with or without the end
    venue appended to it. *)
Lemma buildCourse_Reach course :
  Js.buildCourse LocalTZA haversineDistance calculatePlaceScore allPlaces options
    startLocation userVector = Some course ->
  exists st markVisited,
    Reach st /\
    Js.GeneratedCourse.sequence course = Js.sequence (appendEnd markVisited st) /\
    Js.GeneratedCourse.steps course = Js.courseSteps (appendEnd markVisited st) /\
    Js.GeneratedCourse.totalDistance course =
      Js.mul (Js.round (Js.mul (Js.totalDistance (appendEnd markVisited st)) (Js.Num 10)))
             (Js.Num (1 # 10)).
Proof.
  unfold Js.buildCourse.
  destruct (route _ _ _) as [st|] eqn:Hroute; [|discriminate].
  destruct (fill _ st) as [st'|] eqn:Hfill; [|discriminate].
  intros [= <-].
  assert (Hfinal : exists st0 markVisited,
             Reach st0 /\ appendEnd false st' = appendEnd markVisited st0).
  { pose proof (routeAnchors_Reach _ _ _ _ (Js.Reach_initial _ _ _ _ _ _ _) (fun a H => H) Hroute)
      as [Hreach|(st0 & Hreach & -> & Htime)].
    - apply fillTime_Reach in Hfill; [|exact Hreach].
      destruct Hfill as [Hreach'|(st0 & Hreach0 & ->)].
      + exists st', false. auto.
      + destruct (appendEnd_twice st0) as [b Hb]. exists st0, b. auto.
    - unfold loopFuel in Hfill. rewrite fillTime_stops in Hfill.
      + injection Hfill as <-. destruct (appendEnd_twice st0) as [b Hb].
        exists st0, b. auto.
      + rewrite appendEnd_time. apply notBefore_not_before. exact Htime. }
  destruct Hfinal as (st0 & b & Hreach & E).
  exists st0, b. unfold Js.finish. cbv zeta. rewrite E. cbn. auto.
Qed.

(** *** Every call returns *)

Lemma Js_routeToAnchor_total fuel anchor : forall st,
  (unvisitedCount allPlaces (Js.visited st) < fuel)%nat ->
  exists st', routeTo fuel anchor st = Some st'.
Proof.
  induction fuel as [|fuel IH]; intros st Hfuel; [lia|].
  cbn [Js.routeToAnchor].
  destruct (String.eqb _ _); [eauto|].
  destruct (isFoot _ && _); [|eauto].
  destruct (search st) as [intermediate|] eqn:Hsearch; [|eauto].
  destruct (Js.notBefore _ _); [eauto|].
  apply IH. cbn [Js.pushFound Js.visited].
  unfold Js.searchFrom in Hsearch. apply Js_findPlaceForTime_sound in Hsearch.
  destruct Hsearch as (Hin & Hnew & _).
  pose proof (unvisitedCount_visit allPlaces (Js.visited st) _ Hin Hnew). lia.
Qed.

Lemma Js_routeAnchors_total fuel anchors : forall st,
  (length allPlaces < fuel)%nat -> exists st', route fuel anchors st = Some st'.
Proof.
  induction anchors as [|anchor rest IH]; intros st Hfuel; cbn [Js.routeAnchors]; [eauto|].
  destruct (bool_decide _); [apply IH; exact Hfuel|].
  destruct (Js.notBefore _ _); [eauto|].
  destruct (Js_routeToAnchor_total fuel anchor st) as [st1 ->]; [|apply IH; exact Hfuel].
  pose proof (unvisitedCount_le allPlaces (Js.visited st)). lia.
Qed.

Lemma Js_fillTime_total fuel : forall st,
  (unvisitedCount allPlaces (Js.visited st) < fuel)%nat ->
  exists st', fill fuel st = Some st'.
Proof.
  induction fuel as [|fuel IH]; intros st Hfuel; [lia|].
  cbn [Js.fillTime].
  destruct (Js.before _ _); [|eauto].
  destruct (Js.ltb _ _); [eauto|].
  destruct (search st) as [nextPlace|] eqn:Hsearch; [|eauto].
  destruct (Js.after _ _); [eauto|].
  apply IH. cbn [Js.pushFound Js.visited].
  unfold Js.searchFrom in Hsearch. apply Js_findPlaceForTime_sound in Hsearch.
  destruct Hsearch as (Hin & Hnew & _).
  pose proof (unvisitedCount_visit allPlaces (Js.visited st) _ Hin Hnew). lia.
Qed.

Lemma Js_buildCourse_total :
  exists course,
    Js.buildCourse LocalTZA haversineDistance calculatePlaceScore allPlaces options
      startLocation userVector = Some course.
Proof.
  unfold Js.buildCourse, loopFuel.
  destruct (Js_routeAnchors_total (S (length allPlaces)) (anchorsToVisit options)
              (Js.initialState options startLocation)) as [st ->]; [lia|].
  destruct (Js_fillTime_total (S (length allPlaces)) st) as [st' ->]; [|eauto].
  pose proof (unvisitedCount_le allPlaces (Js.visited st)). lia.
Qed.

(** *** End times *)

Definition Js_firstStep : Js.CourseStep.t :=
  Js.CourseStep.mk startLocation (Js.startTime options) (Js.startTime options) (Js.Num 0).

(** The first step is the start venue at the start time, and no later step
    ends after [maxEndTime]. *)
Definition endsInTime (steps : list Js.CourseStep.t) : Prop :=
  exists rest,
    steps = Js_firstStep :: rest /\
    Forall (fun s => Js.after (Js.CourseStep.endTime s) maxEnd = false) rest.

Lemma endsInTime_snoc steps step :
  endsInTime steps -> Js.after (Js.CourseStep.endTime step) maxEnd = false ->
  endsInTime (steps ++ [step]).
Proof.
  intros (rest & -> & Hall) Hstep. exists (rest ++ [step]). split; [reflexivity|].
  apply Forall_app. split; [exact Hall|]. constructor; [exact Hstep|constructor].
Qed.

Lemma Reach_endsInTime st : Reach st -> endsInTime (Js.courseSteps st).
Proof.
  induction 1 as [|st found Hreach IH Hsearch|st anchor Hreach IH Hin Hfar Hsearch
                  |st anchor Hreach IH Hin Hfar].
  - exists []. split; [reflexivity|constructor].
  - cbn [Js.pushFound Js.courseSteps]. apply endsInTime_snoc; [exact IH|].
    unfold Js.searchFrom in Hsearch. apply Js_findPlaceForTime_sound in Hsearch.
    apply Hsearch.
  - unfold Js.connectAnchor. destruct (Js.after _ _) eqn:Hend; [exact IH|].
    cbn [Js.courseSteps]. apply endsInTime_snoc; [exact IH | exact Hend].
  - unfold Js.connectAnchor. destruct (Js.after _ _) eqn:Hend; [exact IH|].
    cbn [Js.courseSteps]. apply endsInTime_snoc; [exact IH | exact Hend].
Qed.

Lemma appendEnd_endsInTime markVisited st :
  Reach st -> endsInTime (Js.courseSteps (appendEnd markVisited st)).
Proof.
  intros Hreach. pose proof (Reach_endsInTime st Hreach) as IH.
  destruct (appendEnd_cases markVisited st) as [->|(e & _ & _ & Harr & _ & -> & _)];
    [exact IH|].
  apply endsInTime_snoc; [exact IH|]. apply Js_notAfter_not_after. exact Harr.
Qed.

(** *** Hops on foot *)

Definition near (a b : Js.CourseStep.t) : Prop :=
  Js.gtb (distance (Js.CourseStep.place a) (Js.CourseStep.place b)) (Js.Num (3#2)) = false.

Definition hops (steps : list Js.CourseStep.t) : Prop :=
  forall i a b,
    steps !! i = Some a -> steps !! S i = Some b ->
    near a b \/ lastResort (take (S i) steps) b.

Lemma lookup_snoc_cases {A : Type} (l : list A) (x y : A) i :
  (l ++ [x]) !! i = Some y ->
  (i < length l)%nat /\ l !! i = Some y \/ i = length l /\ y = x.
Proof.
  intros H. destruct (Nat.lt_ge_cases i (length l)) as [Hlt|Hge].
  - left. split; [exact Hlt|]. rewrite lookup_app_l in H by exact Hlt. exact H.
  - right. rewrite lookup_app_r in H by exact Hge.
    destruct (i - length l)%nat as [|k] eqn:E; cbn in H; [|destruct k; discriminate].
    split; [lia | congruence].
Qed.

Lemma hops_snoc steps step :
  hops steps ->
  (forall a, last steps = Some a -> near a step \/ lastResort steps step) ->
  hops (steps ++ [step]).
Proof.
  intros Hhops Hlast i a b Ha Hb.
  apply lookup_snoc_cases in Hb. destruct Hb as [[Hlt Hb]|[Hi ->]].
  - rewrite lookup_app_l in Ha by lia.
    rewrite take_app_le by lia. exact (Hhops i a b Ha Hb).
  - rewrite lookup_app_l in Ha by lia.
    rewrite take_app_le by lia. rewrite Hi, firstn_all.
    apply Hlast. rewrite last_lookup. rewrite <- Hi. exact Ha.
Qed.

Section Foot.

Hypothesis Hfoot : transport options = foot.

(** In a state of [Reach] the current place is the place of the last
    step, and every hop is short or was the last resort. *)
Lemma Reach_hops st :
  Reach st ->
  (exists a, last (Js.courseSteps st) = Some a /\
             Js.CourseStep.place a = Js.currentPlace st) /\
  hops (Js.courseSteps st).
Proof.
  induction 1 as [|st found Hreach [(l & Hl & Hplace) IH] Hsearch
                  |st anchor Hreach [(l & Hl & Hplace) IH] Hin Hfar Hsearch
                  |st anchor Hreach [(l & Hl & Hplace) IH] Hin Hfar].
  - split; [eexists; split; reflexivity|].
    intros i a b Ha Hb. destruct i; discriminate.
  - cbn [Js.pushFound Js.courseSteps Js.currentPlace]. split.
    + eexists. rewrite last_snoc. split; reflexivity.
    + apply hops_snoc; [exact IH|]. intros a Ha. left.
      rewrite Hl in Ha. injection Ha as <-.
      unfold Js.searchFrom in Hsearch. apply Js_findPlaceForTime_sound in Hsearch.
      destruct Hsearch as (_ & _ & Hd & Hnear & _).
      unfold near. cbn [Js.CourseStep.place]. rewrite Hplace, <- Hd.
      apply Hnear. exact Hfoot.
  - unfold Js.connectAnchor. destruct (Js.after _ _); [split; [eauto | exact IH]|].
    cbn [Js.courseSteps Js.currentPlace]. split.
    + eexists. rewrite last_snoc. split; reflexivity.
    + apply hops_snoc; [exact IH|]. intros a Ha. right. split; [exact Hin|].
      exists st. auto.
  - unfold Js.connectAnchor. destruct (Js.after _ _); [split; [eauto | exact IH]|].
    cbn [Js.courseSteps Js.currentPlace]. split.
    + eexists. rewrite last_snoc. split; reflexivity.
    + apply hops_snoc; [exact IH|]. intros a Ha. left.
      rewrite Hl in Ha. injection Ha as <-.
      unfold near. cbn [Js.CourseStep.place]. rewrite Hplace.
      rewrite Hfoot in Hfar. cbn in Hfar. exact Hfar.
Qed.

Lemma appendEnd_hops markVisited st :
  Reach st ->
  forall i a b,
    Js.courseSteps (appendEnd markVisited st) !! i = Some a ->
    Js.courseSteps (appendEnd markVisited st) !! S i = Some b ->
    near a b \/
    lastResort (take (S i) (Js.courseSteps (appendEnd markVisited st))) b \/
    closingStep (Js.courseSteps (appendEnd markVisited st)) (S i) b.
Proof.
  intros Hreach i a b. destruct (Reach_hops st Hreach) as [_ Hhops].
  destruct (appendEnd_cases markVisited st) as [->|(e & He & _ & _ & _ & -> & _)].
  - intros Ha Hb. destruct (Hhops i a b Ha Hb); auto.
  - intros Ha Hb. apply lookup_snoc_cases in Hb. destruct Hb as [[Hlt Hb]|[Hi ->]].
    + rewrite lookup_app_l in Ha by lia. rewrite take_app_le by lia.
      destruct (Hhops i a b Ha Hb); auto.
    + right. right. unfold Js.closingStep. rewrite length_app. cbn.
      repeat split; [exact He | lia].
Qed.

End Foot.

End JsInvariants.

(** ** Dates in JavaScript *)

Lemma TimeClip_whole z :
  Js.TimeClip (Js.Num (inject_Z z)) =
  if (Z.abs z <=? Js.maxTimeValue)%Z then Js.Time z else Js.InvalidDate.
Proof.
  unfold Js.TimeClip. rewrite truncQ_inject.
  destruct (Z.abs z <=? Js.maxTimeValue)%Z eqn:E.
  - apply Z.leb_le in E.
    assert (H : Qltb (inject_Z Js.maxTimeValue) (Qabs (inject_Z z)) = false).
    { apply Qltb_ge. change (Qabs (inject_Z z)) with (inject_Z (Z.abs z)).
      rewrite <- Zle_Qle. exact E. }
    rewrite H. reflexivity.
  - apply Z.leb_gt in E.
    assert (H : Qltb (inject_Z Js.maxTimeValue) (Qabs (inject_Z z)) = true).
    { apply Qltb_lt. change (Qabs (inject_Z z)) with (inject_Z (Z.abs z)).
      rewrite <- Zlt_Qlt. exact E. }
    rewrite H. reflexivity.
Qed.

Lemma TimeClip_Time time t : Js.TimeClip time = Js.Time t ->
  exists q, time = Js.Num q /\ t = truncQ q /\ Qabs q <= inject_Z Js.maxTimeValue.
Proof.
  unfold Js.TimeClip. destruct time as [q|]; [|discriminate].
  destruct (Qltb _ _) eqn:E; [discriminate|]. intros [= <-].
  exists q. repeat split. apply Qltb_ge. exact E.
Qed.

Lemma dateOf_Time z t : Js.dateOf z = Js.Time t -> t = z.
Proof.
  unfold Js.dateOf. rewrite TimeClip_whole. destruct (_ <=? _)%Z; congruence.
Qed.

Lemma addMinutes_Time date minutes s :
  Js.addMinutes date minutes = Js.Time s ->
  exists t m, date = Js.Time t /\ minutes = Js.Num m /\
              s = truncQ (inject_Z t + m * 60000) /\
              Qabs (inject_Z t + m * 60000) <= inject_Z Js.maxTimeValue.
Proof.
  unfold Js.addMinutes. intros H. apply TimeClip_Time in H.
  destruct H as (q & Hq & -> & Hrange).
  destruct date as [t|], minutes as [m|]; try discriminate.
  injection Hq as <-. exists t, m. auto.
Qed.

(** *** A host whose offset from UTC never changes *)

Section ConstantOffset.

Variable LocalTZA : Z -> bool -> Z.
Variable localOffsetMs : Z.
Hypothesis constant_offset : forall t isUTC, LocalTZA t isUTC = localOffsetMs.

Lemma Js_minutesSinceMidnight_Time t :
  Js.minutesSinceMidnight LocalTZA (Js.Time t) =
  Some (minutesSinceMidnight localOffsetMs t).
Proof.
  unfold Js.minutesSinceMidnight, Js.LocalTime, minutesSinceMidnight, getHours, getMinutes.
  rewrite constant_offset. reflexivity.
Qed.

Lemma Js_setHours_Time t hours minutes :
  Js.setHours LocalTZA (Js.Time t) hours minutes =
  Js.dateOf (setHours localOffsetMs t hours minutes).
Proof.
  unfold Js.setHours, Js.LocalTime, Js.UTC, Js.dateOf, setHours. cbv zeta.
  rewrite !constant_offset. do 3 f_equal. ring.
Qed.

Lemma Js_startOfWindow_Time t w :
  Js.startOfWindow LocalTZA (Js.Time t) w =
  option_map Js.dateOf (startOfWindow localOffsetMs t w).
Proof.
  unfold Js.startOfWindow, startOfWindow. rewrite Js_minutesSinceMidnight_Time.
  cbv zeta. destruct (_ >? _)%Z; [reflexivity|].
  cbn [option_map]. rewrite Js_setHours_Time. reflexivity.
Qed.

Lemma Js_startOfWindow_start arriveAt w startAt :
  Js.startOfWindow LocalTZA arriveAt w = Some (Js.Time startAt) ->
  exists a, arriveAt = Js.Time a /\ startOfWindow localOffsetMs a w = Some startAt.
Proof.
  destruct arriveAt as [a|]; [|discriminate].
  rewrite Js_startOfWindow_Time.
  destruct (startOfWindow localOffsetMs a w) as [s|] eqn:E; [|discriminate].
  cbn [option_map]. intros [= H]. apply dateOf_Time in H. subst s. eauto.
Qed.

End ConstantOffset.

(** ** What the search finds, in JavaScript *)

Section JsStay.

Variable LocalTZA : Z -> bool -> Z.
Variable haversineDistance : Q -> Q -> Q -> Q -> Js.number.
Variable calculatePlaceScore : Place.t -> Js.ScoreContext.t -> Js.number.
Variables (currentTime : Js.Date) (from : Place.t) (allPlaces : list Place.t)
          (visited : gset string) (mealWindows : option MealWindows)
          (transport : Transport) (baseDuration : Q) (maxEndTime : option Js.Date)
          (hasHadLunch hasHadDinner : bool) (userVector : UserVector)
          (selectedPlaces : list Place.t) (companion : option Companion)
          (isRainy : option bool) (temperature : option Q).

(** What is found is a candidate for the step of the time of day, and its
    stay is the one that the loop computes for it. *)
Lemma Js_findPlaceForTime_stay found :
  Js.findPlaceForTime LocalTZA haversineDistance calculatePlaceScore currentTime from
    allPlaces visited mealWindows transport baseDuration maxEndTime hasHadLunch
    hasHadDinner userVector selectedPlaces companion isRainy temperature = Some found ->
  exists preferredTypes mealType window,
    Js.stepForTime (Js.minutesSinceMidnight LocalTZA currentTime) (lunchOf mealWindows)
      (dinnerOf mealWindows) hasHadLunch hasHadDinner =
      (preferredTypes, mealType, window, Js.Found.isMeal found) /\
    In (Js.Found.place found)
       (List.filter (eligibleForTime visited preferredTypes mealType
                                     (Js.Found.isMeal found)) allPlaces) /\
    let arriveAt :=
      Js.addMinutes currentTime
        (Js.travelMinutes (Js.distanceBetween haversineDistance from
                             (Js.Found.place found)) (Some transport)) in
    match window with
    | Some w => Js.startOfWindow LocalTZA arriveAt w = Some (Js.Found.startAt found)
    | None => Js.Found.startAt found = arriveAt
    end.
Proof.
  unfold Js.findPlaceForTime.
  destruct (Js.stepForTime _ _ _ _ _) as [[[preferredTypes mealType] window] isMeal].
  set (candidates := List.filter _ allPlaces).
  destruct (length candidates =? 0)%nat; [discriminate|].
  set (step := fun (best : option Js.Candidate.t) (place : Place.t) => _).
  set (good := fun c : Js.Candidate.t =>
    In (Js.Candidate.place c) candidates /\
    match window with
    | Some w =>
        Js.startOfWindow LocalTZA
          (Js.addMinutes currentTime
             (Js.travelMinutes (Js.distanceBetween haversineDistance from
                                  (Js.Candidate.place c)) (Some transport))) w =
        Some (Js.Candidate.startAt c)
    | None =>
        Js.Candidate.startAt c =
        Js.addMinutes currentTime
          (Js.travelMinutes (Js.distanceBetween haversineDistance from
                               (Js.Candidate.place c)) (Some transport))
    end).
  assert (Hbest : forall c, fold_left step candidates None = Some c -> good c).
  { apply (fold_left_invariant step (fun best => forall c, best = Some c -> good c)).
    - discriminate.
    - intros best place Hin IH c. unfold step.
      destruct (isFoot (Some transport) && _); [apply IH|].
      destruct (match window with Some w => _ | None => _ end) as [startAt|] eqn:Hstart;
        [|apply IH].
      destruct (Js.exceeds maxEndTime _); [apply IH|].
      match goal with |- Js.keepBest best ?new = _ -> _ =>
        destruct (Js_keepBest_cases best new) as [E|E]; rewrite E end; [|apply IH].
      intros [= <-]. unfold good. cbn [Js.Candidate.place Js.Candidate.startAt].
      split; [exact Hin|].
      destruct window as [w|]; [exact Hstart | congruence]. }
  destruct (fold_left step candidates None) as [b|]; [|discriminate].
  intros [= <-]. cbn [Js.Found.place Js.Found.startAt Js.Found.isMeal].
  exists preferredTypes, mealType, window. split; [reflexivity|].
  destruct (Hbest b eq_refl) as [Hin Hstart]. split; [exact Hin|]. exact Hstart.
Qed.

End JsStay.

Lemma Js_travelMinutes_Num distanceKm transport m :
  Js.travelMinutes distanceKm transport = Js.Num m ->
  exists d, distanceKm = Js.Num d /\ m = travelMinutes d transport.
Proof.
  destruct distanceKm as [d|].
  - intros H. exists d. split; [reflexivity|].
    destruct transport as [[]|]; cbn in H; injection H as <-; reflexivity.
  - destruct transport as [[]|]; discriminate.
Qed.

(** An arrival at a valid date is not before the departure, when the
    distance is not negative. *)
Lemma Js_arrival_after date distanceKm transport a :
  Js.ltb distanceKm (Js.Num 0) = false ->
  Js.addMinutes date (Js.travelMinutes distanceKm transport) = Js.Time a ->
  exists t, date = Js.Time t /\ (t <= a)%Z.
Proof.
  intros Hd H. apply addMinutes_Time in H.
  destruct H as (t & m & -> & Hm & -> & _).
  apply Js_travelMinutes_Num in Hm. destruct Hm as (d & -> & ->).
  exists t. split; [reflexivity|].
  apply (addMinutes_nonneg t), travelMinutes_nonneg.
  cbn in Hd. apply Qltb_ge in Hd. exact Hd.
Qed.

Section JsOrder.

Variable LocalTZA : Z -> bool -> Z.
Variable localOffsetMs : Z.
Hypothesis constant_offset : forall t isUTC, LocalTZA t isUTC = localOffsetMs.
Variable haversineDistance : Q -> Q -> Q -> Q -> Js.number.
Variable calculatePlaceScore : Place.t -> Js.ScoreContext.t -> Js.number.
Variables (currentTime : Js.Date) (from : Place.t) (allPlaces : list Place.t)
          (visited : gset string) (mealWindows : option MealWindows)
          (transport : Transport) (baseDuration : Q) (maxEndTime : option Js.Date)
          (hasHadLunch hasHadDinner : bool) (userVector : UserVector)
          (selectedPlaces : list Place.t) (companion : option Companion)
          (isRainy : option bool) (temperature : option Q).

Lemma eligible_restaurant preferredTypes mealType isMeal place :
  In place (List.filter (eligibleForTime visited preferredTypes mealType isMeal) allPlaces) ->
  Place.type place = restaurant -> isMeal = true.
Proof.
  intros Hin Hrest. apply filter_In in Hin. destruct Hin as [_ Hin].
  unfold eligibleForTime in Hin. rewrite Hrest in Hin.
  destruct isMeal; [reflexivity|]. cbn in Hin. rewrite !andb_false_r in Hin. discriminate.
Qed.

Lemma eligible_meal mealType place :
  In place (List.filter (eligibleForTime visited [restaurant] mealType true) allPlaces) ->
  Place.type place = restaurant.
Proof.
  intros H. apply filter_In in H. destruct H as [_ H].
  unfold eligibleForTime, includesType in H. simpl existsb in H.
  destruct (Place.type place); try reflexivity;
    cbn in H; rewrite ?andb_false_r in H; discriminate.
Qed.

(** A restaurant that is found starts inside the lunch or the dinner
    window, unless its start is an Invalid Date. *)
Lemma Js_findPlaceForTime_meal_start found :
  Js.findPlaceForTime LocalTZA haversineDistance calculatePlaceScore currentTime from
    allPlaces visited mealWindows transport baseDuration maxEndTime hasHadLunch
    hasHadDinner userVector selectedPlaces companion isRainy temperature = Some found ->
  Place.type (Js.Found.place found) = restaurant ->
  forall startAt, Js.Found.startAt found = Js.Time startAt ->
    inWindow (minutesSinceMidnight localOffsetMs startAt) (lunchOf mealWindows) = true \/
    inWindow (minutesSinceMidnight localOffsetMs startAt) (dinnerOf mealWindows) = true.
Proof.
  intros Hfound Hrest startAt Hstart. apply Js_findPlaceForTime_stay in Hfound.
  destruct Hfound as (preferredTypes & mealType & window & Hstep & Hin & Hstay).
  cbv zeta in Hstay.
  pose proof (eligible_restaurant _ _ _ _ Hin Hrest) as Hmeal. rewrite Hmeal in Hstep.
  destruct currentTime as [t|]; [|discriminate].
  rewrite (Js_minutesSinceMidnight_Time LocalTZA localOffsetMs constant_offset) in Hstep.
  cbn [Js.stepForTime] in Hstep. unfold stepForTime in Hstep.
  pose proof (minutesSinceMidnight_range localOffsetMs t) as Hrange.
  set (minutes := minutesSinceMidnight localOffsetMs t) in *.
  assert (Hwindow : forall w arriveAt,
             inWindow minutes w = true ->
             Js.startOfWindow LocalTZA arriveAt w = Some (Js.Found.startAt found) ->
             inWindow (minutesSinceMidnight localOffsetMs startAt) w = true).
  { intros w arriveAt Hw H. rewrite Hstart in H.
    apply (Js_startOfWindow_start LocalTZA localOffsetMs constant_offset) in H.
    destruct H as (a & _ & H). apply startOfWindow_inside in H.
    unfold inWindow in Hw. apply andb_true_iff in Hw. apply H; lia. }
  destruct (negb hasHadLunch && inWindow minutes (lunchOf mealWindows)) eqn:Hlunch;
    [|destruct (negb hasHadDinner && inWindow minutes (dinnerOf mealWindows)) eqn:Hdinner].
  - injection Hstep as <- <- <-. apply andb_true_iff in Hlunch. left.
    eapply Hwindow; [apply Hlunch | exact Hstay].
  - injection Hstep as <- <- <-. apply andb_true_iff in Hdinner. right.
    eapply Hwindow; [apply Hdinner | exact Hstay].
  - destruct ((minutes >? _)%Z && _); discriminate.
Qed.

(** The stay at what is found starts less than a minute before the current
    time, and not before it unless a restaurant is found. *)
Lemma Js_findPlaceForTime_start found :
  Js.findPlaceForTime LocalTZA haversineDistance calculatePlaceScore currentTime from
    allPlaces visited mealWindows transport baseDuration maxEndTime hasHadLunch
    hasHadDinner userVector selectedPlaces companion isRainy temperature = Some found ->
  Js.ltb (Js.distanceBetween haversineDistance from (Js.Found.place found)) (Js.Num 0)
    = false ->
  forall startAt, Js.Found.startAt found = Js.Time startAt ->
    exists t, currentTime = Js.Time t /\
              (t - msPerMinute < startAt)%Z /\
              (Place.type (Js.Found.place found) <> restaurant -> (t <= startAt)%Z).
Proof.
  intros Hfound Hdist startAt Hstart. apply Js_findPlaceForTime_stay in Hfound.
  destruct Hfound as (preferredTypes & mealType & window & Hstep & Hin & Hstay).
  cbv zeta in Hstay. rewrite Hstart in Hstay.
  destruct window as [w|].
  - apply (Js_startOfWindow_start LocalTZA localOffsetMs constant_offset) in Hstay.
    destruct Hstay as (a & Harrive & Hstay).
    apply (Js_arrival_after _ _ _ _ Hdist) in Harrive.
    destruct Harrive as (t & -> & Hle).
    apply startOfWindow_inside in Hstay. destruct Hstay as [Hstay _].
    exists t. split; [reflexivity|]. split; [unfold msPerMinute in *; lia|].
    intros Hother. exfalso. apply Hother.
    rewrite (Js_minutesSinceMidnight_Time LocalTZA localOffsetMs constant_offset) in Hstep.
    cbn [Js.stepForTime] in Hstep. unfold stepForTime in Hstep.
    destruct (negb hasHadLunch && _); [|destruct (negb hasHadDinner && _)].
    + injection Hstep as <- <- _ Hmeal. rewrite <- Hmeal in Hin.
      eapply eligible_meal. exact Hin.
    + injection Hstep as <- <- _ Hmeal. rewrite <- Hmeal in Hin.
      eapply eligible_meal. exact Hin.
    + destruct ((_ >? _)%Z && _); discriminate.
  - symmetry in Hstay. apply (Js_arrival_after _ _ _ _ Hdist) in Hstay.
    destruct Hstay as (t & -> & Hle).
    exists t. split; [reflexivity|]. unfold msPerMinute. split; [lia | intros _; exact Hle].
Qed.

End JsOrder.

(** ** The order of the steps and the meals, in JavaScript *)

Section JsCourse.

Variable LocalTZA : Z -> bool -> Z.
Variable localOffsetMs : Z.
Hypothesis constant_offset : forall t isUTC, LocalTZA t isUTC = localOffsetMs.
Variable haversineDistance : Q -> Q -> Q -> Q -> Js.number.
Variable calculatePlaceScore : Place.t -> Js.ScoreContext.t -> Js.number.
Variable allPlaces : list Place.t.
Variable options : Options.t.
Variable startLocation : Place.t.
Variable userVector : UserVector.

Local Abbreviation Reach :=
  (Js.Reach LocalTZA haversineDistance calculatePlaceScore allPlaces options startLocation
            userVector).
Local Abbreviation appendEnd := (Js.appendEndLocation haversineDistance options).

(** In a state of [Reach] the course stands at the place of its last step,
    at the time at which that step ends. *)
Lemma Reach_last st :
  Reach st ->
  exists a, last (Js.courseSteps st) = Some a /\
            Js.CourseStep.place a = Js.currentPlace st /\
            Js.CourseStep.endTime a = Js.currentTime st.
Proof.
  induction 1 as [|st found Hreach IH Hsearch|st anchor Hreach IH Hin Hfar Hsearch
                  |st anchor Hreach IH Hin Hfar].
  - eexists. repeat split.
  - eexists. cbn [Js.pushFound Js.courseSteps]. rewrite last_snoc. repeat split.
  - unfold Js.connectAnchor. destruct (Js.after _ _); [exact IH|].
    eexists. cbn [Js.courseSteps]. rewrite last_snoc. repeat split.
  - unfold Js.connectAnchor. destruct (Js.after _ _); [exact IH|].
    eexists. cbn [Js.courseSteps]. rewrite last_snoc. repeat split.
Qed.

(** A restaurant of the course is the start venue, an anchor, or a stop
    whose stay starts inside the lunch or the dinner window, when it starts
    at a valid date. *)
Definition Js_mealStop (step : Js.CourseStep.t) : Prop :=
  Js.CourseStep.place step = startLocation \/
  isAnchor options (Js.CourseStep.place step) \/
  forall startAt, Js.CourseStep.startTime step = Js.Time startAt ->
    inWindow (minutesSinceMidnight localOffsetMs startAt)
             (lunchOf (mealWindows options)) = true \/
    inWindow (minutesSinceMidnight localOffsetMs startAt)
             (dinnerOf (mealWindows options)) = true.

Lemma Reach_meals st :
  Reach st ->
  forall step, In step (Js.courseSteps st) ->
    Place.type (Js.CourseStep.place step) = restaurant -> Js_mealStop step.
Proof.
  induction 1 as [|st found Hreach IH Hsearch|st anchor Hreach IH Hin Hfar Hsearch
                  |st anchor Hreach IH Hin Hfar]; intros step Hstep Hrest.
  - destruct Hstep as [<-|[]]. left. reflexivity.
  - cbn [Js.pushFound Js.courseSteps] in Hstep. apply in_app_iff in Hstep.
    destruct Hstep as [Hstep|[<-|[]]]; [apply IH; assumption|].
    right. right. cbn [Js.CourseStep.startTime Js.CourseStep.place] in *.
    unfold Js.searchFrom in Hsearch.
    eapply Js_findPlaceForTime_meal_start; eassumption.
  - unfold Js.connectAnchor in Hstep. destruct (Js.after _ _); [apply IH; assumption|].
    cbn [Js.courseSteps] in Hstep. apply in_app_iff in Hstep.
    destruct Hstep as [Hstep|[<-|[]]]; [apply IH; assumption|].
    right. left. apply isAnchor_anchorsToVisit. exact Hin.
  - unfold Js.connectAnchor in Hstep. destruct (Js.after _ _); [apply IH; assumption|].
    cbn [Js.courseSteps] in Hstep. apply in_app_iff in Hstep.
    destruct Hstep as [Hstep|[<-|[]]]; [apply IH; assumption|].
    right. left. apply isAnchor_anchorsToVisit. exact Hin.
Qed.

Lemma appendEnd_meals markVisited st :
  Reach st ->
  forall step, In step (Js.courseSteps (appendEnd markVisited st)) ->
    Place.type (Js.CourseStep.place step) = restaurant -> Js_mealStop step.
Proof.
  intros Hreach step Hstep Hrest.
  destruct (appendEnd_cases haversineDistance calculatePlaceScore options markVisited st)
    as [E|(e & He & _ & _ & _ & E & _)]; rewrite E in Hstep.
  - eapply Reach_meals; eassumption.
  - apply in_app_iff in Hstep. destruct Hstep as [Hstep|[<-|[]]].
    + eapply Reach_meals; eassumption.
    + right. left. right. exact He.
Qed.

(** A step that starts at a valid date after a step that ends at one
    starts less than a minute before that end, and not before it unless
    its place is a restaurant. *)
Definition Js_inOrder (a b : Js.CourseStep.t) : Prop :=
  forall endTime startTime,
    Js.CourseStep.endTime a = Js.Time endTime ->
    Js.CourseStep.startTime b = Js.Time startTime ->
    (endTime - msPerMinute < startTime)%Z /\
    (Place.type (Js.CourseStep.place b) <> restaurant -> (endTime <= startTime)%Z).

Section Chronology.

Hypothesis distance_not_negative :
  forall lat1 lng1 lat2 lng2,
    Js.ltb (haversineDistance lat1 lng1 lat2 lng2) (Js.Num 0) = false.

Lemma Js_arrival_inOrder st (p : Place.t) a startAt travelTime endAt :
  last (Js.courseSteps st) = Some a ->
  Js.CourseStep.endTime a = Js.currentTime st ->
  startAt =
    Js.addMinutes (Js.currentTime st)
      (Js.travelMinutes (Js.distanceBetween haversineDistance (Js.currentPlace st) p)
                        (Some (transport options))) ->
  Js_inOrder a (Js.CourseStep.mk p startAt endAt travelTime).
Proof.
  intros Hlast Hend -> endTime startTime Ha Hb.
  cbn [Js.CourseStep.startTime Js.CourseStep.place] in *.
  apply Js_arrival_after in Hb; [|apply distance_not_negative].
  destruct Hb as (t & Ht & Hle). rewrite Hend, Ht in Ha. injection Ha as <-.
  unfold msPerMinute. split; [lia | intros _; exact Hle].
Qed.

Lemma Reach_chronology st : Reach st -> adjacent Js_inOrder (Js.courseSteps st).
Proof.
  induction 1 as [|st found Hreach IH Hsearch|st anchor Hreach IH Hin Hfar Hsearch
                  |st anchor Hreach IH Hin Hfar].
  - apply adjacent_singleton.
  - cbn [Js.pushFound Js.courseSteps]. apply adjacent_snoc; [exact IH|]. intros a Ha.
    destruct (Reach_last st Hreach) as (a' & Ha' & _ & Hend).
    rewrite Ha in Ha'. injection Ha' as <-.
    intros endTime startTime HendTime Hstart.
    cbn [Js.CourseStep.startTime Js.CourseStep.place] in *.
    unfold Js.searchFrom in Hsearch.
    eapply Js_findPlaceForTime_start in Hsearch;
      [|exact constant_offset|apply distance_not_negative|exact Hstart].
    destruct Hsearch as (t & Ht & Hsearch).
    rewrite Hend, Ht in HendTime. injection HendTime as <-. exact Hsearch.
  - unfold Js.connectAnchor. destruct (Js.after _ _); [exact IH|].
    cbn [Js.courseSteps]. apply adjacent_snoc; [exact IH|]. intros a Ha.
    destruct (Reach_last st Hreach) as (a' & Ha' & _ & Hend).
    rewrite Ha in Ha'. injection Ha' as <-.
    eapply Js_arrival_inOrder; [exact Ha | exact Hend | reflexivity].
  - unfold Js.connectAnchor. destruct (Js.after _ _); [exact IH|].
    cbn [Js.courseSteps]. apply adjacent_snoc; [exact IH|]. intros a Ha.
    destruct (Reach_last st Hreach) as (a' & Ha' & _ & Hend).
    rewrite Ha in Ha'. injection Ha' as <-.
    eapply Js_arrival_inOrder; [exact Ha | exact Hend | reflexivity].
Qed.

Lemma appendEnd_chronology markVisited st :
  Reach st -> adjacent Js_inOrder (Js.courseSteps (appendEnd markVisited st)).
Proof.
  intros Hreach. pose proof (Reach_chronology st Hreach) as IH.
  destruct (appendEnd_cases haversineDistance calculatePlaceScore options markVisited st)
    as [->|(e & _ & _ & _ & _ & -> & _)]; [exact IH|].
  apply adjacent_snoc; [exact IH|]. intros a Ha.
  destruct (Reach_last st Hreach) as (a' & Ha' & _ & Hend).
  rewrite Ha in Ha'. injection Ha' as <-.
  eapply Js_arrival_inOrder; [exact Ha | exact Hend | reflexivity].
Qed.

End Chronology.

End JsCourse.

(** ** The nearest place, in JavaScript *)

Lemma Js_ltb_trans a b c : Js.ltb a b = true -> Js.ltb b c = true -> Js.ltb a c = true.
Proof.
  destruct a as [x|], b as [y|], c as [z|]; cbn; try discriminate.
  rewrite !Qltb_lt. apply Qlt_trans.
Qed.

Lemma Js_ltb_le_trans a b c :
  Js.ltb a b = true -> Js.ltb c b = false -> c = Js.NaN \/ Js.ltb a c = true.
Proof.
  destruct a as [x|], b as [y|], c as [z|]; cbn; try discriminate; auto.
  rewrite !Qltb_lt, Qltb_ge. intros H1 H2. right. eapply Qlt_le_trans; eassumption.
Qed.

Section JsNearest.

Variable haversineDistance : Q -> Q -> Q -> Q -> Js.number.
Variables (from : Place.t) (visited : gset string) (transport : Transport).

Local Abbreviation reach := (Js.reachable haversineDistance from visited transport).

Lemma Js_findNearestPlace_cases candidates :
  match Js.findNearestPlace haversineDistance from candidates visited transport with
  | None => forall place, In place candidates -> reach place = None
  | Some nearest =>
      exists before after,
        candidates = before ++ Js.Nearest.place nearest :: after /\
        reach (Js.Nearest.place nearest) = Some (Js.Nearest.distanceKm nearest) /\
        (forall place d, In place before -> reach place = Some d ->
                         d = Js.NaN \/ Js.ltb (Js.Nearest.distanceKm nearest) d = true) /\
        (forall place d, In place after -> reach place = Some d ->
                         Js.ltb d (Js.Nearest.distanceKm nearest) = false) /\
        (Js.Nearest.distanceKm nearest = Js.NaN ->
         forall place, In place before -> reach place = None)
  end.
Proof.
  unfold Js.findNearestPlace.
  set (loop := fun (nearest : option Js.Nearest.t) (place : Place.t) => _).
  assert (Hloop : forall nearest place,
    loop nearest place =
    match reach place with
    | None => nearest
    | Some d =>
        match nearest with
        | None => Some (Js.Nearest.mk place d)
        | Some n => if Js.ltb d (Js.Nearest.distanceKm n)
                    then Some (Js.Nearest.mk place d) else nearest
        end
    end).
  { intros nearest place. unfold loop, Js.reachable.
    destruct (bool_decide _); [reflexivity|].
    cbv zeta. destruct (isFoot _ && _); reflexivity. }
  clearbody loop.
  induction candidates as [|x l IH] using rev_ind; [intros place []|].
  rewrite fold_left_app. cbn [fold_left]. rewrite Hloop.
  destruct (reach x) as [d|] eqn:Hx.
  - destruct (fold_left loop l None) as [n|].
    + destruct IH as (before & after & -> & Hn & Hbefore & Hafter & Hnan).
      destruct (Js.ltb d (Js.Nearest.distanceKm n)) eqn:Hlt.
      * cbn [Js.Nearest.place Js.Nearest.distanceKm].
        exists (before ++ Js.Nearest.place n :: after), [].
        split; [reflexivity|]. split; [exact Hx|]. split; [|split].
        -- intros place d' Hin Hd'. apply in_app_iff in Hin.
           destruct Hin as [Hin|[<-|Hin]].
           ++ destruct (Hbefore place d' Hin Hd') as [E|E]; [left; exact E|].
              right. eapply Js_ltb_trans; eassumption.
           ++ rewrite Hn in Hd'. injection Hd' as <-. right. exact Hlt.
           ++ eapply Js_ltb_le_trans; [exact Hlt | apply (Hafter place d' Hin Hd')].
        -- intros place d' [].
        -- intros ->. destruct (Js.Nearest.distanceKm n); discriminate.
      * exists before, (after ++ [x]). split; [rewrite <- app_assoc; reflexivity|].
        split; [exact Hn|]. split; [exact Hbefore|]. split; [|exact Hnan].
        intros place d' Hin Hd'. apply in_app_iff in Hin.
        destruct Hin as [Hin|[<-|[]]]; [apply (Hafter place d' Hin Hd')|].
        rewrite Hx in Hd'. injection Hd' as <-. exact Hlt.
    + cbn [Js.Nearest.place Js.Nearest.distanceKm].
      exists l, []. split; [reflexivity|]. split; [exact Hx|]. split; [|split].
      * intros place d' Hin Hd'. rewrite (IH place Hin) in Hd'. discriminate.
      * intros place d' [].
      * intros _. exact IH.
  - destruct (fold_left loop l None) as [n|].
    + destruct IH as (before & after & -> & Hn & Hbefore & Hafter & Hnan).
      exists before, (after ++ [x]). split; [rewrite <- app_assoc; reflexivity|].
      split; [exact Hn|]. split; [exact Hbefore|]. split; [|exact Hnan].
      intros place d' Hin Hd'. apply in_app_iff in Hin.
      destruct Hin as [Hin|[<-|[]]]; [apply (Hafter place d' Hin Hd')|].
      rewrite Hx in Hd'. discriminate.
    + intros place Hin. apply in_app_iff in Hin. destruct Hin as [Hin|[<-|[]]]; auto.
Qed.

End JsNearest.

(** ** The course that [generateCourse] returns, in JavaScript *)

Lemma Js_generateCourse_returns LocalTZA haversineDistance calculatePlaceScore allPlaces
    options course :
  Js.generateCourse LocalTZA haversineDistance calculatePlaceScore allPlaces options
    = Js.ReturnsCourse course ->
  exists startLocation userVector,
    Options.startLocation options = Some startLocation /\
    convertToUserVector (Options.userPreferences options) = Normal userVector /\
    Js.buildCourse LocalTZA haversineDistance calculatePlaceScore allPlaces options
      startLocation userVector = Some course.
Proof.
  unfold Js.generateCourse.
  destruct (Options.startLocation options) as [startLocation|]; [|discriminate].
  destruct (convertToUserVector _) as [userVector|e]; [|discriminate].
  destruct (Js.buildCourse _ _ _ _ _ _ _) as [c|] eqn:Hbuild; [|discriminate].
  intros [= <-]. eauto.
Qed.


(** C4, as the code has it: on foot, of two consecutive steps the later
    one is not more than 1.5 km from the earlier one, in the sense of the
    comparison that the code makes, [distanceKm > 1.5], unless it is an
    anchor taken as the last resort, after the search for an intermediate
    stop found nothing, or the end venue appended when the course is
    closed. *)
Theorem generateCourse_foot_hops LocalTZA haversineDistance calculatePlaceScore
    allPlaces options course :
  Js.generateCourse LocalTZA haversineDistance calculatePlaceScore allPlaces options
    = Js.ReturnsCourse course ->
  transport options = foot ->
  exists startLocation userVector,
    Options.startLocation options = Some startLocation /\
    convertToUserVector (Options.userPreferences options) = Normal userVector /\
    forall i a b,
      Js.GeneratedCourse.steps course !! i = Some a ->
      Js.GeneratedCourse.steps course !! S i = Some b ->
      Js.gtb (Js.distanceBetween haversineDistance (Js.CourseStep.place a)
                                 (Js.CourseStep.place b)) (Js.Num (3#2)) = false \/
      Js.lastResort LocalTZA haversineDistance calculatePlaceScore allPlaces options
        startLocation userVector (take (S i) (Js.GeneratedCourse.steps course)) b \/
      Js.closingStep options (Js.GeneratedCourse.steps course) (S i) b.
Proof.
  intros H Hfoot. apply Js_generateCourse_returns in H.
  destruct H as (startLocation & userVector & Hstart & Hvector & Hbuild).
  exists startLocation, userVector. split; [exact Hstart|]. split; [exact Hvector|].
  apply buildCourse_Reach in Hbuild.
  destruct Hbuild as (st & markVisited & Hreach & _ & Hsteps & _). rewrite Hsteps.
  exact (appendEnd_hops _ _ _ _ _ _ _ Hfoot markVisited st Hreach).
Qed.



(** What the comparisons let through: with a distance that is NaN, as
    [haversineDistance] is for a venue at the antipode, the venue is taken
    as a stop, and the step has no start and no end. *)
Example antipodal_stop_has_no_end_time :
  exists course step,
    Js.generateCourse koreaTime flatDistanceOrNaN nearestFirstNumber [antipodeCafe]
      exampleOptions = Js.ReturnsCourse course /\
    Js.GeneratedCourse.steps course !! 1%nat = Some step /\
    Js.CourseStep.place step = antipodeCafe /\
    Js.distanceBetween flatDistanceOrNaN cityHall antipodeCafe = Js.NaN /\
    Js.CourseStep.endTime step = Js.InvalidDate /\
    Js.after (Js.CourseStep.endTime step) (Js.maxEndTime exampleOptions) = false.
Proof.
  eexists. eexists. split; [vm_compute; reflexivity|].
  split; [reflexivity|]. repeat split; vm_compute; reflexivity.
Qed.

(** C4 as stated fails: on foot, the course from the city hall goes to the
    south cafe; there less than 30 minutes are left, so the search for a
    stop is not run, though it would find the kiosk, and the station exit,
    1.8 km away, is appended as the end venue. *)
Lemma end_venue_beyond_reach :
  exists course st found a b,
    Js.generateCourse koreaTime flatDistanceNumber nearestFirstNumber [southCafe; kiosk]
      exitOptions = Js.ReturnsCourse course /\
    transport exitOptions = foot /\
    Js.GeneratedCourse.steps course !! 1%nat = Some a /\
    Js.GeneratedCourse.steps course !! 2%nat = Some b /\
    Js.CourseStep.place a = southCafe /\
    Js.CourseStep.place b = stationExit /\
    Js.gtb (Js.distanceBetween flatDistanceNumber southCafe stationExit) (Js.Num (3#2))
      = true /\
    Js.Reach koreaTime flatDistanceNumber nearestFirstNumber [southCafe; kiosk]
      exitOptions cityHall (asUserVector neutralPreferences) st /\
    Js.courseSteps st = take 2 (Js.GeneratedCourse.steps course) /\
    Js.searchFrom koreaTime flatDistanceNumber nearestFirstNumber [southCafe; kiosk]
      exitOptions (asUserVector neutralPreferences) st = Some found /\
    Js.Found.place found = kiosk.
Proof.
  eexists. eexists. eexists. eexists. eexists.
  split; [vm_compute; reflexivity|]. split; [reflexivity|].
  split; [reflexivity|]. split; [reflexivity|]. split; [reflexivity|].
  split; [reflexivity|]. split; [vm_compute; reflexivity|].
  split; [eapply Js.Reach_found; [apply Js.Reach_initial | vm_compute; reflexivity]|].
  split; [vm_compute; reflexivity|].
  split; [vm_compute; reflexivity|]. reflexivity.
Qed.

Lemma generateCourse_foot_hops_witness :
  exists course,
    Js.generateCourse koreaTime flatDistanceNumber nearestFirstNumber [southCafe; kiosk]
      exitOptions = Js.ReturnsCourse course /\
    transport exitOptions = foot /\
    exists startLocation userVector,
      Options.startLocation exitOptions = Some startLocation /\
      convertToUserVector (Options.userPreferences exitOptions) = Normal userVector /\
      forall i a b,
        Js.GeneratedCourse.steps course !! i = Some a ->
        Js.GeneratedCourse.steps course !! S i = Some b ->
        Js.gtb (Js.distanceBetween flatDistanceNumber (Js.CourseStep.place a)
                                   (Js.CourseStep.place b)) (Js.Num (3#2)) = false \/
        Js.lastResort koreaTime flatDistanceNumber nearestFirstNumber [southCafe; kiosk]
          exitOptions startLocation userVector
          (take (S i) (Js.GeneratedCourse.steps course)) b \/
        Js.closingStep exitOptions (Js.GeneratedCourse.steps course) (S i) b.
Proof.
  eexists. split; [vm_compute; reflexivity|]. split; [reflexivity|].
  apply (generateCourse_foot_hops koreaTime flatDistanceNumber nearestFirstNumber
           [southCafe; kiosk] exitOptions).
  - vm_compute. reflexivity.
  - reflexivity.
Defined.

(** X31: in JavaScript too, with a start venue and a preference object that
    has the ten dimensions, [generateCourse] returns a course, whatever the
    pool, the distances (NaN among them), the dates and the time zone:
    both of its loops end, and the course begins with the start venue. *)
Theorem generateCourse_returns_with_NaN LocalTZA haversineDistance calculatePlaceScore
    allPlaces options startLocation :
  Options.startLocation options = Some startLocation ->
  isUserVector (Options.userPreferences options) = true ->
  exists course steps,
    Js.generateCourse LocalTZA haversineDistance calculatePlaceScore allPlaces options
      = Js.ReturnsCourse course /\
    Js.GeneratedCourse.steps course =
      Js.CourseStep.mk startLocation (Js.startTime options) (Js.startTime options)
                       (Js.Num 0) :: steps.
Proof.
  intros Hstart Hvec. unfold Js.generateCourse, convertToUserVector. rewrite Hstart, Hvec.
  destruct (Js_buildCourse_total LocalTZA haversineDistance calculatePlaceScore allPlaces
              options startLocation (asUserVector (Options.userPreferences options)))
    as [course Hbuild].
  rewrite Hbuild. apply buildCourse_Reach in Hbuild.
  destruct Hbuild as (st & markVisited & Hreach & _ & Hsteps & _).
  destruct (appendEnd_endsInTime _ _ _ _ _ _ _ markVisited st Hreach)
    as (rest & Erest & _).
  exists course, rest. split; [reflexivity|]. rewrite Hsteps. exact Erest.
Qed.

Lemma generateCourse_returns_with_NaN_witness :
  exists course steps,
    Js.generateCourse koreaTime flatDistanceOrNaN nearestFirstNumber [antipodeCafe]
      exampleOptions = Js.ReturnsCourse course /\
    Js.GeneratedCourse.steps course =
      Js.CourseStep.mk cityHall (Js.startTime exampleOptions)
                       (Js.startTime exampleOptions) (Js.Num 0) :: steps.
Proof.
  apply (generateCourse_returns_with_NaN koreaTime flatDistanceOrNaN nearestFirstNumber
           [antipodeCafe] exampleOptions cityHall).
  - reflexivity.
  - vm_compute. reflexivity.
Defined.

(** X14: the window check, where the offset of local time never changes.
    An arrival at a valid date is refused exactly when its minute of the
    day is after the end of the window.  Otherwise the stay starts on a
    whole minute, at the later of the arrival minute and the start of the
    window: at the start of the window (after the arrival) for an early
    arrival, and else at the arrival with its seconds cut off, so up to a
    minute before the arrival.  An arrival at an Invalid Date is not
    refused, and the stay starts at an Invalid Date. *)
Theorem startOfWindow_start LocalTZA localOffsetMs arriveAt w :
  (forall t isUTC, LocalTZA t isUTC = localOffsetMs) ->
  let arriveMinutes := minutesSinceMidnight localOffsetMs arriveAt in
  Js.minutesSinceMidnight LocalTZA (Js.Time arriveAt) = Some arriveMinutes /\
  (Js.startOfWindow LocalTZA (Js.Time arriveAt) w = None <->
   (endMinutes w < arriveMinutes)%Z) /\
  Js.startOfWindow LocalTZA Js.InvalidDate w = Some Js.InvalidDate /\
  forall startAt,
    Js.startOfWindow LocalTZA (Js.Time arriveAt) w = Some (Js.Time startAt) ->
    ((startAt + localOffsetMs) mod msPerMinute = 0)%Z /\
    (startMinutes w < 1440 ->
     minutesSinceMidnight localOffsetMs startAt = Z.max arriveMinutes (startMinutes w))%Z /\
    (arriveMinutes < startMinutes w -> arriveAt < startAt)%Z /\
    (startMinutes w <= arriveMinutes -> arriveAt - msPerMinute < startAt <= arriveAt)%Z.
Proof.
  intros Hzone. cbv zeta.
  destruct (startOfWindow_local localOffsetMs arriveAt w) as [Hnone Hsome].
  cbv zeta in Hnone, Hsome.
  split; [apply (Js_minutesSinceMidnight_Time _ _ Hzone)|].
  split; [|split; [reflexivity|]].
  - rewrite (Js_startOfWindow_Time _ _ Hzone), <- Hnone.
    destruct (startOfWindow localOffsetMs arriveAt w); cbn; split; congruence.
  - intros startAt H. apply (Js_startOfWindow_start _ _ Hzone) in H.
    destruct H as (a & [= <-] & H). exact (Hsome startAt H).
Qed.

Lemma startOfWindow_start_witness :
  exists startAt,
    Js.startOfWindow koreaTime (Js.Time (tenOClock + 8499600)) DEFAULT_LUNCH_WINDOW
      = Some (Js.Time startAt) /\
    startAt = (tenOClock + 8460000)%Z /\
    (tenOClock + 8499600 - msPerMinute < startAt <= tenOClock + 8499600)%Z.
Proof.
  eexists. split; [vm_compute; reflexivity|]. split; [reflexivity|].
  apply (startOfWindow_start koreaTime kst (tenOClock + 8499600) DEFAULT_LUNCH_WINDOW).
  - reflexivity.
  - vm_compute. reflexivity.
  - vm_compute. discriminate.
Defined.

(** X15: [addMinutes] on a date in range.  It is exact on a whole number
    of minutes, as long as the sum is in the range of [Date], and gives an
    Invalid Date beyond it; an Invalid Date and NaN minutes give an Invalid
    Date; what it returns is in range; and a longer time never gives an
    earlier date.  The whole minutes are taken below 2^53 milliseconds,
    where the product and the sum of the code are exact in doubles. *)
Theorem addMinutes_exact_monotone (t m : Z) minutes minutes' :
  (Z.abs t <= Js.maxTimeValue)%Z ->
  (Z.abs (m * 60000) <= 2 ^ 53)%Z ->
  minutes <= minutes' ->
  Js.addMinutes (Js.Time t) (Js.Num (inject_Z m)) =
    (if (Z.abs (t + m * 60000) <=? Js.maxTimeValue)%Z
     then Js.Time (t + m * 60000) else Js.InvalidDate) /\
  Js.addMinutes (Js.Time t) (Js.Num 0) = Js.Time t /\
  Js.addMinutes Js.InvalidDate (Js.Num minutes) = Js.InvalidDate /\
  Js.addMinutes (Js.Time t) Js.NaN = Js.InvalidDate /\
  (forall s, Js.addMinutes (Js.Time t) (Js.Num minutes) = Js.Time s ->
             (Z.abs s <= Js.maxTimeValue)%Z) /\
  (forall s s',
      Js.addMinutes (Js.Time t) (Js.Num minutes) = Js.Time s ->
      Js.addMinutes (Js.Time t) (Js.Num minutes') = Js.Time s' -> (s <= s')%Z).
Proof.
  intros Ht _ Hle. split; [|split; [|split; [|split; [|split]]]].
  - unfold Js.addMinutes. cbn [Js.getTime Js.mul Js.add Js.lift2].
    change 60000 with (inject_Z 60000).
    rewrite <- inject_Z_mult, <- inject_Z_plus. apply TimeClip_whole.
  - unfold Js.addMinutes. cbn [Js.getTime Js.mul Js.add Js.lift2].
    change 0 with (inject_Z 0). change 60000 with (inject_Z 60000).
    rewrite <- inject_Z_mult, <- inject_Z_plus, TimeClip_whole.
    replace (t + 0 * 60000)%Z with t by lia.
    apply Z.leb_le in Ht. rewrite Ht. reflexivity.
  - reflexivity.
  - reflexivity.
  - intros s H. apply TimeClip_Time in H. destruct H as (q & _ & -> & Hq).
    apply Z.abs_le. apply Qabs_Qle_condition in Hq. destruct Hq as [Hlo Hhi].
    rewrite <- inject_Z_opp in Hlo.
    apply truncQ_monotone in Hlo, Hhi. rewrite truncQ_inject in Hlo, Hhi. lia.
  - intros s s' H H'. apply addMinutes_Time in H, H'.
    destruct H as (t1 & m1 & [= <-] & [= <-] & -> & _).
    destruct H' as (t2 & m2 & [= <-] & [= <-] & -> & _).
    apply truncQ_monotone. lra.
Qed.

Lemma addMinutes_exact_monotone_witness :
  Js.addMinutes (Js.Time tenOClock) (Js.Num (inject_Z 90)) =
    Js.Time (tenOClock + 90 * 60000) /\
  (forall s s',
      Js.addMinutes (Js.Time tenOClock) (Js.Num (1332#1000)) = Js.Time s ->
      Js.addMinutes (Js.Time tenOClock) (Js.Num 90) = Js.Time s' -> (s <= s')%Z).
Proof.
  destruct (addMinutes_exact_monotone tenOClock 90 (1332#1000) 90)
    as (Hexact & _ & _ & _ & _ & Hmono).
  - vm_compute. discriminate.
  - vm_compute. discriminate.
  - vm_compute. discriminate.
  - split; [exact Hexact | exact Hmono].
Defined.

Lemma flatDistanceNumber_not_negative lat1 lng1 lat2 lng2 :
  Js.ltb (flatDistanceNumber lat1 lng1 lat2 lng2) (Js.Num 0) = false.
Proof. cbn. apply Qltb_ge. apply flatDistance_nonneg. Qed.

(** X21: the steps of a returned course are in order, up to a minute,
    where the offset of local time never changes and no distance is a
    negative number.  Of two consecutive steps with valid dates, the later
    one starts less than a minute before the earlier one ends, and no
    earlier than that end unless its place is a restaurant: the lunch and
    dinner stays start on the whole minute of the arrival, which can lie
    before the arrival. *)
Theorem generateCourse_chronological LocalTZA localOffsetMs haversineDistance
    calculatePlaceScore allPlaces options course :
  (forall t isUTC, LocalTZA t isUTC = localOffsetMs) ->
  (forall lat1 lng1 lat2 lng2,
      Js.ltb (haversineDistance lat1 lng1 lat2 lng2) (Js.Num 0) = false) ->
  Js.generateCourse LocalTZA haversineDistance calculatePlaceScore allPlaces options
    = Js.ReturnsCourse course ->
  forall i a b,
    Js.GeneratedCourse.steps course !! i = Some a ->
    Js.GeneratedCourse.steps course !! S i = Some b ->
    forall endTime startTime,
      Js.CourseStep.endTime a = Js.Time endTime ->
      Js.CourseStep.startTime b = Js.Time startTime ->
      (endTime - msPerMinute < startTime)%Z /\
      (Place.type (Js.CourseStep.place b) <> restaurant -> (endTime <= startTime)%Z).
Proof.
  intros Hzone Hdist H. apply Js_generateCourse_returns in H.
  destruct H as (startLocation & userVector & _ & _ & Hbuild).
  apply buildCourse_Reach in Hbuild.
  destruct Hbuild as (st & markVisited & Hreach & _ & Hsteps & _). rewrite Hsteps.
  exact (appendEnd_chronology _ _ Hzone _ _ _ _ _ _ Hdist markVisited st Hreach).
Qed.

Lemma generateCourse_chronological_witness :
  exists course,
    Js.generateCourse koreaTime flatDistanceNumber nearestFirstNumber examplePool
      exampleOptions = Js.ReturnsCourse course /\
    forall i a b,
      Js.GeneratedCourse.steps course !! i = Some a ->
      Js.GeneratedCourse.steps course !! S i = Some b ->
      forall endTime startTime,
        Js.CourseStep.endTime a = Js.Time endTime ->
        Js.CourseStep.startTime b = Js.Time startTime ->
        (endTime - msPerMinute < startTime)%Z /\
        (Place.type (Js.CourseStep.place b) <> restaurant -> (endTime <= startTime)%Z).
Proof.
  eexists. split; [vm_compute; reflexivity|].
  apply (generateCourse_chronological koreaTime kst flatDistanceNumber nearestFirstNumber
           examplePool exampleOptions).
  - reflexivity.
  - exact flatDistanceNumber_not_negative.
  - vm_compute. reflexivity.
Defined.

(** X22: restaurants are for meals, where the offset of local time never
    changes.  A step of a returned course whose place is a restaurant is
    the start venue, a must-visit place or the end venue, or its stay, when
    it starts at a valid date, starts inside the lunch window or inside the
    dinner window. *)
Theorem generateCourse_restaurants_at_meal_times LocalTZA localOffsetMs
    haversineDistance calculatePlaceScore allPlaces options course :
  (forall t isUTC, LocalTZA t isUTC = localOffsetMs) ->
  Js.generateCourse LocalTZA haversineDistance calculatePlaceScore allPlaces options
    = Js.ReturnsCourse course ->
  forall step,
    In step (Js.GeneratedCourse.steps course) ->
    Place.type (Js.CourseStep.place step) = restaurant ->
    Options.startLocation options = Some (Js.CourseStep.place step) \/
    isAnchor options (Js.CourseStep.place step) \/
    forall startAt,
      Js.CourseStep.startTime step = Js.Time startAt ->
      inWindow (minutesSinceMidnight localOffsetMs startAt)
               (lunchOf (mealWindows options)) = true \/
      inWindow (minutesSinceMidnight localOffsetMs startAt)
               (dinnerOf (mealWindows options)) = true.
Proof.
  intros Hzone H step Hstep Hrest. apply Js_generateCourse_returns in H.
  destruct H as (startLocation & userVector & Hstart & _ & Hbuild).
  apply buildCourse_Reach in Hbuild.
  destruct Hbuild as (st & markVisited & Hreach & _ & Hsteps & _).
  rewrite Hsteps in Hstep.
  destruct (appendEnd_meals _ _ Hzone _ _ _ _ _ _ markVisited st Hreach step Hstep Hrest)
    as [E|[E|E]].
  - left. rewrite Hstart, E. reflexivity.
  - right. left. exact E.
  - right. right. exact E.
Qed.

Lemma generateCourse_restaurants_at_meal_times_witness :
  exists course step,
    Js.generateCourse koreaTime flatDistanceNumber nearestFirstNumber examplePool
      exampleOptions = Js.ReturnsCourse course /\
    Js.GeneratedCourse.steps course !! 3%nat = Some step /\
    Js.CourseStep.place step = noodleHouse /\
    (Options.startLocation exampleOptions = Some (Js.CourseStep.place step) \/
     isAnchor exampleOptions (Js.CourseStep.place step) \/
     forall startAt,
       Js.CourseStep.startTime step = Js.Time startAt ->
       inWindow (minutesSinceMidnight kst startAt)
                (lunchOf (mealWindows exampleOptions)) = true \/
       inWindow (minutesSinceMidnight kst startAt)
                (dinnerOf (mealWindows exampleOptions)) = true).
Proof.
  eexists. eexists. split; [vm_compute; reflexivity|].
  split; [reflexivity|]. split; [reflexivity|].
  eapply (generateCourse_restaurants_at_meal_times koreaTime kst flatDistanceNumber
            nearestFirstNumber examplePool exampleOptions).
  - reflexivity.
  - vm_compute. reflexivity.
  - do 3 right. left. reflexivity.
  - reflexivity.
Defined.

(** X26: [findNearestPlace] over JavaScript's numbers.  It returns null
    exactly when no candidate is unvisited and passes the test of the
    transport.  Otherwise it returns such a candidate with its distance;
    the candidates before it that pass are strictly farther or at a NaN
    distance, and none after it is nearer, in the sense of [<]: a first
    candidate at a NaN distance is returned whatever the others are, and
    then no candidate before it passes. *)
Theorem findNearestPlace_nearest haversineDistance from visited transport candidates :
  let reach := Js.reachable haversineDistance from visited transport in
  match Js.findNearestPlace haversineDistance from candidates visited transport with
  | None => forall place, In place candidates -> reach place = None
  | Some nearest =>
      exists before after,
        candidates = before ++ Js.Nearest.place nearest :: after /\
        reach (Js.Nearest.place nearest) = Some (Js.Nearest.distanceKm nearest) /\
        (forall place d, In place before -> reach place = Some d ->
                         d = Js.NaN \/ Js.ltb (Js.Nearest.distanceKm nearest) d = true) /\
        (forall place d, In place after -> reach place = Some d ->
                         Js.ltb d (Js.Nearest.distanceKm nearest) = false) /\
        (Js.Nearest.distanceKm nearest = Js.NaN ->
         forall place, In place before -> reach place = None)
  end.
Proof. cbv zeta. apply Js_findNearestPlace_cases. Qed.

(** The first candidate is at the antipode, at a NaN distance: it is
    returned, not the cafe 100 m away. *)
Example findNearestPlace_keeps_NaN :
  option_map Js.Nearest.place
    (Js.findNearestPlace flatDistanceOrNaN cityHall [antipodeCafe; artCafe] ∅ car)
  = Some antipodeCafe.
Proof. vm_compute. reflexivity. Qed.

(** * The similarity in binary64 *)

Lemma SFmul_comm x y : SFmul prec emax x y = SFmul prec emax y x.
Proof.
  destruct x as [sx|sx| |sx mx ex], y as [sy|sy| |sy my ey]; cbn;
    rewrite ?(xorb_comm sx sy); try reflexivity.
  rewrite (Pos.mul_comm mx my), (Z.add_comm ex ey). reflexivity.
Qed.

Lemma float_mul_comm (x y : float) : (x * y)%float = (y * x)%float.
Proof.
  apply Prim2SF_inj. rewrite !mul_spec. apply SFmul_comm.
Qed.

Lemma Binary64_cosineSums_swap vecA vecB :
  Binary64.cosineSums vecB vecA =
  let '(dotProduct, normA, normB) := Binary64.cosineSums vecA vecB in
  (dotProduct, normB, normA).
Proof.
  unfold Binary64.cosineSums. cbn [fold_left VECTOR_DIMENSIONS].
  repeat rewrite (float_mul_comm (Binary64.orZero (vecB _)) (Binary64.orZero (vecA _))).
  reflexivity.
Qed.

Lemma Binary64_cosineSimilarity_symmetric vecA vecB :
  Binary64.cosineSimilarity vecA vecB = Binary64.cosineSimilarity vecB vecA.
Proof.
  unfold Binary64.cosineSimilarity. rewrite (Binary64_cosineSums_swap vecA vecB).
  destruct (Binary64.cosineSums vecA vecB) as [[dotProduct normA] normB].
  rewrite (float_mul_comm (PrimFloat.sqrt normB) (PrimFloat.sqrt normA)). reflexivity.
Qed.

Lemma Binary64_cosineSimilarity_ext vecA vecA' vecB vecB' :
  (forall dim, vecA dim = vecA' dim) -> (forall dim, vecB dim = vecB' dim) ->
  Binary64.cosineSimilarity vecA vecB = Binary64.cosineSimilarity vecA' vecB'.
Proof.
  intros HA HB. unfold Binary64.cosineSimilarity, Binary64.cosineSums.
  cbn [fold_left VECTOR_DIMENSIONS]. rewrite !HA, !HB. reflexivity.
Qed.

Lemma forBoth_spec check : forBoth check = true -> forall b, check b = true.
Proof.
  unfold forBoth. intros H b. apply andb_true_iff in H. destruct b; tauto.
Qed.

Lemma forAllFlags_spec check :
  forAllFlags check = true ->
  forall meat seafood noodle rice bread quiet active indoor park luxury dining,
    check (featureOfFlags meat seafood noodle rice bread quiet active indoor park
                          luxury dining) = true.
Proof.
  unfold forAllFlags. intros H meat seafood noodle rice bread quiet active indoor park
    luxury dining.
  apply forBoth_spec with (b := meat) in H.
  apply forBoth_spec with (b := seafood) in H.
  apply forBoth_spec with (b := noodle) in H.
  apply forBoth_spec with (b := rice) in H.
  apply forBoth_spec with (b := bread) in H.
  apply forBoth_spec with (b := quiet) in H.
  apply forBoth_spec with (b := active) in H.
  apply forBoth_spec with (b := indoor) in H.
  apply forBoth_spec with (b := park) in H.
  apply forBoth_spec with (b := luxury) in H.
  apply forBoth_spec with (b := dining) in H.
  exact H.
Qed.

Lemma placeToFeatureVector_flags place :
  exists meat seafood noodle rice bread quiet active indoor park luxury dining,
    forall dim,
      placeToFeatureVector place dim =
      featureOfFlags meat seafood noodle rice bread quiet active indoor park luxury
                     dining dim.
Proof.
  do 11 eexists. intros dim. destruct dim; cbn [featureOfFlags].
  - apply placeToFeatureVector_Meat.
  - apply placeToFeatureVector_Seafood.
  - apply placeToFeatureVector_Noodle.
  - apply placeToFeatureVector_Rice.
  - apply placeToFeatureVector_Bread.
  - apply placeToFeatureVector_Quiet.
  - apply placeToFeatureVector_Active.
  - apply placeToFeatureVector_Indoor.
  - apply placeToFeatureVector_Nature.
  - apply placeToFeatureVector_Luxury.
Qed.

Lemma applyFeedback_values history dim : In (applyFeedback history dim) feedbackValues.
Proof.
  induction history as [|[place action] history IH] using rev_ind.
  - left. reflexivity.
  - rewrite applyFeedback_snoc, updateUserVector_at, placeToFeatureVector_positive.
    unfold feedbackValues in IH. cbn [In] in IH.
    repeat (destruct IH as [<-|IH]; [destruct action; vm_compute; tauto|]).
    destruct IH.
Qed.

(** What holds of every similarity of the check holds of the similarity of
    the user vector after any feedback with the vector of any place. *)
Lemma forAllSimilarities_spec check history place :
  forAllSimilarities check = true ->
  check (applyFeedback history Meat)
        (Binary64.cosineSimilarity (Binary64.ofVector INITIAL_USER_VECTOR)
           (Binary64.ofVector (placeToFeatureVector place)))
        (Binary64.cosineSimilarity (Binary64.ofVector (applyFeedback history))
           (Binary64.ofVector (placeToFeatureVector place))) = true.
Proof.
  intros H. unfold forAllSimilarities in H. rewrite forallb_forall in H.
  specialize (H _ (applyFeedback_values history Meat)).
  destruct (placeToFeatureVector_flags place)
    as (meat & seafood & noodle & rice & bread & quiet & active & indoor & park &
        luxury & dining & Hflags).
  pose proof (forAllFlags_spec _ H meat seafood noodle rice bread quiet active indoor
                park luxury dining) as Hcheck.
  cbv beta in Hcheck.
  assert (Hplace : forall dim,
             Binary64.ofVector (placeToFeatureVector place) dim =
             Binary64.ofVector (featureOfFlags meat seafood noodle rice bread quiet
                                  active indoor park luxury dining) dim).
  { intros dim. unfold Binary64.ofVector. rewrite Hflags. reflexivity. }
  rewrite (Binary64_cosineSimilarity_ext _ _ _ _ (fun dim => eq_refl) Hplace).
  rewrite (Binary64_cosineSimilarity_ext
             (Binary64.ofVector (applyFeedback history))
             (Binary64.ofVector (fun _ => applyFeedback history Meat)) _ _
             (fun dim => f_equal Binary64.ofQ (applyFeedback_constant history dim Meat))
             Hplace).
  exact Hcheck.
Qed.

Lemma similarities_in_unit_interval :
  forAllSimilarities (fun _ _ similarity => inUnitInterval similarity) = true.
Proof. vm_compute. reflexivity. Qed.

Lemma similarities_near_neutral :
  forAllSimilarities
    (fun x neutral similarity =>
       if Qeq_bool x 0 then PrimFloat.eqb similarity 0
       else PrimFloat.leb (PrimFloat.abs (similarity - neutral)) roundingError) = true.
Proof. vm_compute. reflexivity. Qed.

(** ** The similarity and the diversity multiplier, as the code computes them *)

(** C7, where the code fails it: the vector of the book cafe, a plain
    indoor place, has no negative component, and its similarity with
    itself, that is the similarity that [calculatePlaceScore] computes for
    the book cafe and a user vector equal to the vector of the place, is
    1.0000000000000002, above 1. *)
Theorem cosineSimilarity_exceeds_one :
  let placeVector := placeToFeatureVector bookCafe in
  let similarity :=
    Binary64.cosineSimilarity (Binary64.ofVector placeVector)
                              (Binary64.ofVector placeVector) in
  (forall dim, 0 <= placeVector dim) /\
  (forall dim, placeVector dim = if VectorDimension_eqb dim Indoor then 1 else 1#2) /\
  similarity = 0x1.0000000000001p+0%float /\
  PrimFloat.ltb 1 similarity = true.
Proof.
  cbv zeta. split; [|split; [|split]].
  - intros []; vm_compute; discriminate.
  - intros []; vm_compute; reflexivity.
  - vm_compute. reflexivity.
  - vm_compute. reflexivity.
Qed.




(** X4: in doubles [cosineSimilarity] is symmetric, bit for bit, on all
    vectors.  The similarity of a vector with itself is 1 only up to the
    rounding: after any feedback the similarity of the user vector with
    itself is 0 when the vector is all zeros and else within 2^-52 of 1;
    it is 0.9999999999999998 for the initial vector, all 0.5, and
    1.0000000000000002 after one LIKE, all 0.6. *)
Theorem cosineSimilarity_symmetric_reflexive :
  (forall vecA vecB,
      Binary64.cosineSimilarity vecA vecB = Binary64.cosineSimilarity vecB vecA) /\
  (forall history,
      let userVector := Binary64.ofVector (applyFeedback history) in
      let similarity := Binary64.cosineSimilarity userVector userVector in
      if Qeq_bool (applyFeedback history Meat) 0
      then similarity = 0%float
      else PrimFloat.leb (PrimFloat.abs (similarity - 1)) 0x1p-52 = true) /\
  (let userVector := Binary64.ofVector INITIAL_USER_VECTOR in
   Binary64.cosineSimilarity userVector userVector = 0x1.ffffffffffffep-1%float) /\
  (let userVector := Binary64.ofVector (applyFeedback [(artCafe, LIKE)]) in
   Binary64.cosineSimilarity userVector userVector = 0x1.0000000000001p+0%float).
Proof.
  split; [exact Binary64_cosineSimilarity_symmetric|].
  split; [|split; vm_compute; reflexivity].
  intros history. cbv zeta.
  rewrite (Binary64_cosineSimilarity_ext
             (Binary64.ofVector (applyFeedback history))
             (Binary64.ofVector (fun _ => applyFeedback history Meat))
             (Binary64.ofVector (applyFeedback history))
             (Binary64.ofVector (fun _ => applyFeedback history Meat))
             (fun dim => f_equal Binary64.ofQ (applyFeedback_constant history dim Meat))
             (fun dim => f_equal Binary64.ofQ (applyFeedback_constant history dim Meat))).
  pose proof (applyFeedback_values history Meat) as Hin.
  unfold feedbackValues in Hin. cbn [In] in Hin.
  repeat (destruct Hin as [<-|Hin]; [vm_compute; reflexivity|]).
  destruct Hin.
Qed.

(** X6: feedback leaves the similarity as it is, up to the rounding.  After
    any feedback the similarity of the user vector with a place is 0 when
    the vector is all zeros, and else within 2^-51 of the similarity of the
    initial vector with the place; it is not always equal to it. *)
Theorem feedback_leaves_similarity history place :
  let placeVector := Binary64.ofVector (placeToFeatureVector place) in
  let neutral :=
    Binary64.cosineSimilarity (Binary64.ofVector INITIAL_USER_VECTOR) placeVector in
  let similarity :=
    Binary64.cosineSimilarity (Binary64.ofVector (applyFeedback history)) placeVector in
  (if Qeq_bool (applyFeedback history Meat) 0
   then PrimFloat.eqb similarity 0 = true
   else PrimFloat.leb (PrimFloat.abs (similarity - neutral)) 0x1p-51 = true) /\
  PrimFloat.eqb
    (Binary64.cosineSimilarity
       (Binary64.ofVector (applyFeedback [(artCafe, LIKE); (riverWalk, DISLIKE)]))
       (Binary64.ofVector (placeToFeatureVector riverWalk)))
    (Binary64.cosineSimilarity (Binary64.ofVector INITIAL_USER_VECTOR)
       (Binary64.ofVector (placeToFeatureVector riverWalk))) = false.
Proof.
  cbv zeta. split.
  - pose proof (forAllSimilarities_spec _ history place similarities_near_neutral) as H.
    cbv beta in H. destruct (Qeq_bool (applyFeedback history Meat) 0); exact H.
  - vm_compute. reflexivity.
Qed.

(** X32: for the vectors that the application computes with, the
    similarity is between 0 and 1: after any feedback, the similarity of
    the user vector with the vector of any place. *)
Theorem similarity_of_feedback_in_unit_interval history place :
  let similarity :=
    Binary64.cosineSimilarity (Binary64.ofVector (applyFeedback history))
                              (Binary64.ofVector (placeToFeatureVector place)) in
  PrimFloat.leb 0 similarity = true /\ PrimFloat.leb similarity 1 = true.
Proof.
  cbv zeta.
  pose proof (forAllSimilarities_spec _ history place similarities_in_unit_interval) as H.
  cbv beta in H. unfold inUnitInterval in H. apply andb_true_iff in H. exact H.
Qed.
